(** * Steem WebSocket Bridge v2

    A shallow embedding of the [SteemWebSocketServer] class of the bridge
    (the revised server file, 1472 lines) and the properties of its
    admission pipeline, dispatcher, cache layer, upstream pool and poll
    driver.

    Conventions.
    - JavaScript values are the JSON data the server handles, plus
      [undefined].  Numbers are restricted to integers: [VNum n] is the
      double whose value is [n].  A string is a sequence of UTF-16 code
      units below 256, one [ascii] each, so that its length and its
      indices are those of the JavaScript string.
    - Every method of the class is a computation in the monad [M]: it
      reads and writes the server object and may throw.  A throw keeps
      the state reached so far, as in JavaScript.
    - The upstream RPC client is an oracle: for the k-th call made, on a
      given endpoint, it returns a latency and a result or an error.
    - [Date.now()] reads the field [clock]; the clock advances while an
      upstream call or a timer is awaited and is constant inside a
      synchronous block.
    - A handler runs as one turn of the event loop.  The section
      [Interleaving] opens the [await]s of the client on the way from the
      3-second callback, so that other handlers run in between.
    - A log line is kept where it can throw: a template literal that
      prints a value of a request or of a reply converts it to a string,
      which fails on some objects.
    - [ws.send] appends the serialised frame to the socket's [sent] log when
      the socket is open. *)

From Stdlib Require Import ZArith List String Ascii Bool Lia Sorted.
From stdpp Require Import base list functions strings pretty.
Import ListNotations.
Local Open Scope Z_scope.

(** ** JavaScript values *)

Set Warnings "-register-all".

Inductive value : Type :=
  | VUndef
  | VNull
  | VBool (b : bool)
  | VNum (n : Z)
  | VStr (s : string)
  | VArr (items : list value)
  | VObj (fields : list (string * value)).

(** Truthiness, as tested by [!x], [x || y] and [if (x)]. *)
Definition truthy (v : value) : bool :=
  match v with
  | VUndef | VNull => false
  | VBool b => b
  | VNum n => negb (n =? 0)
  | VStr s => negb (String.eqb s "")
  | VArr _ | VObj _ => true
  end.

(** [a || b] *)
Definition js_or (a b : value) : value := if truthy a then a else b.

(** Structural equality.  On JSON data it coincides with equality of the
    [JSON.stringify] renderings, and with [===] on primitives. *)
Fixpoint value_eqb (a b : value) {struct a} : bool :=
  match a, b with
  | VUndef, VUndef => true
  | VNull, VNull => true
  | VBool x, VBool y => Bool.eqb x y
  | VNum x, VNum y => x =? y
  | VStr x, VStr y => String.eqb x y
  | VArr xs, VArr ys =>
      (fix go (xs ys : list value) {struct xs} : bool :=
         match xs, ys with
         | [], [] => true
         | x :: xs', y :: ys' => value_eqb x y && go xs' ys'
         | _, _ => false
         end) xs ys
  | VObj xs, VObj ys =>
      (fix go (xs ys : list (string * value)) {struct xs} : bool :=
         match xs, ys with
         | [], [] => true
         | (k, x) :: xs', (k', y) :: ys' =>
             String.eqb k k' && value_eqb x y && go xs' ys'
         | _, _ => false
         end) xs ys
  | _, _ => false
  end.

(** Property lookup on an object literal; the first binding of a key wins. *)
Fixpoint assoc (k : string) (fs : list (string * value)) : option value :=
  match fs with
  | [] => None
  | (k', v) :: rest => if String.eqb k k' then Some v else assoc k rest
  end.

(** [v.k] for a property name that no primitive or array carries
    ([id], [method], [params], [head_block_number]). *)
Definition getProp (v : value) (k : string) : value :=
  match v with
  | VObj fs => match assoc k fs with Some x => x | None => VUndef end
  | _ => VUndef
  end.

(** [String.prototype.includes] *)
Fixpoint includes (needle s : string) : bool :=
  String.prefix needle s ||
  match s with
  | EmptyString => false
  | String _ rest => includes needle rest
  end.

(** [JSON.stringify] followed by the client's [JSON.parse]: properties
    whose value is [undefined] are omitted, [undefined] array items
    become [null]. *)
Fixpoint wire (v : value) : value :=
  match v with
  | VArr xs =>
      VArr ((fix go (xs : list value) : list value :=
               match xs with
               | [] => []
               | x :: rest =>
                   match x with VUndef => VNull | _ => wire x end :: go rest
               end) xs)
  | VObj fs =>
      VObj ((fix go (fs : list (string * value)) : list (string * value) :=
               match fs with
               | [] => []
               | (k, x) :: rest =>
                   match x with
                   | VUndef => go rest
                   | _ => (k, wire x) :: go rest
                   end
               end) fs)
  | _ => v
  end.

(** A frame on the wire is the list of its properties, in order. *)
Definition frame : Type := list (string * value).

Definition JSON_stringify (fs : list (string * value)) : frame :=
  match wire (VObj fs) with
  | VObj fs' => fs'
  | _ => []
  end.

(** ** [Date.prototype.toISOString]

    Milliseconds since the epoch to [YYYY-MM-DDTHH:mm:ss.sssZ], using the
    days-to-civil conversion of the proleptic Gregorian calendar (years
    0000 to 9999). *)

Definition pad (width : nat) (n : Z) : string :=
  let s := pretty n in
  String.concat "" (repeat "0" (width - String.length s)%nat) +:+ s.

Definition toISOString (ms : Z) : string :=
  let days := ms / 86400000 in
  let rem := ms mod 86400000 in
  let z := days + 719468 in
  let era := z / 146097 in
  let doe := z - era * 146097 in
  let yoe := (doe - doe / 1460 + doe / 36524 - doe / 146096) / 365 in
  let doy := doe - (365 * yoe + yoe / 4 - yoe / 100) in
  let mp := (5 * doy + 2) / 153 in
  let d := doy - (153 * mp + 2) / 5 + 1 in
  let m := if mp <? 10 then mp + 3 else mp - 9 in
  let y := yoe + era * 400 + (if m <=? 2 then 1 else 0) in
  pad 4 y +:+ "-" +:+ pad 2 m +:+ "-" +:+ pad 2 d +:+ "T" +:+
  pad 2 (rem / 3600000) +:+ ":" +:+ pad 2 (rem / 60000 mod 60) +:+ ":" +:+
  pad 2 (rem / 1000 mod 60) +:+ "." +:+ pad 3 (rem mod 1000) +:+ "Z".

Example toISOString_epoch : toISOString 0 = "1970-01-01T00:00:00.000Z".
Proof. reflexivity. Qed.

Example toISOString_2023 :
  toISOString 1700000000123 = "2023-11-14T22:13:20.123Z".
Proof. vm_compute. reflexivity. Qed.

Example toISOString_leap :
  toISOString 1709210096789 = "2024-02-29T12:34:56.789Z".
Proof. vm_compute. reflexivity. Qed.

(** ** Errors and outcomes *)

(** An [Error] object: its [name] and [message]. *)
Record JsError : Type := mkError { ename : string; emessage : string }.

Definition Error (msg : string) : JsError := mkError "Error" msg.
Definition TypeError (msg : string) : JsError := mkError "TypeError" msg.

(** [Error.prototype.toString] *)
Definition error_toString (e : JsError) : string :=
  if String.eqb (ename e) "" then emessage e
  else if String.eqb (emessage e) "" then ename e
  else ename e +:+ ": " +:+ emessage e.

Inductive Outcome (A : Type) : Type :=
  | Ok (a : A)
  | Throw (e : JsError).
Arguments Ok {A} a.
Arguments Throw {A} e.

(** ** [Number::toString]

    An integer below 2^53 prints as its decimal digits.  From there on a
    double prints as the shortest run of digits that reads back as the same
    double, closest to it, followed by zeros; from 10^21 on in exponent
    form. *)

Fixpoint drop_while {A : Type} (p : A → bool) (l : list A) : list A :=
  match l with
  | [] => []
  | x :: rest => if p x then drop_while p rest else l
  end.

Definition strip_zeros (s : string) : string :=
  string_of_list_ascii
    (rev (drop_while (λ c, bool_decide (c = "0"%char)) (rev (list_ascii_of_string s)))).

(** The number whose digits a double [x >= 2^53] prints: the multiple of a
    power of ten with the fewest digits among the reals that round to [x],
    the closest one to [x], the even one on a tie. *)
Definition shortest (x : Z) : Z :=
  let e := Z.log2 x in
  let ulp := 2 ^ (e - 52) in
  let below := if x =? 2 ^ e then ulp / 2 else ulp in
  let even := Z.even (x / ulp) in
  let rounds_to_x v :=
    if even then (2 * x - below <=? 2 * v) && (2 * v <=? 2 * x + ulp)
    else (2 * x - below <? 2 * v) && (2 * v <? 2 * x + ulp) in
  let D := Z.of_nat (String.length (pretty x)) in
  let candidate (k : Z) : option Z :=
    let p := 10 ^ (D - k) in
    let lo := x / p * p in
    let hi := lo + p in
    match rounds_to_x lo, rounds_to_x hi with
    | true, true =>
        Some (if x - lo <? hi - x then lo
              else if hi - x <? x - lo then hi
              else if Z.even (lo / p) then lo else hi)
    | true, false => Some lo
    | false, true => Some hi
    | false, false => None
    end in
  match list_find (λ k, is_Some (candidate k)) (Z.of_nat <$> seq 1 17) with
  | Some (_, k) => default x (candidate k)
  | None => x
  end.

Definition Number_toString (n : Z) : string :=
  let x := Z.abs n in
  let sign := if n <? 0 then "-" else "" in
  if x <? 2 ^ 53 then sign +:+ pretty x
  else
    let v := shortest x in
    let all := pretty v in
    if Z.of_nat (String.length all) <=? 21 then sign +:+ all
    else
      let s := strip_zeros all in
      let exponent := pretty (Z.of_nat (String.length all) - 1) in
      match s with
      | String d EmptyString => sign +:+ String d "e+" +:+ exponent
      | String d rest => sign +:+ String d ("." +:+ rest) +:+ "e+" +:+ exponent
      | EmptyString => sign +:+ all
      end.

Example Number_toString_safe : Number_toString (-9007199254740991) = "-9007199254740991".
Proof. vm_compute. reflexivity. Qed.

Example Number_toString_2_63 : Number_toString (2 ^ 63) = "9223372036854776000".
Proof. vm_compute. reflexivity. Qed.

Example Number_toString_1e21 : Number_toString (10 ^ 21) = "1e+21".
Proof. vm_compute. reflexivity. Qed.

Example Number_toString_2_70 : Number_toString (2 ^ 70) = "1.1805916207174113e+21".
Proof. vm_compute. reflexivity. Qed.

Definition cannot_convert : JsError :=
  TypeError "Cannot convert object to primitive value".

(** ** Conversion to a string

    [ToString], as a template literal and [Array.prototype.join] perform
    it.  An object parsed from JSON has no callable [toString] of its own:
    one with a [toString] key cannot be converted, the others print as
    [[object Object]]. *)
Fixpoint toStr (v : value) : Outcome string :=
  match v with
  | VUndef => Ok "undefined"
  | VNull => Ok "null"
  | VBool true => Ok "true"
  | VBool false => Ok "false"
  | VNum n => Ok (Number_toString n)
  | VStr s => Ok s
  | VArr xs =>
      (fix join (xs : list value) : Outcome string :=
         match xs with
         | [] => Ok ""
         | x :: rest =>
             match match x with VUndef | VNull => Ok "" | _ => toStr x end with
             | Throw e => Throw e
             | Ok a =>
                 match rest with
                 | [] => Ok a
                 | _ =>
                     match join rest with
                     | Ok b => Ok (a +:+ "," +:+ b)
                     | Throw e => Throw e
                     end
                 end
             end
         end) xs
  | VObj fs =>
      match assoc "toString" fs with
      | Some _ => Throw cannot_convert
      | None => Ok "[object Object]"
      end
  end.

(** The values a template literal can print. *)
Definition printable (v : value) : bool :=
  match toStr v with
  | Ok _ => true
  | Throw _ => false
  end.

(** ** [ToNumber] of a string, compared with 3

    The value a string reads as: [NaN], an infinity, or a signed decimal
    [m * 10^e]. *)
Inductive Numeric : Type :=
  | NaN
  | Infinite (negative : bool)
  | Finite (negative : bool) (m e : Z).

Definition code (c : ascii) : Z := Z.of_nat (nat_of_ascii c).

(** The white space and line terminators among the code units below 256. *)
Definition is_space (c : ascii) : bool :=
  let n := code c in
  ((9 <=? n) && (n <=? 13)) || (n =? 32) || (n =? 160).

Definition digit_of (radix : Z) (c : ascii) : option Z :=
  let n := code c in
  let d :=
    if (48 <=? n) && (n <=? 57) then n - 48
    else if (97 <=? n) && (n <=? 102) then n - 87
    else if (65 <=? n) && (n <=? 70) then n - 55
    else 16 in
  if d <? radix then Some d else None.

(** The digits at the head of [l], in the given radix: their value, their
    number, and what follows them. *)
Fixpoint read_digits (radix : Z) (acc : Z) (count : nat) (l : list ascii)
    : Z * nat * list ascii :=
  match l with
  | [] => (acc, count, [])
  | c :: rest =>
      match digit_of radix c with
      | Some d => read_digits radix (radix * acc + d) (S count) rest
      | None => (acc, count, l)
      end
  end.

(** [ExponentPart], or nothing, up to the end of the text. *)
Definition read_exponent (l : list ascii) : option Z :=
  match l with
  | [] => Some 0
  | c :: rest =>
      if (code c =? 101) || (code c =? 69) then
        let '(negative, rest) :=
          match rest with
          | s :: rest' =>
              if code s =? 45 then (true, rest')
              else if code s =? 43 then (false, rest')
              else (false, rest)
          | [] => (false, rest)
          end in
        match read_digits 10 0 0 rest with
        | (_, O, _) => None
        | (x, _, []) => Some (if negative then - x else x)
        | _ => None
        end
      else None
  end.

(** [StrUnsignedDecimalLiteral] *)
Definition read_unsigned (negative : bool) (l : list ascii) : Numeric :=
  if bool_decide (l = list_ascii_of_string "Infinity") then Infinite negative
  else
    let '(int, n_int, rest) := read_digits 10 0 0 l in
    let '(m, n_frac, rest, digits) :=
      match rest with
      | c :: rest' =>
          if code c =? 46 then
            let '(m, n_frac, rest'') := read_digits 10 int 0 rest' in
            (m, n_frac, rest'', (n_int + n_frac)%nat)
          else (int, O, rest, n_int)
      | [] => (int, O, rest, n_int)
      end in
    match digits, read_exponent rest with
    | O, _ => NaN
    | _, None => NaN
    | _, Some x => Finite negative m (x - Z.of_nat n_frac)
    end.

(** [StringToNumber] on the trimmed text. *)
Definition read_numeric (l : list ascii) : Numeric :=
  match l with
  | [] => Finite false 0 0
  | c :: rest =>
      let radix_literal (radix : Z) (digits : list ascii) : Numeric :=
        match read_digits radix 0 0 digits with
        | (_, O, _) => NaN
        | (x, _, []) => Finite false x 0
        | _ => NaN
        end in
      let prefixed : option Numeric :=
        match rest with
        | p :: digits =>
            if code c =? 48 then
              if (code p =? 120) || (code p =? 88) then Some (radix_literal 16 digits)
              else if (code p =? 111) || (code p =? 79) then Some (radix_literal 8 digits)
              else if (code p =? 98) || (code p =? 66) then Some (radix_literal 2 digits)
              else None
            else None
        | [] => None
        end in
      match prefixed with
      | Some x => x
      | None =>
          if code c =? 45 then read_unsigned true rest
          else if code c =? 43 then read_unsigned false rest
          else read_unsigned false l
      end
  end.

Definition trim (l : list ascii) : list ascii :=
  rev (drop_while is_space (rev (drop_while is_space l))).

Definition string_toNumeric (s : string) : Numeric :=
  read_numeric (trim (list_ascii_of_string s)).

(** Whether the double nearest to the value is below 3: the doubles next
    to 3 are [3 - 2^-51] and 3 itself, and the tie between them goes to
    3. *)
Definition numeric_lt_3 (x : Numeric) : bool :=
  match x with
  | NaN => false
  | Infinite negative => negative
  | Finite true _ _ => true
  | Finite false m e =>
      if 0 <=? e then m * 10 ^ e <? 3
      else m * 2 ^ 52 <? (3 * 2 ^ 52 - 1) * 10 ^ (- e)
  end.

(** [v < 3], with [ToPrimitive] and [ToNumber] on [v]. *)
Definition js_lt_3 (v : value) : Outcome bool :=
  match v with
  | VUndef => Ok false
  | VNull => Ok true
  | VBool _ => Ok true
  | VNum n => Ok (n <? 3)
  | VStr s => Ok (numeric_lt_3 (string_toNumeric s))
  | VArr _ | VObj _ =>
      match toStr v with
      | Ok s => Ok (numeric_lt_3 (string_toNumeric s))
      | Throw e => Throw e
      end
  end.

Example js_lt_3_texts :
  (λ s, numeric_lt_3 (string_toNumeric s))
    <$> [ " 2"; "2.5"; "0x2"; "3"; "2.99999999999999999999"; "-Infinity"; "1e1";
          "30e-1"; "29e-1"; ""; "2,1"; ".5"; "."; "5."; "0x"; "+0x1"; "2e"; "[object Object]" ]
  = [ true; true; true; false; false; true; false;
      false; true; true; false; true; false; false; false; false; false; false ].
Proof. vm_compute. reflexivity. Qed.

(** [v[i]] for an index [i]; reading a property of [null] or [undefined]
    throws. *)
Definition getIndex (v : value) (i : nat) : Outcome value :=
  match v with
  | VUndef =>
      Throw (TypeError ("Cannot read properties of undefined (reading '"
                          +:+ pretty i +:+ "')"))
  | VNull =>
      Throw (TypeError ("Cannot read properties of null (reading '"
                          +:+ pretty i +:+ "')"))
  | VArr xs => Ok (nth i xs VUndef)
  | VStr s =>
      Ok (match String.get i s with
          | Some c => VStr (String c EmptyString)
          | None => VUndef
          end)
  | VObj fs => Ok (match assoc (pretty i) fs with Some x => x | None => VUndef end)
  | VBool _ | VNum _ => Ok VUndef
  end.

(** [v.length] *)
Definition getLength (v : value) : Outcome value :=
  match v with
  | VUndef => Throw (TypeError "Cannot read properties of undefined (reading 'length')")
  | VNull => Throw (TypeError "Cannot read properties of null (reading 'length')")
  | VArr xs => Ok (VNum (Z.of_nat (length xs)))
  | VStr s => Ok (VNum (Z.of_nat (String.length s)))
  | VObj fs => Ok (match assoc "length" fs with Some x => x | None => VUndef end)
  | VBool _ | VNum _ => Ok VUndef
  end.

(** ** The insertion-ordered [Map] of the cache layers *)

(** [{ value, timestamp }] *)
Record CacheItem : Type := mkItem { item_value : value; item_timestamp : Z }.

(** Keys are the template strings [header_N], [block_N], [ops_N_V]; the
    list keeps insertion order, oldest first, one binding per key. *)
Definition JsMap : Type := list (string * CacheItem).

Fixpoint map_get (k : string) (m : JsMap) : option CacheItem :=
  match m with
  | [] => None
  | (k', x) :: rest => if String.eqb k k' then Some x else map_get k rest
  end.

(** [map.set(k, x)]: an existing key keeps its position. *)
Fixpoint map_set (k : string) (x : CacheItem) (m : JsMap) : JsMap :=
  match m with
  | [] => [(k, x)]
  | (k', x') :: rest =>
      if String.eqb k k' then (k, x) :: rest else (k', x') :: map_set k x rest
  end.

Fixpoint map_delete (k : string) (m : JsMap) : JsMap :=
  match m with
  | [] => []
  | (k', x') :: rest =>
      if String.eqb k k' then rest else (k', x') :: map_delete k rest
  end.

Definition map_size (m : JsMap) : Z := Z.of_nat (length m).

(** [map.keys().next().value] *)
Definition map_first_key (m : JsMap) : option string :=
  match m with
  | [] => None
  | (k, _) :: _ => Some k
  end.

(** ** The server object *)

Definition steemNodes : list string :=
  [ "https://api.steemit.com/";
    "https://api.moecki.online/";
    "https://api.steemitdev.com/";
    "https://steemd.steemworld.org/";
    "https://api.pennsif.net/";
    "https://api.botsteem.com/";
    "https://api.steememory.com/";
    "https://steemapi.boylikegirl.club/";
    "https://api.justyy.com/";
    "https://api.steem.fans/" ].

Record NodeHealth : Type := mkHealth {
  url : string;
  healthy : bool;
  lastError : option Z;          (* [null] until the first failure *)
  errorCount : Z;
  lastSuccess : Z;
  avgResponseTime : Z;
  totalRequests : Z
}.

Record Cache : Type := mkCache {
  globalProperties : value;      (* [VNull] when empty *)
  activeWitnesses : value;
  blockHeaders : JsMap;
  blocks : JsMap;
  operations : JsMap;
  lastGlobalUpdate : Z;
  lastWitnessUpdate : Z
}.

(** The four configuration fields of [this.cache]; nothing assigns them
    after the constructor. *)
Definition globalTTL : Z := 3000.
Definition witnessTTL : Z := 300000.
Definition blockTTL : Z := 300000.
Definition maxCacheSize : Z := 1000.

Definition maxQueueSize : Z := 1000.

Record ErrorStats : Type := mkStats {
  totalErrors : Z;
  nodeErrors : Z;
  cacheHits : Z;
  cacheMisses : Z;
  autoRecoveries : Z
}.

(** A [Set] of sockets, in insertion order. *)
Definition WsSet : Type := list nat.

Definition set_has (ws : nat) (s : WsSet) : bool := existsb (Nat.eqb ws) s.
Definition set_add (ws : nat) (s : WsSet) : WsSet :=
  if set_has ws s then s else s ++ [ws].
Definition set_delete (ws : nat) (s : WsSet) : WsSet :=
  List.filter (fun x => negb (Nat.eqb ws x)) s.
Definition set_size (s : WsSet) : Z := Z.of_nat (length s).

Record Subscribers : Type := mkSubs {
  sub_globalProperties : WsSet;
  sub_blocks : WsSet;
  sub_blockHeaders : WsSet;
  sub_operations : WsSet;
  sub_witnesses : WsSet
}.

Inductive ReadyState : Type := CONNECTING | OPEN | CLOSING | CLOSED.

Definition is_open (r : ReadyState) : bool :=
  match r with OPEN => true | _ => false end.

(** A [ws] object: the three rate-limit properties the connection handler
    attaches to it, its state, and the frames written to it. *)
Record Socket : Type := mkSocket {
  messageCount : Z;
  lastReset : Z;
  maxMessagesPerMinute : Z;
  readyState : ReadyState;
  sent : list frame
}.

(** The calls made on the [dsteem] client. *)
Inductive ClientCall : Type :=
  | database_getDynamicGlobalProperties
  | database_getBlockHeader (n : value)
  | database_getBlock (n : value)
  | database_getTransaction (id : value)
  | database_call (method : string) (params : value)
  | client_call (api method : string) (params : value).

(** What the retrying caller does, in order. *)
Inductive Event : Type :=
  | EvAttempt (attempt : Z) (node : nat) (outcome : Outcome value)
  | EvFailover
  | EvSleep (ms : Z).

Record Server : Type := mkServer {
  steemClient : nat;             (* the endpoint the client is bound to *)
  currentNodeIndex : nat;
  nodeHealth : list NodeHealth;
  cache : Cache;
  requestQueue : list (nat * value);
  isProcessingQueue : bool;
  errorStats : ErrorStats;
  subscribers : Subscribers;
  lastProcessedBlock : value;
  clients : WsSet;               (* [wss.clients] *)
  sockets : nat → Socket;        (* the [ws] objects, by identity *)
  clock : Z;                     (* [Date.now()] *)
  ncalls : nat;                  (* upstream calls made so far *)
  trace : list Event
}.

(** *** Field updates *)

Definition set_steemClient (x : nat) (s : Server) : Server :=
  mkServer x (currentNodeIndex s) (nodeHealth s) (cache s) (requestQueue s)
    (isProcessingQueue s) (errorStats s) (subscribers s) (lastProcessedBlock s)
    (clients s) (sockets s) (clock s) (ncalls s) (trace s).
Definition set_currentNodeIndex (x : nat) (s : Server) : Server :=
  mkServer (steemClient s) x (nodeHealth s) (cache s) (requestQueue s)
    (isProcessingQueue s) (errorStats s) (subscribers s) (lastProcessedBlock s)
    (clients s) (sockets s) (clock s) (ncalls s) (trace s).
Definition set_nodeHealth (x : list NodeHealth) (s : Server) : Server :=
  mkServer (steemClient s) (currentNodeIndex s) x (cache s) (requestQueue s)
    (isProcessingQueue s) (errorStats s) (subscribers s) (lastProcessedBlock s)
    (clients s) (sockets s) (clock s) (ncalls s) (trace s).
Definition set_cache (x : Cache) (s : Server) : Server :=
  mkServer (steemClient s) (currentNodeIndex s) (nodeHealth s) x (requestQueue s)
    (isProcessingQueue s) (errorStats s) (subscribers s) (lastProcessedBlock s)
    (clients s) (sockets s) (clock s) (ncalls s) (trace s).
Definition set_requestQueue (x : list (nat * value)) (s : Server) : Server :=
  mkServer (steemClient s) (currentNodeIndex s) (nodeHealth s) (cache s) x
    (isProcessingQueue s) (errorStats s) (subscribers s) (lastProcessedBlock s)
    (clients s) (sockets s) (clock s) (ncalls s) (trace s).
Definition set_isProcessingQueue (x : bool) (s : Server) : Server :=
  mkServer (steemClient s) (currentNodeIndex s) (nodeHealth s) (cache s)
    (requestQueue s) x (errorStats s) (subscribers s) (lastProcessedBlock s)
    (clients s) (sockets s) (clock s) (ncalls s) (trace s).
Definition set_errorStats (x : ErrorStats) (s : Server) : Server :=
  mkServer (steemClient s) (currentNodeIndex s) (nodeHealth s) (cache s)
    (requestQueue s) (isProcessingQueue s) x (subscribers s)
    (lastProcessedBlock s) (clients s) (sockets s) (clock s) (ncalls s)
    (trace s).
Definition set_subscribers (x : Subscribers) (s : Server) : Server :=
  mkServer (steemClient s) (currentNodeIndex s) (nodeHealth s) (cache s)
    (requestQueue s) (isProcessingQueue s) (errorStats s) x
    (lastProcessedBlock s) (clients s) (sockets s) (clock s) (ncalls s)
    (trace s).
Definition set_lastProcessedBlock (x : value) (s : Server) : Server :=
  mkServer (steemClient s) (currentNodeIndex s) (nodeHealth s) (cache s)
    (requestQueue s) (isProcessingQueue s) (errorStats s) (subscribers s) x
    (clients s) (sockets s) (clock s) (ncalls s) (trace s).
Definition set_clients (x : WsSet) (s : Server) : Server :=
  mkServer (steemClient s) (currentNodeIndex s) (nodeHealth s) (cache s)
    (requestQueue s) (isProcessingQueue s) (errorStats s) (subscribers s)
    (lastProcessedBlock s) x (sockets s) (clock s) (ncalls s) (trace s).
Definition set_sockets (x : nat → Socket) (s : Server) : Server :=
  mkServer (steemClient s) (currentNodeIndex s) (nodeHealth s) (cache s)
    (requestQueue s) (isProcessingQueue s) (errorStats s) (subscribers s)
    (lastProcessedBlock s) (clients s) x (clock s) (ncalls s) (trace s).
Definition set_clock (x : Z) (s : Server) : Server :=
  mkServer (steemClient s) (currentNodeIndex s) (nodeHealth s) (cache s)
    (requestQueue s) (isProcessingQueue s) (errorStats s) (subscribers s)
    (lastProcessedBlock s) (clients s) (sockets s) x (ncalls s) (trace s).
Definition set_ncalls (x : nat) (s : Server) : Server :=
  mkServer (steemClient s) (currentNodeIndex s) (nodeHealth s) (cache s)
    (requestQueue s) (isProcessingQueue s) (errorStats s) (subscribers s)
    (lastProcessedBlock s) (clients s) (sockets s) (clock s) x (trace s).
Definition set_trace (x : list Event) (s : Server) : Server :=
  mkServer (steemClient s) (currentNodeIndex s) (nodeHealth s) (cache s)
    (requestQueue s) (isProcessingQueue s) (errorStats s) (subscribers s)
    (lastProcessedBlock s) (clients s) (sockets s) (clock s) (ncalls s) x.

Definition set_globalProperties (x : value) (c : Cache) : Cache :=
  mkCache x (activeWitnesses c) (blockHeaders c) (blocks c) (operations c)
    (lastGlobalUpdate c) (lastWitnessUpdate c).
Definition set_activeWitnesses (x : value) (c : Cache) : Cache :=
  mkCache (globalProperties c) x (blockHeaders c) (blocks c) (operations c)
    (lastGlobalUpdate c) (lastWitnessUpdate c).
Definition set_blockHeaders (x : JsMap) (c : Cache) : Cache :=
  mkCache (globalProperties c) (activeWitnesses c) x (blocks c) (operations c)
    (lastGlobalUpdate c) (lastWitnessUpdate c).
Definition set_blocks (x : JsMap) (c : Cache) : Cache :=
  mkCache (globalProperties c) (activeWitnesses c) (blockHeaders c) x
    (operations c) (lastGlobalUpdate c) (lastWitnessUpdate c).
Definition set_operations (x : JsMap) (c : Cache) : Cache :=
  mkCache (globalProperties c) (activeWitnesses c) (blockHeaders c) (blocks c)
    x (lastGlobalUpdate c) (lastWitnessUpdate c).
Definition set_lastGlobalUpdate (x : Z) (c : Cache) : Cache :=
  mkCache (globalProperties c) (activeWitnesses c) (blockHeaders c) (blocks c)
    (operations c) x (lastWitnessUpdate c).
Definition set_lastWitnessUpdate (x : Z) (c : Cache) : Cache :=
  mkCache (globalProperties c) (activeWitnesses c) (blockHeaders c) (blocks c)
    (operations c) (lastGlobalUpdate c) x.

Definition set_sent (x : list frame) (w : Socket) : Socket :=
  mkSocket (messageCount w) (lastReset w) (maxMessagesPerMinute w)
    (readyState w) x.
Definition set_readyState (x : ReadyState) (w : Socket) : Socket :=
  mkSocket (messageCount w) (lastReset w) (maxMessagesPerMinute w) x (sent w).
Definition set_messageCount (x : Z) (w : Socket) : Socket :=
  mkSocket x (lastReset w) (maxMessagesPerMinute w) (readyState w) (sent w).
Definition set_lastReset (x : Z) (w : Socket) : Socket :=
  mkSocket (messageCount w) x (maxMessagesPerMinute w) (readyState w) (sent w).

(** ** The monad of server methods *)

Definition M (A : Type) : Type := Server → Outcome A * Server.

#[global] Instance M_ret : MRet M := λ A a s, (Ok a, s).

#[global] Instance M_bind : MBind M := λ A B k m s,
  match m s with
  | (Ok a, s') => k a s'
  | (Throw e, s') => (Throw e, s')
  end.

Definition throw {A : Type} (e : JsError) : M A := λ s, (Throw e, s).

(** [try { m } catch (e) { h e }] *)
Definition try_catch {A : Type} (m : M A) (h : JsError → M A) : M A := λ s,
  match m s with
  | (Ok a, s') => (Ok a, s')
  | (Throw e, s') => h e s'
  end.

Definition gets {A : Type} (f : Server → A) : M A := λ s, (Ok (f s), s).
Definition modify (f : Server → Server) : M unit := λ s, (Ok tt, f s).
Definition lift {A : Type} (o : Outcome A) : M A := λ s, (o, s).

(** A synchronous block that cannot throw. *)
Definition exec (m : M unit) (s : Server) : Server := (m s).2.

Definition when (b : bool) (m : M unit) : M unit := if b then m else mret tt.

(** ** Effects *)

(** [Date.now()] *)
Definition now : M Z := gets clock.

Definition log (e : Event) : M unit :=
  modify (λ s, set_trace (trace s ++ [e]) s).

(** [await new Promise((resolve) => setTimeout(resolve, ms))] *)
Definition sleep (ms : Z) : M unit :=
  log (EvSleep ms);;
  modify (λ s, set_clock (clock s + ms) s).

(** [ws.send(JSON.stringify({...}))] *)
Definition send (ws : nat) (fs : list (string * value)) : M unit :=
  modify (λ s,
    let w := sockets s ws in
    if is_open (readyState w)
    then set_sockets (<[ws := set_sent (sent w ++ [JSON_stringify fs]) w]> (sockets s)) s
    else s).

(** Run [m] and reify how it ended. *)
Definition observe {A : Type} (m : M A) : M (Outcome A) := λ s,
  let '(o, s') := m s in (Ok o, s').

Definition update_errorStats (f : ErrorStats → ErrorStats) : M unit :=
  modify (λ s, set_errorStats (f (errorStats s)) s).

Definition incr_totalErrors (e : ErrorStats) : ErrorStats :=
  mkStats (totalErrors e + 1) (nodeErrors e) (cacheHits e) (cacheMisses e)
    (autoRecoveries e).
Definition incr_nodeErrors (e : ErrorStats) : ErrorStats :=
  mkStats (totalErrors e) (nodeErrors e + 1) (cacheHits e) (cacheMisses e)
    (autoRecoveries e).
Definition incr_cacheHits (e : ErrorStats) : ErrorStats :=
  mkStats (totalErrors e) (nodeErrors e) (cacheHits e + 1) (cacheMisses e)
    (autoRecoveries e).
Definition incr_cacheMisses (e : ErrorStats) : ErrorStats :=
  mkStats (totalErrors e) (nodeErrors e) (cacheHits e) (cacheMisses e + 1)
    (autoRecoveries e).
Definition incr_autoRecoveries (e : ErrorStats) : ErrorStats :=
  mkStats (totalErrors e) (nodeErrors e) (cacheHits e) (cacheMisses e)
    (autoRecoveries e + 1).

(** ** Cache layer *)

Definition update_cache (f : Cache → Cache) : M unit :=
  modify (λ s, set_cache (f (cache s)) s).

(** [clearCache()] *)
Definition clearCache : M unit :=
  update_cache (set_globalProperties VNull);;
  update_cache (set_activeWitnesses VNull);;
  update_cache (set_blockHeaders []);;
  update_cache (set_blocks []);;
  update_cache (set_operations []);;
  update_cache (set_lastGlobalUpdate 0);;
  update_cache (set_lastWitnessUpdate 0).

(** The [map] argument of [setCacheItem] and [getCacheItem] is one of the
    three maps of [this.cache], passed by reference. *)
Inductive Layer : Type := LBlockHeaders | LBlocks | LOperations.

Definition layer (l : Layer) (c : Cache) : JsMap :=
  match l with
  | LBlockHeaders => blockHeaders c
  | LBlocks => blocks c
  | LOperations => operations c
  end.

Definition set_layer (l : Layer) (m : JsMap) (c : Cache) : Cache :=
  match l with
  | LBlockHeaders => set_blockHeaders m c
  | LBlocks => set_blocks m c
  | LOperations => set_operations m c
  end.

Definition update_layer (l : Layer) (f : JsMap → JsMap) : M unit :=
  update_cache (λ c, set_layer l (f (layer l c)) c).

(** [setCacheItem(map, key, value)] *)
Definition setCacheItem (l : Layer) (key : string) (v : value) : M unit :=
  m ← gets (λ s, layer l (cache s));
  when (maxCacheSize <=? map_size m)
    (let oldestKey := map_first_key m in
     update_layer l (λ m, match oldestKey with
                          | Some k => map_delete k m
                          | None => m
                          end));;
  t ← now;
  update_layer l (map_set key (mkItem v t)).

(** [getCacheItem(map, key, ttl)]; [null] on a miss. *)
Definition getCacheItem (l : Layer) (key : string) (ttl : Z) : M value :=
  m ← gets (λ s, layer l (cache s));
  match map_get key m with
  | None =>
      update_errorStats incr_cacheMisses;;
      mret VNull
  | Some item =>
      t ← now;
      if ttl <? t - item_timestamp item then
        update_layer l (map_delete key);;
        update_errorStats incr_cacheMisses;;
        mret VNull
      else
        update_errorStats incr_cacheHits;;
        mret (item_value item)
  end.

(** ** Upstream pool *)

Definition update_health (i : nat) (f : NodeHealth → NodeHealth) : M unit :=
  modify (λ s, set_nodeHealth (alter f i (nodeHealth s)) s).

(** [currentHealth.healthy = false; currentHealth.lastError = Date.now();
    currentHealth.errorCount++] *)
Definition mark_unhealthy (t : Z) (h : NodeHealth) : NodeHealth :=
  mkHealth (url h) false (Some t) (errorCount h + 1) (lastSuccess h)
    (avgResponseTime h) (totalRequests h).

(** [null] counts as 0 in [Date.now() - node.lastError]. *)
Definition lastError_num (h : NodeHealth) : Z :=
  match lastError h with
  | Some t => t
  | None => 0
  end.

(** The filter of [switchToHealthyNode]: healthy, or last failure more
    than a minute ago. *)
Definition eligible (t : Z) (n : nat * NodeHealth) : bool :=
  healthy n.2 || (60000 <? t - lastError_num n.2).

(** The comparator of [switchToHealthyNode]. *)
Definition compareNodes (a b : nat * NodeHealth) : Z :=
  if negb (Bool.eqb (healthy a.2) (healthy b.2))
  then Z.b2z (healthy b.2) - Z.b2z (healthy a.2)
  else if negb (errorCount a.2 =? errorCount b.2)
  then errorCount a.2 - errorCount b.2
  else avgResponseTime a.2 - avgResponseTime b.2.

(** [Array.prototype.sort] is stable: an element goes before the first
    one it does not exceed. *)
Fixpoint sort_insert {A : Type} (cmp : A → A → Z) (x : A) (l : list A) : list A :=
  match l with
  | [] => [x]
  | y :: rest =>
      if cmp x y <=? 0 then x :: y :: rest else y :: sort_insert cmp x rest
  end.

Definition js_sort {A : Type} (cmp : A → A → Z) (l : list A) : list A :=
  foldr (sort_insert cmp) [] l.

(** [.map((health, index) => ({ ...health, index }))] *)
Definition with_index (hs : list NodeHealth) : list (nat * NodeHealth) :=
  imap (λ i h, (i, h)) hs.

Definition healthyNodes (t : Z) (hs : list NodeHealth) : list (nat * NodeHealth) :=
  js_sort compareNodes (List.filter (eligible t) (with_index hs)).

(** [switchToHealthyNode()] *)
Definition switchToHealthyNode : M unit :=
  log EvFailover;;
  idx ← gets currentNodeIndex;
  t ← now;
  update_health idx (mark_unhealthy t);;
  t' ← now;
  hs ← gets nodeHealth;
  match healthyNodes t' hs with
  | [] => mret tt
  | bestNode :: _ =>
      modify (set_currentNodeIndex bestNode.1);;
      idx' ← gets currentNodeIndex;
      modify (set_steemClient idx');;
      clearCache;;
      update_errorStats incr_autoRecoveries
  end.

(** [switchNode()] *)
Definition switchNode : M unit :=
  modify (λ s, set_currentNodeIndex
                 ((currentNodeIndex s + 1) mod length steemNodes)%nat s);;
  idx ← gets currentNodeIndex;
  modify (set_steemClient idx);;
  update_cache (set_globalProperties VNull);;
  update_cache (set_activeWitnesses VNull);;
  update_cache (set_lastGlobalUpdate 0);;
  update_cache (set_lastWitnessUpdate 0).

(** The upstream endpoints, seen through the [dsteem] client: the reply to
    the [k]-th call made by the server, sent to endpoint [node], is a
    latency in milliseconds and a result or an error. *)
Definition Oracle : Type := nat → nat → ClientCall → Z * Outcome value.

Section Bridge.

Variable upstream : Oracle.

Definition call_upstream (c : ClientCall) : M value := λ s,
  let '(latency, o) := upstream (ncalls s) (steemClient s) c in
  (o, set_ncalls (S (ncalls s)) (set_clock (clock s + latency) s)).

(** ** Retrying caller *)

(** The [switch (method)] of [callSteemAPI]. *)
Definition route (method : string) (params : value) : M value :=
  if String.eqb method "getDynamicGlobalProperties" then
    call_upstream database_getDynamicGlobalProperties
  else if String.eqb method "getBlockHeader" then
    p ← lift (getIndex params 0); call_upstream (database_getBlockHeader p)
  else if String.eqb method "getBlock" then
    p ← lift (getIndex params 0); call_upstream (database_getBlock p)
  else if String.eqb method "getOpsInBlock" then
    call_upstream (client_call "condenser_api" "get_ops_in_block" params)
  else if String.eqb method "getActiveWitnesses" then
    call_upstream (database_call "get_active_witnesses" (VArr []))
  else if String.eqb method "getTransaction" then
    p ← lift (getIndex params 0); call_upstream (database_getTransaction p)
  else if String.eqb method "getTicker" then
    call_upstream (client_call "market_history_api" "get_ticker" params)
  else if String.eqb method "getOrderBook" then
    call_upstream (client_call "market_history_api" "get_order_book" params)
  else if String.eqb method "getRecentTrades" then
    call_upstream (client_call "market_history_api" "get_recent_trades" params)
  else if String.eqb method "getAccounts" then
    call_upstream (client_call "condenser_api" "get_accounts" params)
  else if String.eqb method "getMarketHistory" then
    call_upstream (client_call "market_history_api" "get_market_history" params)
  else if String.eqb method "getAccountHistory" then
    call_upstream (client_call "condenser_api" "get_account_history" params)
  else if String.eqb method "getWitnessesByVote" then
    call_upstream (client_call "condenser_api" "get_witnesses_by_vote" params)
  else if String.eqb method "getVestingDelegations" then
    call_upstream (client_call "condenser_api" "get_vesting_delegations" params)
  else
    throw (Error ("Unknown method: " +:+ method)).

(** [Math.round(x / n)] for a positive [n]. *)
Definition round_div (x n : Z) : Z := (2 * x + n) / (2 * n).

(** Health update of [callSteemAPI] after a successful call. *)
Definition record_success (t responseTime : Z) (h : NodeHealth) : NodeHealth :=
  let total := totalRequests h + 1 in
  mkHealth (url h) true (lastError h) (errorCount h) t
    (round_div (avgResponseTime h * (total - 1) + responseTime) total)
    total.

(** Health update of [callSteemAPI] after a failed call. *)
Definition record_failure (t : Z) (h : NodeHealth) : NodeHealth :=
  mkHealth (url h) (healthy h) (Some t) (errorCount h + 1) (lastSuccess h)
    (avgResponseTime h) (totalRequests h).

(** The [for] loop of [callSteemAPI], with [remaining] iterations left
    from [attempt] on ([remaining = maxRetries - attempt + 1]). *)
Fixpoint callSteemAPI_from (remaining : nat) (attempt : Z)
    (method : string) (params : value) (maxRetries : Z) : M value :=
  match remaining with
  | O => mret VUndef
  | S remaining' =>
      startTime ← now;
      idx ← gets currentNodeIndex;
      node ← gets steemClient;
      o ← observe (route method params);
      log (EvAttempt attempt node o);;
      match o with
      | Ok result =>
          t ← now;
          update_health idx (record_success t (t - startTime));;
          mret result
      | Throw error =>
          t ← now;
          update_health idx (record_failure t);;
          if attempt <? maxRetries then
            switchToHealthyNode;;
            sleep (1000 * attempt);;
            callSteemAPI_from remaining' (attempt + 1) method params maxRetries
          else
            update_errorStats incr_totalErrors;;
            update_errorStats incr_nodeErrors;;
            throw error
      end
  end.

(** [callSteemAPI(method, params, maxRetries = 3)]; no caller passes
    [maxRetries]. *)
Definition callSteemAPI (method : string) (params : value)
    (maxRetries : Z := 3) : M value :=
  callSteemAPI_from (Z.to_nat maxRetries) 1 method params maxRetries.

(** ** Subscription registry *)

Inductive Feed : Type :=
  | FGlobalProperties | FBlocks | FBlockHeaders | FOperations | FWitnesses.

Definition feed (f : Feed) (b : Subscribers) : WsSet :=
  match f with
  | FGlobalProperties => sub_globalProperties b
  | FBlocks => sub_blocks b
  | FBlockHeaders => sub_blockHeaders b
  | FOperations => sub_operations b
  | FWitnesses => sub_witnesses b
  end.

Definition set_feed (f : Feed) (x : WsSet) (b : Subscribers) : Subscribers :=
  match f with
  | FGlobalProperties =>
      mkSubs x (sub_blocks b) (sub_blockHeaders b) (sub_operations b) (sub_witnesses b)
  | FBlocks =>
      mkSubs (sub_globalProperties b) x (sub_blockHeaders b) (sub_operations b)
        (sub_witnesses b)
  | FBlockHeaders =>
      mkSubs (sub_globalProperties b) (sub_blocks b) x (sub_operations b)
        (sub_witnesses b)
  | FOperations =>
      mkSubs (sub_globalProperties b) (sub_blocks b) (sub_blockHeaders b) x
        (sub_witnesses b)
  | FWitnesses =>
      mkSubs (sub_globalProperties b) (sub_blocks b) (sub_blockHeaders b)
        (sub_operations b) x
  end.

Definition update_feed (f : Feed) (g : WsSet → WsSet) : M unit :=
  modify (λ s, set_subscribers (set_feed f (g (feed f (subscribers s))) (subscribers s)) s).

(** [set.forEach(body)] *)
Fixpoint forEach (l : list nat) (body : nat → M unit) : M unit :=
  match l with
  | [] => mret tt
  | x :: rest => body x;; forEach rest body
  end.

(** The [subscriberSet.forEach] of [broadcastToSubscribers]: write to
    the open sockets, collect the others in [deadConnections]. *)
Fixpoint broadcast_pass (members : list nat) (message : list (string * value))
    : M (list nat) :=
  match members with
  | [] => mret []
  | client :: rest =>
      w ← gets (λ s, sockets s client);
      if is_open (readyState w) then
        send client message;;
        broadcast_pass rest message
      else
        deadConnections ← broadcast_pass rest message;
        mret (client :: deadConnections)
  end.

(** [broadcastToSubscribers(subscriberSet, message, subscriptionType)];
    the set is one of the five of [this.subscribers], by reference. *)
Definition broadcastToSubscribers (f : Feed) (message : list (string * value)) : M unit :=
  members ← gets (λ s, feed f (subscribers s));
  deadConnections ← broadcast_pass members message;
  forEach deadConnections (λ client, update_feed f (set_delete client)).

(** [new Date().toISOString()] *)
Definition timestamp : M value :=
  t ← now; mret (VStr (toISOString t)).

Definition subscription_update (subscription : string) (data ts : value)
    : list (string * value) :=
  [ ("type", VStr "subscription_update");
    ("subscription", VStr subscription);
    ("data", data);
    ("timestamp", ts) ].

(** ** Cached read handlers *)

(** [v.k] where the source reads a property of a reply: throws on [null]
    and [undefined]. *)
Definition readProp (v : value) (k : string) : Outcome value :=
  match v with
  | VUndef =>
      Throw (TypeError ("Cannot read properties of undefined (reading '" +:+ k +:+ "')"))
  | VNull =>
      Throw (TypeError ("Cannot read properties of null (reading '" +:+ k +:+ "')"))
  | _ => Ok (getProp v k)
  end.

(** [getDynamicGlobalProperties()] *)
Definition getDynamicGlobalProperties : M value :=
  t ← now;
  c ← gets cache;
  if truthy (globalProperties c) && (t - lastGlobalUpdate c <? globalTTL) then
    update_errorStats incr_cacheHits;;
    mret (globalProperties c)
  else
    try_catch
      (result ← callSteemAPI "getDynamicGlobalProperties" (VArr []);
       update_cache (set_globalProperties result);;
       update_cache (set_lastGlobalUpdate t);;
       update_errorStats incr_cacheMisses;;
       (* the log line prints [result.head_block_number] *)
       head ← lift (readProp result "head_block_number");
       _ ← lift (toStr head);
       mret result)
      (λ error,
         c ← gets cache;
         if truthy (globalProperties c) then
           update_errorStats incr_cacheHits;;
           mret (globalProperties c)
         else throw error).

(** [v?.length] *)
Definition optLength (v : value) : Outcome value :=
  match v with
  | VUndef | VNull => Ok VUndef
  | _ => getLength v
  end.

(** [getBlockHeader(blockNumber)] *)
Definition getBlockHeader (blockNumber : value) : M value :=
  try_catch
    (n ← lift (toStr blockNumber);
     let cacheKey := "header_" +:+ n in
     cached ← getCacheItem LBlockHeaders cacheKey blockTTL;
     if truthy cached then mret cached
     else
       result ← callSteemAPI "getBlockHeader" (VArr [blockNumber]);
       setCacheItem LBlockHeaders cacheKey result;;
       (* the log line prints [blockNumber] *)
       _ ← lift (toStr blockNumber);
       mret result)
    (λ error,
       (* the log line prints [blockNumber] *)
       _ ← lift (toStr blockNumber);
       throw error).

(** [getBlock(blockNumber)] *)
Definition getBlock (blockNumber : value) : M value :=
  try_catch
    (n ← lift (toStr blockNumber);
     let cacheKey := "block_" +:+ n in
     cached ← getCacheItem LBlocks cacheKey blockTTL;
     if truthy cached then mret cached
     else
       result ← callSteemAPI "getBlock" (VArr [blockNumber]);
       setCacheItem LBlocks cacheKey result;;
       (* the log line prints [blockNumber] and
          [result.transactions?.length || 0] *)
       _ ← lift (toStr blockNumber);
       transactions ← lift (readProp result "transactions");
       len ← lift (optLength transactions);
       _ ← lift (toStr (js_or len (VNum 0)));
       mret result)
    (λ error,
       _ ← lift (toStr blockNumber);
       throw error).

(** [getOpsInBlock(blockNumber, onlyVirtual)] *)
Definition getOpsInBlock (blockNumber onlyVirtual : value) : M value :=
  try_catch
    (n ← lift (toStr blockNumber);
     v ← lift (toStr onlyVirtual);
     let cacheKey := "ops_" +:+ n +:+ "_" +:+ v in
     cached ← getCacheItem LOperations cacheKey blockTTL;
     if truthy cached then mret cached
     else
       result ← callSteemAPI "getOpsInBlock" (VArr [blockNumber; onlyVirtual]);
       setCacheItem LOperations cacheKey result;;
       (* the log line prints [blockNumber], [result.length] and
          [onlyVirtual] *)
       _ ← lift (toStr blockNumber);
       len ← lift (getLength result);
       _ ← lift (toStr len);
       _ ← lift (toStr onlyVirtual);
       mret result)
    (λ error,
       _ ← lift (toStr blockNumber);
       throw error).

(** [getActiveWitnesses()] *)
Definition getActiveWitnesses : M value :=
  t ← now;
  c ← gets cache;
  if truthy (activeWitnesses c) && (t - lastWitnessUpdate c <? witnessTTL) then
    update_errorStats incr_cacheHits;;
    mret (activeWitnesses c)
  else
    try_catch
      (result ← callSteemAPI "getActiveWitnesses" (VArr []);
       previousWitnesses ← gets (λ s, activeWitnesses (cache s));
       update_cache (set_activeWitnesses result);;
       update_cache (set_lastWitnessUpdate t);;
       update_errorStats incr_cacheMisses;;
       members ← gets (λ s, sub_witnesses (subscribers s));
       when ((0 <? set_size members)
             && negb (value_eqb (wire previousWitnesses) (wire result)))
         (ts ← timestamp;
          broadcastToSubscribers FWitnesses (subscription_update "witnesses" result ts));;
       (* the log line prints [result.length] *)
       len ← lift (getLength result);
       _ ← lift (toStr len);
       mret result)
      (λ error,
         c ← gets cache;
         if truthy (activeWitnesses c) then
           update_errorStats incr_cacheHits;;
           mret (activeWitnesses c)
         else throw error).

(** [getTransaction(transactionId)] *)
Definition getTransaction (transactionId : value) : M value :=
  try_catch
    (result ← callSteemAPI "getTransaction" (VArr [transactionId]);
     (* the log line prints [transactionId] *)
     _ ← lift (toStr transactionId);
     mret result)
    (λ error,
       _ ← lift (toStr transactionId);
       throw error).

Definition getTicker (params : value) : M value := callSteemAPI "getTicker" params.
Definition getOrderBook (params : value) : M value := callSteemAPI "getOrderBook" params.
Definition getRecentTrades (params : value) : M value := callSteemAPI "getRecentTrades" params.
Definition getAccounts (params : value) : M value := callSteemAPI "getAccounts" params.
Definition getMarketHistory (params : value) : M value := callSteemAPI "getMarketHistory" params.
Definition getAccountHistory (params : value) : M value := callSteemAPI "getAccountHistory" params.
Definition getWitnessesByVote (params : value) : M value :=
  callSteemAPI "getWitnessesByVote" params.
Definition getVestingDelegations (params : value) : M value :=
  callSteemAPI "getVestingDelegations" params.

(** ** Request dispatcher *)

(** [Array.isArray(v)] *)
Definition isArray (v : value) : bool :=
  match v with VArr _ => true | _ => false end.

Definition response (id result : value) : list (string * value) :=
  [ ("id", id); ("result", result); ("type", VStr "response") ].

Definition subscription_ack (id : value) (flag type : string) : list (string * value) :=
  [ ("id", id);
    ("result", VObj [ (flag, VBool true); ("type", VStr type) ]);
    ("type", VStr "response") ].

(** The cases of [switch (method)] that only acknowledge: they add the
    socket to a feed, or remove it, and [return]. *)
Definition subscribe (ws : nat) (id : value) (f : Feed) (type : string) : M unit :=
  update_feed f (set_add ws);;
  send ws (subscription_ack id "subscribed" type).

Definition unsubscribe (ws : nat) (id : value) (f : Feed) (type : string) : M unit :=
  update_feed f (set_delete ws);;
  send ws (subscription_ack id "unsubscribed" type).

Definition is_method (m : string) (bare : string) (api : string) : bool :=
  String.eqb m (api +:+ "." +:+ bare) || String.eqb m bare.

(** The [switch (method)] of [handleMessage].  [Some result] when the case
    ends in [break], [None] when it ends in [return]. *)
Definition dispatch (ws : nat) (id method params : value) : M (option value) :=
  let unsupported : M (option value) :=
    name ← lift (toStr method);
    throw (Error ("Unsupported method: " +:+ name)) in
  match method with
  | VStr m =>
      if is_method m "get_dynamic_global_properties" "condenser_api" then
        result ← getDynamicGlobalProperties; mret (Some result)
      else if is_method m "get_block_header" "condenser_api" then
        p0 ← lift (getIndex params 0);
        if negb (truthy p0) then throw (Error "Block number is required")
        else result ← getBlockHeader p0; mret (Some result)
      else if is_method m "get_block" "condenser_api" then
        p0 ← lift (getIndex params 0);
        if negb (truthy p0) then throw (Error "Block number is required")
        else result ← getBlock p0; mret (Some result)
      else if is_method m "get_ops_in_block" "condenser_api" then
        p0 ← lift (getIndex params 0);
        if negb (truthy p0) then throw (Error "Block number is required")
        else
          p0 ← lift (getIndex params 0);
          p1 ← lift (getIndex params 1);
          result ← getOpsInBlock p0 (js_or p1 (VBool false)); mret (Some result)
      else if is_method m "get_active_witnesses" "condenser_api" then
        result ← getActiveWitnesses; mret (Some result)
      else if is_method m "get_transaction" "condenser_api" then
        p0 ← lift (getIndex params 0);
        if negb (truthy p0) then throw (Error "Transaction ID is required")
        else result ← getTransaction p0; mret (Some result)
      else if is_method m "get_ticker" "market_history_api" then
        result ← getTicker params; mret (Some result)
      else if is_method m "get_order_book" "market_history_api" then
        result ← getOrderBook params; mret (Some result)
      else if is_method m "get_recent_trades" "market_history_api" then
        result ← getRecentTrades params; mret (Some result)
      else if is_method m "get_accounts" "condenser_api" then
        p0 ← lift (getIndex params 0);
        if negb (truthy p0) || negb (isArray p0)
        then throw (Error "Array of account names required")
        else result ← getAccounts params; mret (Some result)
      else if is_method m "get_market_history" "market_history_api" then
        len ← lift (getLength params);
        few ← lift (js_lt_3 len);
        if (few : bool)
        then throw (Error "Bucket seconds, start, and end time required")
        else result ← getMarketHistory params; mret (Some result)
      else if is_method m "get_account_history" "condenser_api" then
        p0 ← lift (getIndex params 0);
        if negb (truthy p0) then throw (Error "Account name required")
        else result ← getAccountHistory params; mret (Some result)
      else if is_method m "get_witnesses_by_vote" "condenser_api" then
        result ← getWitnessesByVote params; mret (Some result)
      else if is_method m "get_vesting_delegations" "condenser_api" then
        p0 ← lift (getIndex params 0);
        if negb (truthy p0) then throw (Error "Account name required")
        else result ← getVestingDelegations params; mret (Some result)
      else if String.eqb m "subscribe_global_properties" then
        subscribe ws id FGlobalProperties "global_properties";;
        c ← gets cache;
        when (truthy (globalProperties c))
          (ts ← timestamp;
           send ws (subscription_update "global_properties" (globalProperties c) ts));;
        mret None
      else if String.eqb m "unsubscribe_global_properties" then
        unsubscribe ws id FGlobalProperties "global_properties";; mret None
      else if String.eqb m "subscribe_blocks" then
        subscribe ws id FBlocks "blocks";; mret None
      else if String.eqb m "unsubscribe_blocks" then
        unsubscribe ws id FBlocks "blocks";; mret None
      else if String.eqb m "subscribe_block_headers" then
        subscribe ws id FBlockHeaders "block_headers";; mret None
      else if String.eqb m "unsubscribe_block_headers" then
        unsubscribe ws id FBlockHeaders "block_headers";; mret None
      else if String.eqb m "subscribe_operations" then
        subscribe ws id FOperations "operations";; mret None
      else if String.eqb m "unsubscribe_operations" then
        unsubscribe ws id FOperations "operations";; mret None
      else if String.eqb m "subscribe_witnesses" then
        subscribe ws id FWitnesses "witnesses";;
        c ← gets cache;
        when (truthy (activeWitnesses c))
          (ts ← timestamp;
           send ws (subscription_update "witnesses" (activeWitnesses c) ts));;
        mret None
      else if String.eqb m "unsubscribe_witnesses" then
        unsubscribe ws id FWitnesses "witnesses";; mret None
      else unsupported
  | _ => unsupported
  end.

(** [error?.message || error?.toString() || "Unknown error occurred"] *)
Definition errorMessage_of (error : JsError) : string :=
  if negb (String.eqb (emessage error) "") then emessage error
  else if negb (String.eqb (error_toString error) "") then error_toString error
  else "Unknown error occurred".

Definition error_frame (id : value) (errorMessage : string) (method : value)
    : list (string * value) :=
  [ ("id", id); ("error", VStr errorMessage); ("type", VStr "error");
    ("method", method) ].

(** The [catch] block of [handleMessage]. *)
Definition handleMessage_catch (ws : nat) (id method : value) (error : JsError) : M unit :=
  let errorMessage := errorMessage_of error in
  let errorId := js_or id (VStr "unknown") in
  let errorMethod := js_or method (VStr "unknown_method") in
  (* the log line prints [errorMethod] and [errorId] *)
  _ ← lift (toStr errorMethod);
  _ ← lift (toStr errorId);
  when (includes "network" errorMessage || includes "timeout" errorMessage)
    switchNode;;
  send ws (error_frame errorId errorMessage errorMethod).

(** [handleMessage(ws, data)] *)
Definition handleMessage (ws : nat) (data : value) : M unit :=
  match data with
  | VUndef =>
      throw (TypeError "Cannot destructure property 'id' of 'data' as it is undefined.")
  | VNull =>
      throw (TypeError "Cannot destructure property 'id' of 'data' as it is null.")
  | _ =>
      let id := getProp data "id" in
      let method := getProp data "method" in
      let params :=
        match getProp data "params" with
        | VUndef => VArr []
        | p => p
        end in
      if negb (truthy method) then
        send ws [ ("id", id); ("error", VStr "Method is required");
                  ("type", VStr "error") ]
      else
        (* the log line prints [method] *)
        _ ← lift (toStr method);
        try_catch
          (r ← dispatch ws id method params;
           match r with
           | Some result =>
               send ws (response id result);;
               (* the log line prints [method] *)
               _ ← lift (toStr method);
               mret tt
           | None => mret tt
           end)
          (handleMessage_catch ws id method)
  end.

(** ** Work queue *)

(** One pass of the [while] body of [processQueue], up to its 10 ms
    timer. *)
Definition processQueue_pass : M unit :=
  q ← gets requestQueue;
  match q with
  | [] => mret tt
  | (ws, data) :: rest =>
      modify (set_requestQueue rest);;
      w ← gets (λ s, sockets s ws);
      when (is_open (readyState w))
        (try_catch (handleMessage ws data) (λ error, mret tt))
  end.

(** [processQueue()], up to the first 10 ms timer. *)
Definition processQueue : M unit :=
  busy ← gets isProcessingQueue;
  q ← gets requestQueue;
  if busy || (length q =? 0)%nat then mret tt
  else
    modify (set_isProcessingQueue true);;
    processQueue_pass.

(** The 10 ms timer of a running [processQueue] fires: the loop test,
    then the next pass or the exit. *)
Definition processQueue_resume : M unit :=
  busy ← gets isProcessingQueue;
  if (busy : bool) then
    q ← gets requestQueue;
    if (0 <? length q)%nat then processQueue_pass
    else modify (set_isProcessingQueue false)
  else mret tt.

(** ** Connection front-end *)

Definition update_socket (ws : nat) (f : Socket → Socket) : M unit :=
  modify (λ s, set_sockets (<[ws := f (sockets s ws)]> (sockets s)) s).

Definition welcome : list (string * value) :=
  [ ("type", VStr "connection");
    ("status", VStr "connected");
    ("message", VStr "Connected to Steem WebSocket API");
    ("availableApis",
      VArr (VStr <$>
        [ "get_dynamic_global_properties"; "get_block_header"; "get_block";
          "get_ops_in_block"; "get_active_witnesses"; "get_transaction";
          "get_ticker"; "get_order_book"; "get_recent_trades"; "get_accounts";
          "get_market_history"; "get_account_history"; "get_witnesses_by_vote";
          "get_vesting_delegations" ]));
    ("subscriptionApis",
      VArr (VStr <$>
        [ "subscribe_global_properties"; "unsubscribe_global_properties";
          "subscribe_blocks"; "unsubscribe_blocks";
          "subscribe_block_headers"; "unsubscribe_block_headers";
          "subscribe_operations"; "unsubscribe_operations";
          "subscribe_witnesses"; "unsubscribe_witnesses" ]));
    ("rateLimits",
      VObj [ ("requestsPerMinute", VNum 2000);
             ("subscriptionsUnlimited", VBool true) ]) ].

(** The ["connection"] handler.  The library has already put the new,
    open socket into [wss.clients]. *)
Definition onConnection (ws : nat) : M unit :=
  modify (λ s, set_clients (set_add ws (clients s)) s);;
  update_socket ws (λ _, mkSocket 0 0 0 OPEN []);;
  n ← gets (λ s, set_size (clients s));
  if 100 <? n then
    (* [ws.close(1008, "Server at capacity")] *)
    update_socket ws (set_readyState CLOSING)
  else
    t ← now;
    update_socket ws (λ w, mkSocket 0 t 2000 (readyState w) (sent w));;
    send ws welcome.

Definition rate_limit_frame (lastReset : Z) : list (string * value) :=
  [ ("type", VStr "error");
    ("error", VStr "Rate limit exceeded. Max 2000 messages per minute.");
    ("rateLimitReset", VStr (toISOString (lastReset + 60000))) ].

Definition queue_full_frame : list (string * value) :=
  [ ("type", VStr "error");
    ("error", VStr "Server queue full. Please retry in a moment.") ].

Definition invalid_json_frame (error : JsError) : list (string * value) :=
  [ ("type", VStr "error");
    ("error", VStr "Invalid JSON format");
    ("message", VStr (emessage error)) ].

(** The [try] block of the ["message"] handler: parse the text, then queue
    the request or refuse it.  [message] is what [JSON.parse] makes of the
    text received: the parsed value, or the [SyntaxError] it throws. *)
Definition enqueue (ws : nat) (message : Outcome value) : M unit :=
  try_catch
    (data ← lift message;
     q ← gets requestQueue;
     if Z.of_nat (length q) <? maxQueueSize then
       modify (λ s, set_requestQueue (requestQueue s ++ [(ws, data)]) s);;
       processQueue
     else
       send ws queue_full_frame)
    (λ error, send ws (invalid_json_frame error)).

(** The ["message"] handler. *)
Definition onMessage (ws : nat) (message : Outcome value) : M unit :=
  t ← now;
  w ← gets (λ s, sockets s ws);
  when (60000 <? t - lastReset w)
    (update_socket ws (λ w, set_lastReset t (set_messageCount 0 w)));;
  update_socket ws (λ w, set_messageCount (messageCount w + 1) w);;
  w ← gets (λ s, sockets s ws);
  if maxMessagesPerMinute w <? messageCount w then
    send ws (rate_limit_frame (lastReset w))
  else
    enqueue ws message.

(** The ["close"] handler.  The library has already closed the socket and
    taken it out of [wss.clients]. *)
Definition onClose (ws : nat) : M unit :=
  update_socket ws (set_readyState CLOSED);;
  modify (λ s, set_clients (set_delete ws (clients s)) s);;
  modify (λ s, set_requestQueue
                 (List.filter (λ req, negb (Nat.eqb req.1 ws)) (requestQueue s)) s);;
  update_feed FGlobalProperties (set_delete ws);;
  update_feed FBlocks (set_delete ws);;
  update_feed FBlockHeaders (set_delete ws);;
  update_feed FOperations (set_delete ws);;
  update_feed FWitnesses (set_delete ws).

(** ** Poll driver *)

(** [v?.k] *)
Definition optProp (v : value) (k : string) : value :=
  match v with
  | VUndef | VNull => VUndef
  | _ => getProp v k
  end.

(** [processNewBlockForSubscriptions(blockNumber)] *)
Definition processNewBlockForSubscriptions (blockNumber : value) : M unit :=
  try_catch
    (b ← gets subscribers;
     when ((0 <? set_size (sub_blocks b)) || (0 <? set_size (sub_blockHeaders b))
           || (0 <? set_size (sub_operations b)))
       (when (0 <? set_size (sub_blockHeaders b))
          (try_catch
             (blockHeader ← getBlockHeader blockNumber;
              ts ← timestamp;
              broadcastToSubscribers FBlockHeaders
                (subscription_update "block_headers"
                   (VObj [ ("blockNumber", blockNumber); ("header", blockHeader) ]) ts))
             (λ error, _ ← lift (toStr blockNumber); mret tt));;
        b ← gets subscribers;
        when ((0 <? set_size (sub_blocks b)) || (0 <? set_size (sub_operations b)))
          (try_catch
             (fullBlock ← getBlock blockNumber;
              b ← gets subscribers;
              when (0 <? set_size (sub_blocks b))
                (ts ← timestamp;
                 broadcastToSubscribers FBlocks
                   (subscription_update "blocks"
                      (VObj [ ("blockNumber", blockNumber); ("block", fullBlock) ]) ts));;
              b ← gets subscribers;
              when (0 <? set_size (sub_operations b))
                (try_catch
                   (operations ← getOpsInBlock blockNumber (VBool false);
                    ts ← timestamp;
                    broadcastToSubscribers FOperations
                      (subscription_update "operations"
                         (VObj [ ("blockNumber", blockNumber);
                                 ("operations", operations) ]) ts))
                   (λ error, _ ← lift (toStr blockNumber); mret tt)))
             (λ error, _ ← lift (toStr blockNumber); mret tt)));;
     modify (set_lastProcessedBlock blockNumber))
    (λ error, mret tt).

Definition legacy_broadcast (data ts : value) : list (string * value) :=
  [ ("type", VStr "broadcast");
    ("method", VStr "dynamic_global_properties_update");
    ("data", data);
    ("timestamp", ts) ].

(** The [this.wss.clients.forEach] of the legacy broadcast; the result
    is [broadcastCount]. *)
Fixpoint legacy_pass (all : list nat) (legacyMessage : list (string * value)) : M Z :=
  match all with
  | [] => mret 0
  | client :: rest =>
      w ← gets (λ s, sockets s client);
      members ← gets (λ s, sub_globalProperties (subscribers s));
      if is_open (readyState w) && negb (set_has client members) then
        send client legacyMessage;;
        broadcastCount ← legacy_pass rest legacyMessage;
        mret (broadcastCount + 1)
      else legacy_pass rest legacyMessage
  end.

Definition legacyBroadcast (legacyMessage : list (string * value)) : M Z :=
  all ← gets clients;
  legacy_pass all legacyMessage.

(** The 3-second callback once it has seen a new head block, up to its
    [await]: the fan-out to the subscribers of the head state. *)
Definition broadcastNewBlock_subscribers : M unit :=
  members ← gets (λ s, sub_globalProperties (subscribers s));
  when (0 <? set_size members)
    (c ← gets cache;
     ts ← timestamp;
     broadcastToSubscribers FGlobalProperties
       (subscription_update "global_properties" (globalProperties c) ts)).

(** The callback after that [await]: the legacy broadcast to the open
    sockets that are not subscribers of the head state at that point, and
    its log line, which prints [currentBlock]. *)
Definition broadcastNewBlock_legacy (currentBlock : value) : M unit :=
  c ← gets cache;
  ts ← timestamp;
  broadcastCount ← legacyBroadcast (legacy_broadcast (globalProperties c) ts);
  when (0 <? broadcastCount) (_ ← lift (toStr currentBlock); mret tt).

(** The part of the 3-second callback that runs once a new head block is
    seen: the subscription fan-out, the derived feeds, which the callback
    awaits, and the legacy broadcast. *)
Definition broadcastNewBlock (currentBlock : value) : M unit :=
  broadcastNewBlock_subscribers;;
  processNewBlockForSubscriptions currentBlock;;
  broadcastNewBlock_legacy currentBlock.

(** [a !== b] for two values read from the slot of the head state.  On
    primitives it compares the values; two arrays or objects are the same
    only if they are one object, which [same_object] says. *)
Definition strict_neq (same_object : bool) (a b : value) : bool :=
  match a, b with
  | (VArr _ | VObj _), (VArr _ | VObj _) => negb same_object
  | _, _ => negb (value_eqb a b)
  end.

(** The callback of the 3-second interval of [setupPeriodicUpdates], run
    as one turn: no other handler runs while it awaits ([Interleaving]
    below lifts that).

    [previousBlock] and [currentBlock] are read from the object in the
    slot before and after the refresh.  When both are arrays or objects
    they are the same object exactly when the refresh has not stored a new
    answer in the slot; a store sets [lastGlobalUpdate] to the time the
    refresh started, which is at least [globalTTL] after the value it had
    while the slot was truthy. *)
Definition periodicUpdate : M unit :=
  try_catch
    (previousBlock ← gets (λ s, optProp (globalProperties (cache s)) "head_block_number");
     previousUpdate ← gets (λ s, lastGlobalUpdate (cache s));
     _ ← getDynamicGlobalProperties;
     c ← gets cache;
     let currentBlock := optProp (globalProperties c) "head_block_number" in
     let same_object := lastGlobalUpdate c =? previousUpdate in
     when (truthy (globalProperties c) && strict_neq same_object currentBlock previousBlock)
       (broadcastNewBlock currentBlock))
    (λ error, switchNode).

(** ** Health probe *)

(** The callback of the 30-second interval of
    [startNodeHealthMonitoring]. *)
Definition healthCheck : M unit :=
  try_catch
    (startTime ← now;
     _ ← call_upstream database_getDynamicGlobalProperties;
     t ← now;
     let responseTime := t - startTime in
     idx ← gets currentNodeIndex;
     update_health idx (λ h,
       mkHealth (url h) true (lastError h) (errorCount h) t
         (if 2000 <? responseTime
          then Z.max (avgResponseTime h) responseTime
          else avgResponseTime h)
         (totalRequests h)))
    (λ error, switchToHealthyNode).

(** ** The server as a machine *)

(** What the event loop hands to the server, each at a wall-clock time. *)
Inductive Input : Type :=
  | Connection (ws : nat)
  | Message (ws : nat) (message : Outcome value)
  | Close (ws : nat)
  | QueueTimer
  | PollTimer
  | HealthTimer.

Definition handler (i : Input) : M unit :=
  match i with
  | Connection ws => onConnection ws
  | Message ws message => onMessage ws message
  | Close ws => onClose ws
  | QueueTimer => processQueue_resume
  | PollTimer => periodicUpdate
  | HealthTimer => healthCheck
  end.

(** One turn of the event loop at time [t].  The clock does not run
    backwards. *)
Definition step (s : Server) (ti : Z * Input) : Server :=
  exec (handler ti.2) (set_clock (Z.max (clock s) ti.1) s).

Definition run (s : Server) (inputs : list (Z * Input)) : Server :=
  fold_left step inputs s.

End Bridge.

(** ** Handlers that interleave

    The definitions above run a handler as one turn of the event loop: a
    call of the client returns before anything else is handled.  In the
    server an [await] of the client hands control back to the event loop,
    which handles the frames and the timers that arrive until the endpoint
    replies.  To follow the 3-second callback through its [await]s, the
    functions on the way from it to the client are written once more over
    an arbitrary call of the client, word for word; with [call_upstream]
    for that call they are the ones above. *)

Section Interleaving.

Variable call : ClientCall → M value.

Definition route_with (method : string) (params : value) : M value :=
  if String.eqb method "getDynamicGlobalProperties" then
    call database_getDynamicGlobalProperties
  else if String.eqb method "getBlockHeader" then
    p ← lift (getIndex params 0); call (database_getBlockHeader p)
  else if String.eqb method "getBlock" then
    p ← lift (getIndex params 0); call (database_getBlock p)
  else if String.eqb method "getOpsInBlock" then
    call (client_call "condenser_api" "get_ops_in_block" params)
  else if String.eqb method "getActiveWitnesses" then
    call (database_call "get_active_witnesses" (VArr []))
  else if String.eqb method "getTransaction" then
    p ← lift (getIndex params 0); call (database_getTransaction p)
  else if String.eqb method "getTicker" then
    call (client_call "market_history_api" "get_ticker" params)
  else if String.eqb method "getOrderBook" then
    call (client_call "market_history_api" "get_order_book" params)
  else if String.eqb method "getRecentTrades" then
    call (client_call "market_history_api" "get_recent_trades" params)
  else if String.eqb method "getAccounts" then
    call (client_call "condenser_api" "get_accounts" params)
  else if String.eqb method "getMarketHistory" then
    call (client_call "market_history_api" "get_market_history" params)
  else if String.eqb method "getAccountHistory" then
    call (client_call "condenser_api" "get_account_history" params)
  else if String.eqb method "getWitnessesByVote" then
    call (client_call "condenser_api" "get_witnesses_by_vote" params)
  else if String.eqb method "getVestingDelegations" then
    call (client_call "condenser_api" "get_vesting_delegations" params)
  else
    throw (Error ("Unknown method: " +:+ method)).

Fixpoint callSteemAPI_from_with (remaining : nat) (attempt : Z)
    (method : string) (params : value) (maxRetries : Z) : M value :=
  match remaining with
  | O => mret VUndef
  | S remaining' =>
      startTime ← now;
      idx ← gets currentNodeIndex;
      node ← gets steemClient;
      o ← observe (route_with method params);
      log (EvAttempt attempt node o);;
      match o with
      | Ok result =>
          t ← now;
          update_health idx (record_success t (t - startTime));;
          mret result
      | Throw error =>
          t ← now;
          update_health idx (record_failure t);;
          if attempt <? maxRetries then
            switchToHealthyNode;;
            sleep (1000 * attempt);;
            callSteemAPI_from_with remaining' (attempt + 1) method params maxRetries
          else
            update_errorStats incr_totalErrors;;
            update_errorStats incr_nodeErrors;;
            throw error
      end
  end.

Definition callSteemAPI_with (method : string) (params : value)
    (maxRetries : Z := 3) : M value :=
  callSteemAPI_from_with (Z.to_nat maxRetries) 1 method params maxRetries.

Definition getDynamicGlobalProperties_with : M value :=
  t ← now;
  c ← gets cache;
  if truthy (globalProperties c) && (t - lastGlobalUpdate c <? globalTTL) then
    update_errorStats incr_cacheHits;;
    mret (globalProperties c)
  else
    try_catch
      (result ← callSteemAPI_with "getDynamicGlobalProperties" (VArr []);
       update_cache (set_globalProperties result);;
       update_cache (set_lastGlobalUpdate t);;
       update_errorStats incr_cacheMisses;;
       (* the log line prints [result.head_block_number] *)
       head ← lift (readProp result "head_block_number");
       _ ← lift (toStr head);
       mret result)
      (λ error,
         c ← gets cache;
         if truthy (globalProperties c) then
           update_errorStats incr_cacheHits;;
           mret (globalProperties c)
         else throw error).

Definition getBlockHeader_with (blockNumber : value) : M value :=
  try_catch
    (n ← lift (toStr blockNumber);
     let cacheKey := "header_" +:+ n in
     cached ← getCacheItem LBlockHeaders cacheKey blockTTL;
     if truthy cached then mret cached
     else
       result ← callSteemAPI_with "getBlockHeader" (VArr [blockNumber]);
       setCacheItem LBlockHeaders cacheKey result;;
       (* the log line prints [blockNumber] *)
       _ ← lift (toStr blockNumber);
       mret result)
    (λ error,
       (* the log line prints [blockNumber] *)
       _ ← lift (toStr blockNumber);
       throw error).

Definition getBlock_with (blockNumber : value) : M value :=
  try_catch
    (n ← lift (toStr blockNumber);
     let cacheKey := "block_" +:+ n in
     cached ← getCacheItem LBlocks cacheKey blockTTL;
     if truthy cached then mret cached
     else
       result ← callSteemAPI_with "getBlock" (VArr [blockNumber]);
       setCacheItem LBlocks cacheKey result;;
       (* the log line prints [blockNumber] and
          [result.transactions?.length || 0] *)
       _ ← lift (toStr blockNumber);
       transactions ← lift (readProp result "transactions");
       len ← lift (optLength transactions);
       _ ← lift (toStr (js_or len (VNum 0)));
       mret result)
    (λ error,
       _ ← lift (toStr blockNumber);
       throw error).

Definition getOpsInBlock_with (blockNumber onlyVirtual : value) : M value :=
  try_catch
    (n ← lift (toStr blockNumber);
     v ← lift (toStr onlyVirtual);
     let cacheKey := "ops_" +:+ n +:+ "_" +:+ v in
     cached ← getCacheItem LOperations cacheKey blockTTL;
     if truthy cached then mret cached
     else
       result ← callSteemAPI_with "getOpsInBlock" (VArr [blockNumber; onlyVirtual]);
       setCacheItem LOperations cacheKey result;;
       (* the log line prints [blockNumber], [result.length] and
          [onlyVirtual] *)
       _ ← lift (toStr blockNumber);
       len ← lift (getLength result);
       _ ← lift (toStr len);
       _ ← lift (toStr onlyVirtual);
       mret result)
    (λ error,
       _ ← lift (toStr blockNumber);
       throw error).

Definition processNewBlockForSubscriptions_with (blockNumber : value) : M unit :=
  try_catch
    (b ← gets subscribers;
     when ((0 <? set_size (sub_blocks b)) || (0 <? set_size (sub_blockHeaders b))
           || (0 <? set_size (sub_operations b)))
       (when (0 <? set_size (sub_blockHeaders b))
          (try_catch
             (blockHeader ← getBlockHeader_with blockNumber;
              ts ← timestamp;
              broadcastToSubscribers FBlockHeaders
                (subscription_update "block_headers"
                   (VObj [ ("blockNumber", blockNumber); ("header", blockHeader) ]) ts))
             (λ error, _ ← lift (toStr blockNumber); mret tt));;
        b ← gets subscribers;
        when ((0 <? set_size (sub_blocks b)) || (0 <? set_size (sub_operations b)))
          (try_catch
             (fullBlock ← getBlock_with blockNumber;
              b ← gets subscribers;
              when (0 <? set_size (sub_blocks b))
                (ts ← timestamp;
                 broadcastToSubscribers FBlocks
                   (subscription_update "blocks"
                      (VObj [ ("blockNumber", blockNumber); ("block", fullBlock) ]) ts));;
              b ← gets subscribers;
              when (0 <? set_size (sub_operations b))
                (try_catch
                   (operations ← getOpsInBlock_with blockNumber (VBool false);
                    ts ← timestamp;
                    broadcastToSubscribers FOperations
                      (subscription_update "operations"
                         (VObj [ ("blockNumber", blockNumber);
                                 ("operations", operations) ]) ts))
                   (λ error, _ ← lift (toStr blockNumber); mret tt)))
             (λ error, _ ← lift (toStr blockNumber); mret tt)));;
     modify (set_lastProcessedBlock blockNumber))
    (λ error, mret tt).

Definition broadcastNewBlock_with (currentBlock : value) : M unit :=
  broadcastNewBlock_subscribers;;
  processNewBlockForSubscriptions_with currentBlock;;
  broadcastNewBlock_legacy currentBlock.

Definition periodicUpdate_with : M unit :=
  try_catch
    (previousBlock ← gets (λ s, optProp (globalProperties (cache s)) "head_block_number");
     previousUpdate ← gets (λ s, lastGlobalUpdate (cache s));
     _ ← getDynamicGlobalProperties_with;
     c ← gets cache;
     let currentBlock := optProp (globalProperties c) "head_block_number" in
     let same_object := lastGlobalUpdate c =? previousUpdate in
     when (truthy (globalProperties c) && strict_neq same_object currentBlock previousBlock)
       (broadcastNewBlock_with currentBlock))
    (λ error, switchNode).

End Interleaving.

(** A call of the client, with the event loop at work until the reply
    comes: it handles the frames and timers [during k], [k] being the
    number of the call, each in one turn at its time.  The caller goes on
    when the reply is there, and not before the last of these turns. *)
Definition call_upstream_while (upstream : Oracle) (during : nat → list (Z * Input))
    (c : ClientCall) : M value := λ s,
  let '(latency, o) := upstream (ncalls s) (steemClient s) c in
  let s1 := run upstream (set_ncalls (S (ncalls s)) s) (during (ncalls s)) in
  (o, set_clock (Z.max (clock s1) (clock s + latency)) s1).

(** The callback of the 3-second interval, with the event loop handling
    [during k] while call [k] of the client is awaited. *)
Definition periodicUpdate_while (upstream : Oracle) (during : nat → list (Z * Input))
    : M unit :=
  periodicUpdate_with (call_upstream_while upstream during).

(** The server object as the constructor leaves it at time [t]. *)
Definition initial (t : Z) : Server :=
  mkServer 0 0
    ((λ node, mkHealth node true None 0 t 0 0) <$> steemNodes)
    (mkCache VNull VNull [] [] [] 0 0)
    [] false
    (mkStats 0 0 0 0 0)
    (mkSubs [] [] [] [] [])
    VNull
    []
    (λ _, mkSocket 0 0 0 CLOSED [])
    t 0 [].

(** ** Observations used in the statements *)

(** A sequence of operations on the cache, with time passing in between. *)
Inductive CacheOp : Type :=
  | Store (l : Layer) (key : string) (v : value)
  | Lookup (l : Layer) (key : string) (ttl : Z)
  | Clear
  | Elapse (ms : Z).

Definition cache_op (op : CacheOp) : M unit :=
  match op with
  | Store l key v => setCacheItem l key v
  | Lookup l key ttl => _ ← getCacheItem l key ttl; mret tt
  | Clear => clearCache
  | Elapse ms => modify (λ s, set_clock (clock s + ms) s)
  end.

Definition cache_ops (s : Server) (ops : list CacheOp) : Server :=
  fold_left (λ s op, exec (cache_op op) s) ops s.

(** The rate-limit check that opens the ["message"] handler, as a function
    of the socket: its counters after the check, and whether the frame
    passes. *)
Definition rate_check (t : Z) (w : Socket) : Socket * bool :=
  let w1 :=
    if 60000 <? t - lastReset w
    then set_lastReset t (set_messageCount 0 w)
    else w in
  let w2 := set_messageCount (messageCount w1 + 1) w1 in
  (w2, negb (maxMessagesPerMinute w2 <? messageCount w2)).

(** The three bounded maps are within [maxCacheSize]. *)
Definition cache_bounded (c : Cache) : Prop :=
  ∀ l, map_size (layer l c) ≤ maxCacheSize.

(** * Properties *)

(** Unfold the monad down to functions on the server state. *)
Ltac munfold :=
  unfold exec, when, update_layer, update_cache, update_errorStats, update_health,
    update_feed, update_socket, now, log, sleep, timestamp, gets, modify, lift,
    throw, try_catch, observe, mbind, M_bind, mret, M_ret in *.

(** ** Cache layer: eviction and the size bound *)

Lemma layer_set_layer l m c : layer l (set_layer l m c) = m.
Proof. destruct l; reflexivity. Qed.

Lemma map_set_length k x m : (length (map_set k x m) ≤ S (length m))%nat.
Proof.
  induction m as [|[k' x'] m IH]; simpl; [lia|].
  destruct (String.eqb k k'); simpl; lia.
Qed.

Lemma map_set_length_ge k x m : (length m ≤ length (map_set k x m))%nat.
Proof.
  induction m as [|[k' x'] m IH]; simpl; [lia|].
  destruct (String.eqb k k'); simpl; lia.
Qed.

Lemma map_delete_length k m : (length (map_delete k m) ≤ length m)%nat.
Proof.
  induction m as [|[k' x'] m IH]; simpl; [lia|].
  destruct (String.eqb k k'); simpl; lia.
Qed.

Lemma map_get_set k x m : map_get k (map_set k x m) = Some x.
Proof.
  induction m as [|[k' x'] m IH]; simpl.
  - now rewrite String.eqb_refl.
  - destruct (String.eqb k k') eqn:E; simpl.
    + now rewrite String.eqb_refl.
    + now rewrite E.
Qed.

(** What [setCacheItem] leaves in the map it is given. *)
Lemma setCacheItem_layer l key v s :
  layer l (cache (exec (setCacheItem l key v) s)) =
  map_set key (mkItem v (clock s))
    (if maxCacheSize <=? map_size (layer l (cache s))
     then tail (layer l (cache s))
     else layer l (cache s)).
Proof.
  unfold setCacheItem. munfold. simpl.
  destruct (maxCacheSize <=? map_size (layer l (cache s))); simpl.
  - rewrite !layer_set_layer.
    destruct (layer l (cache s)) as [|[k x] r]; simpl; [reflexivity|].
    now rewrite String.eqb_refl.
  - now rewrite layer_set_layer.
Qed.

Lemma layer_set_layer_ne l l' m c : l ≠ l' → layer l' (set_layer l m c) = layer l' c.
Proof. destruct l, l'; intros; try congruence; reflexivity. Qed.

Lemma setCacheItem_other l l' key v s :
  l ≠ l' → layer l' (cache (exec (setCacheItem l key v) s)) = layer l' (cache s).
Proof.
  intros Hne. unfold setCacheItem. munfold. simpl.
  destruct (maxCacheSize <=? map_size (layer l (cache s))); simpl;
    now rewrite !layer_set_layer_ne.
Qed.

Lemma Layer_eq_dec (l l' : Layer) : {l = l'} + {l ≠ l'}.
Proof. decide equality. Qed.

Lemma setCacheItem_bounded l key v s :
  cache_bounded (cache s) → cache_bounded (cache (exec (setCacheItem l key v) s)).
Proof.
  intros Hb l'. destruct (Layer_eq_dec l l') as [<-|Hne].
  - rewrite setCacheItem_layer. specialize (Hb l). unfold map_size in *.
    destruct (maxCacheSize <=? Z.of_nat (length (layer l (cache s)))) eqn:E.
    + pose proof (map_set_length key (mkItem v (clock s)) (tail (layer l (cache s)))) as H.
      destruct (layer l (cache s)); simpl in *; unfold maxCacheSize in *; lia.
    + pose proof (map_set_length key (mkItem v (clock s)) (layer l (cache s))) as H.
      apply Z.leb_gt in E. lia.
  - rewrite setCacheItem_other by assumption. apply Hb.
Qed.

Lemma getCacheItem_bounded l key ttl s :
  cache_bounded (cache s) → cache_bounded (cache (getCacheItem l key ttl s).2).
Proof.
  intros Hb l'. unfold getCacheItem. munfold. simpl.
  destruct (map_get key (layer l (cache s))) as [item|]; simpl; [|apply Hb].
  destruct (ttl <? clock s - item_timestamp item); simpl; [|apply Hb].
  destruct (Layer_eq_dec l l') as [<-|Hne].
  - rewrite layer_set_layer. specialize (Hb l). unfold map_size in *.
    pose proof (map_delete_length key (layer l (cache s))). lia.
  - rewrite layer_set_layer_ne by assumption. apply Hb.
Qed.

Lemma clearCache_cache s :
  cache (exec clearCache s) = mkCache VNull VNull [] [] [] 0 0.
Proof. reflexivity. Qed.

Lemma cache_op_bounded op s :
  cache_bounded (cache s) → cache_bounded (cache (exec (cache_op op) s)).
Proof.
  destruct op; cbn [cache_op].
  - apply setCacheItem_bounded.
  - intros Hb. pose proof (getCacheItem_bounded l key ttl s Hb) as H.
    unfold exec. munfold. destruct (getCacheItem l key ttl s) as [[?|?] ?]; exact H.
  - intros _ l. rewrite clearCache_cache. destruct l; unfold map_size, maxCacheSize; simpl; lia.
  - intros Hb. exact Hb.
Qed.

Lemma cache_ops_bounded ops s :
  cache_bounded (cache s) → cache_bounded (cache (cache_ops s ops)).
Proof.
  revert s. induction ops as [|op ops IH]; intros s Hb; simpl; [exact Hb|].
  apply IH, cache_op_bounded, Hb.
Qed.

(** C5.  [setCacheItem] on a map that has reached [maxCacheSize] drops the
    first-inserted entry and then stores the new entry under the current
    time; below the bound it only stores.  Starting from the empty caches of
    the constructor, no sequence of stores, lookups and clears, with any
    time passing in between, takes any of the three maps above
    [maxCacheSize] = 1000. *)
Theorem cache_size_bound :
  (∀ l key v s,
     let m := layer l (cache s) in
     let m' := layer l (cache (exec (setCacheItem l key v) s)) in
     m' = map_set key (mkItem v (clock s))
            (if maxCacheSize <=? map_size m then tail m else m)
     ∧ map_get key m' = Some (mkItem v (clock s)))
  ∧ (∀ t ops l,
       map_size (layer l (cache (cache_ops (initial t) ops))) ≤ 1000).
Proof.
  split.
  - intros l key v s m m'. subst m m'. rewrite setCacheItem_layer.
    split; [reflexivity|apply map_get_set].
  - intros t ops l. apply (cache_ops_bounded ops (initial t)).
    intros l'. destruct l'; unfold map_size, maxCacheSize; simpl; lia.
Qed.

(** ** Node switching and the cache *)

Lemma switchNode_cache s :
  cache (exec switchNode s) =
  mkCache VNull VNull (blockHeaders (cache s)) (blocks (cache s))
    (operations (cache s)) 0 0.
Proof. reflexivity. Qed.

Lemma switchToHealthyNode_cache s :
  cache (exec switchToHealthyNode s) =
  match healthyNodes (clock s)
          (alter (mark_unhealthy (clock s)) (currentNodeIndex s) (nodeHealth s)) with
  | [] => cache s
  | _ :: _ => mkCache VNull VNull [] [] [] 0 0
  end.
Proof.
  unfold switchToHealthyNode. munfold. simpl.
  destruct (healthyNodes _ _); reflexivity.
Qed.

(** C10.  [switchNode] resets the head-state and witness slots and their
    timestamps and leaves the three per-block maps as they are, while
    [clearCache], which [switchToHealthyNode] runs whenever it moves to
    another endpoint, empties every layer.  [switchNode] is what the
    dispatcher's [catch] block runs on a network or timeout message, once
    its log line has printed the request's method and id, and what the
    poll callback runs when its refresh throws.  When the log line cannot
    print them it throws, and the [catch] block neither switches nor
    answers. *)
Theorem switchNode_keeps_block_maps :
  (∀ s,
     let c := cache s in
     let c' := cache (exec switchNode s) in
     blockHeaders c' = blockHeaders c ∧ blocks c' = blocks c
     ∧ operations c' = operations c
     ∧ globalProperties c' = VNull ∧ activeWitnesses c' = VNull
     ∧ lastGlobalUpdate c' = 0 ∧ lastWitnessUpdate c' = 0)
  ∧ (∀ s, cache (exec clearCache s) = mkCache VNull VNull [] [] [] 0 0)
  ∧ (∀ s,
       cache (exec switchToHealthyNode s) =
       match healthyNodes (clock s)
               (alter (mark_unhealthy (clock s)) (currentNodeIndex s) (nodeHealth s)) with
       | [] => cache s
       | _ :: _ => cache (exec clearCache s)
       end)
  ∧ (∀ ws id method error s,
       includes "network" (errorMessage_of error)
         || includes "timeout" (errorMessage_of error) = true →
       let errorMethod := js_or method (VStr "unknown_method") in
       let errorId := js_or id (VStr "unknown") in
       (printable errorMethod = true → printable errorId = true →
        cache (exec (handleMessage_catch ws id method error) s)
        = cache (exec switchNode s))
       ∧ (∀ e, toStr errorMethod = Throw e →
            handleMessage_catch ws id method error s = (Throw e, s))
       ∧ (∀ e, printable errorMethod = true → toStr errorId = Throw e →
            handleMessage_catch ws id method error s = (Throw e, s)))
  ∧ (∀ upstream s error s1,
       getDynamicGlobalProperties upstream s = (Throw error, s1) →
       exec (periodicUpdate upstream) s = exec switchNode s1).
Proof.
  split; [intros s; repeat split|].
  split; [intros s; reflexivity|].
  split; [intros s; apply switchToHealthyNode_cache|].
  split; [intros ws id method error s H errorMethod errorId; split_and!|].
  - intros Hm Hi. unfold printable in Hm, Hi. unfold handleMessage_catch.
    fold errorMethod errorId. rewrite H. unfold send. munfold.
    destruct (toStr errorMethod); [|discriminate Hm].
    destruct (toStr errorId); [|discriminate Hi]. simpl.
    destruct (is_open _); reflexivity.
  - intros e He. unfold handleMessage_catch. fold errorMethod. munfold.
    rewrite He. reflexivity.
  - intros e Hm He. unfold printable in Hm. unfold handleMessage_catch.
    fold errorMethod errorId. munfold.
    destruct (toStr errorMethod); [|discriminate Hm]. rewrite He. reflexivity.
  - intros upstream s error s1 H. unfold periodicUpdate. munfold. simpl.
    rewrite H. reflexivity.
Qed.

(** ** Argument validation *)

(** A request frame as a client writes it. *)
Definition request (id : value) (method : string) (params : value) : value :=
  VObj [ ("id", id); ("method", VStr method); ("params", params) ].

Definition block_methods : list string :=
  [ "get_block_header"; "condenser_api.get_block_header";
    "get_block"; "condenser_api.get_block";
    "get_ops_in_block"; "condenser_api.get_ops_in_block" ].

Definition transaction_methods : list string :=
  [ "get_transaction"; "condenser_api.get_transaction" ].

(** The reply of the [catch] block to an error that names neither the
    network nor a timeout. *)
Definition rejected (ws : nat) (id : value) (m msg : string) (s : Server)
    : Outcome unit * Server :=
  (Ok tt, exec (send ws (error_frame (js_or id (VStr "unknown")) msg (VStr m))) s).

(** The same reply behind the log line of the [catch] block, which prints
    the id first: an id that cannot be printed makes the template literal
    throw, and nothing is sent. *)
Definition logged_rejected (ws : nat) (id : value) (m msg : string) (s : Server)
    : Outcome unit * Server :=
  match toStr (js_or id (VStr "unknown")) with
  | Ok _ => rejected ws id m msg s
  | Throw e => (Throw e, s)
  end.

(** Decide the string tests of a [switch] on a known method name. *)
Ltac decide_method :=
  repeat match goal with
  | |- context [is_method ?a ?b ?c] =>
      let v := eval vm_compute in (is_method a b c) in
      change (is_method a b c) with v
  | |- context [String.eqb ?a ?b] =>
      let v := eval vm_compute in (String.eqb a b) in
      change (String.eqb a b) with v
  | |- context [includes ?a ?b] =>
      let v := eval vm_compute in (includes a b) in
      change (includes a b) with v
  end; cbv iota.

Lemma send_ok ws fs s : send ws fs s = (Ok tt, exec (send ws fs) s).
Proof. reflexivity. Qed.

(** Run the dispatcher on a request whose method name is known, up to the
    [catch] block. *)
Ltac run_dispatch :=
  unfold handleMessage, request, dispatch; cbn -[send is_method toStr]; decide_method;
  munfold; cbn -[send toStr].

(** Run the [catch] block on an error whose message is known: the log line,
    then the frame. *)
Ltac run_catch :=
  unfold handleMessage_catch, errorMessage_of; cbn -[send includes toStr js_or];
  decide_method; munfold; cbn -[send toStr js_or];
  match goal with
  | |- context [toStr (js_or ?id ?d)] =>
      destruct (toStr (js_or id d)); [apply send_ok|reflexivity]
  end.

Lemma handleMessage_falsy_block upstream ws id m p0 rest s :
  truthy p0 = false → In m block_methods →
  handleMessage upstream ws (request id m (VArr (p0 :: rest))) s
  = logged_rejected ws id m "Block number is required" s.
Proof.
  intros Hp Hm. unfold block_methods in Hm. simpl in Hm.
  unfold logged_rejected, rejected.
  repeat (destruct Hm as [<-|Hm];
          [run_dispatch; rewrite Hp; cbn -[send toStr]; run_catch|]).
  destruct Hm.
Qed.

Lemma handleMessage_absent_block upstream ws id m s :
  In m block_methods →
  handleMessage upstream ws (request id m (VArr [])) s
  = logged_rejected ws id m "Block number is required" s.
Proof.
  intros Hm. unfold block_methods in Hm. simpl in Hm.
  unfold logged_rejected, rejected.
  repeat (destruct Hm as [<-|Hm]; [run_dispatch; run_catch|]).
  destruct Hm.
Qed.

Lemma handleMessage_falsy_transaction upstream ws id m p0 rest s :
  truthy p0 = false → In m transaction_methods →
  handleMessage upstream ws (request id m (VArr (p0 :: rest))) s
  = logged_rejected ws id m "Transaction ID is required" s.
Proof.
  intros Hp Hm. unfold transaction_methods in Hm. simpl in Hm.
  unfold logged_rejected, rejected.
  repeat (destruct Hm as [<-|Hm];
          [run_dispatch; rewrite Hp; cbn -[send toStr]; run_catch|]).
  destruct Hm.
Qed.

Lemma handleMessage_absent_transaction upstream ws id m s :
  In m transaction_methods →
  handleMessage upstream ws (request id m (VArr [])) s
  = logged_rejected ws id m "Transaction ID is required" s.
Proof.
  intros Hm. unfold transaction_methods in Hm. simpl in Hm.
  unfold logged_rejected, rejected.
  repeat (destruct Hm as [<-|Hm]; [run_dispatch; run_catch|]).
  destruct Hm.
Qed.

Lemma logged_rejected_printable ws id m msg s :
  printable (js_or id (VStr "unknown")) = true →
  logged_rejected ws id m msg s = rejected ws id m msg s.
Proof.
  unfold printable, logged_rejected.
  destruct (toStr _); [reflexivity|discriminate].
Qed.

Lemma logged_rejected_throws ws id m msg s e :
  toStr (js_or id (VStr "unknown")) = Throw e →
  logged_rejected ws id m msg s = (Throw e, s).
Proof. unfold logged_rejected. intros ->. reflexivity. Qed.

(** C9.  The block readers test only the truthiness of [params[0]]: a
    request whose first parameter is present but falsy (0, [null], [false],
    the empty string) is treated as the request without parameters, with the
    same outcome and the same effect on the server, for every id.  Where the
    id can be printed by the log line of the [catch] block (every number,
    string, boolean, [null], absent id, and every object or array without a
    [toString] key of its own), the answer is the error frame "Block number
    is required"; where it cannot, the log line throws and no frame is sent.
    [get_transaction] likewise with "Transaction ID is required".  Nothing
    is read from the cache or from upstream. *)
Theorem falsy_first_param_rejected upstream ws id m p0 rest s :
  truthy p0 = false →
  (In m block_methods →
     (printable (js_or id (VStr "unknown")) = true →
        handleMessage upstream ws (request id m (VArr (p0 :: rest))) s
        = rejected ws id m "Block number is required" s)
     ∧ (∀ e, toStr (js_or id (VStr "unknown")) = Throw e →
          handleMessage upstream ws (request id m (VArr (p0 :: rest))) s
          = (Throw e, s))
     ∧ handleMessage upstream ws (request id m (VArr (p0 :: rest))) s
       = handleMessage upstream ws (request id m (VArr [])) s)
  ∧ (In m transaction_methods →
       (printable (js_or id (VStr "unknown")) = true →
          handleMessage upstream ws (request id m (VArr (p0 :: rest))) s
          = rejected ws id m "Transaction ID is required" s)
       ∧ (∀ e, toStr (js_or id (VStr "unknown")) = Throw e →
            handleMessage upstream ws (request id m (VArr (p0 :: rest))) s
            = (Throw e, s))
       ∧ handleMessage upstream ws (request id m (VArr (p0 :: rest))) s
         = handleMessage upstream ws (request id m (VArr [])) s).
Proof.
  intros Hp. split; intros Hm.
  - rewrite handleMessage_falsy_block, handleMessage_absent_block by assumption.
    split_and!;
      [apply logged_rejected_printable | apply logged_rejected_throws | reflexivity].
  - rewrite handleMessage_falsy_transaction, handleMessage_absent_transaction
      by assumption.
    split_and!;
      [apply logged_rejected_printable | apply logged_rejected_throws | reflexivity].
Qed.

(** The four falsy JSON values. *)
Lemma falsy_json_values :
  Forall (λ v, truthy v = false) [VNum 0; VNull; VBool false; VStr ""].
Proof. repeat constructor. Qed.

(** ** What a method leaves alone

    [respects R m]: running [m] takes every state to an [R]-related one,
    however [m] ends. *)

Definition respects {A : Type} (R : relation Server) (m : M A) : Prop :=
  ∀ s, R s (m s).2.

Section Respects.
Context (R : relation Server) `{!PreOrder R}.

Lemma respects_ret {A} (a : A) : respects R (mret a).
Proof. intros s. reflexivity. Qed.

Lemma respects_throw {A} e : respects R (@throw A e).
Proof. intros s. reflexivity. Qed.

Lemma respects_gets {A} (f : Server → A) : respects R (gets f).
Proof. intros s. reflexivity. Qed.

Lemma respects_lift {A} (o : Outcome A) : respects R (lift o).
Proof. intros s. reflexivity. Qed.

Lemma respects_modify (f : Server → Server) :
  (∀ s, R s (f s)) → respects R (modify f).
Proof. intros H s. apply H. Qed.

Lemma respects_bind {A B} (m : M A) (k : A → M B) :
  respects R m → (∀ a, respects R (k a)) → respects R (m ≫= k).
Proof.
  intros Hm Hk s. unfold mbind, M_bind. specialize (Hm s).
  destruct (m s) as [[a|e] s1]; simpl in *; [|exact Hm].
  transitivity s1; [exact Hm|apply Hk].
Qed.

Lemma respects_try_catch {A} (m : M A) (h : JsError → M A) :
  respects R m → (∀ e, respects R (h e)) → respects R (try_catch m h).
Proof.
  intros Hm Hh s. unfold try_catch. specialize (Hm s).
  destruct (m s) as [[a|e] s1]; simpl in *; [exact Hm|].
  transitivity s1; [exact Hm|apply Hh].
Qed.

Lemma respects_observe {A} (m : M A) : respects R m → respects R (observe m).
Proof.
  intros Hm s. unfold observe. specialize (Hm s). destruct (m s); exact Hm.
Qed.

Lemma respects_when b (m : M unit) : respects R m → respects R (when b m).
Proof. intros Hm. destruct b; [exact Hm|apply respects_ret]. Qed.

Lemma respects_forEach l (body : nat → M unit) :
  (∀ x, respects R (body x)) → respects R (forEach l body).
Proof.
  intros Hb. induction l as [|x l IH]; simpl.
  - apply respects_ret.
  - apply respects_bind; [apply Hb|intros _; exact IH].
Qed.

Lemma respects_legacy_pass all message :
  (∀ ws, respects R (send ws message)) → respects R (legacy_pass all message).
Proof.
  intros Hs. induction all as [|client rest IH]; cbn [legacy_pass].
  - apply respects_ret.
  - apply respects_bind; [apply respects_gets|intros w].
    apply respects_bind; [apply respects_gets|intros members].
    destruct (_ && _); [|exact IH].
    apply respects_bind; [apply Hs|intros _].
    apply respects_bind; [exact IH|intros n]. apply respects_ret.
Qed.
End Respects.

Lemma respects_impl {A} (R R' : relation Server) (m : M A) :
  (∀ s s', R s s' → R' s s') → respects R m → respects R' m.
Proof. intros H Hm s. apply H, Hm. Qed.

(** Take a method apart along its binds, branches and handlers. *)
Ltac respects_step :=
  lazymatch goal with
  | |- respects _ (mret _) => apply respects_ret; typeclasses eauto
  | |- respects _ (throw _) => apply respects_throw; typeclasses eauto
  | |- respects _ (gets _) => apply respects_gets; typeclasses eauto
  | |- respects _ (lift _) => apply respects_lift; typeclasses eauto
  | |- respects _ (mbind _ _) => apply respects_bind; [typeclasses eauto| |intros ?]
  | |- respects _ (try_catch _ _) =>
      apply respects_try_catch; [typeclasses eauto| |intros ?]
  | |- respects _ (when _ _) => apply respects_when; [typeclasses eauto|]
  | |- respects _ (observe _) => apply respects_observe
  | |- respects _ (forEach _ _) =>
      apply respects_forEach; [typeclasses eauto|intros ?]
  | |- respects _ (legacy_pass _ _) =>
      apply respects_legacy_pass; [typeclasses eauto|intros ?]
  | |- respects _ (if ?b then _ else _) => destruct b
  | |- respects _ (match ?x with _ => _ end) => destruct x
  end.

(** *** The session side: sockets, [wss.clients], the registry *)

Definition same_sessions : relation Server := λ s s',
  sockets s' = sockets s ∧ clients s' = clients s ∧ subscribers s' = subscribers s.

#[global] Instance same_sessions_preorder : PreOrder same_sessions.
Proof.
  split.
  - intros s. repeat split.
  - intros s1 s2 s3 (H1 & H2 & H3) (H4 & H5 & H6).
    repeat split; congruence.
Qed.

Ltac same_sessions_modify :=
  match goal with
  | |- respects _ (modify _) => apply respects_modify; intros ?; repeat split
  end.

Ltac same_sessions_auto :=
  repeat first
    [ solve [auto with respects]
    | respects_step
    | progress (unfold update_cache, update_errorStats, update_health, update_layer,
                  now, log, sleep)
    | same_sessions_modify ].

Create HintDb respects.

Lemma clearCache_sessions : respects same_sessions clearCache.
Proof. unfold clearCache. same_sessions_auto. Qed.
#[global] Hint Resolve clearCache_sessions : respects.

Lemma setCacheItem_sessions l key v : respects same_sessions (setCacheItem l key v).
Proof. unfold setCacheItem. same_sessions_auto. Qed.
#[global] Hint Resolve setCacheItem_sessions : respects.

Lemma getCacheItem_sessions l key ttl : respects same_sessions (getCacheItem l key ttl).
Proof. unfold getCacheItem. same_sessions_auto. Qed.
#[global] Hint Resolve getCacheItem_sessions : respects.

Lemma switchToHealthyNode_sessions : respects same_sessions switchToHealthyNode.
Proof. unfold switchToHealthyNode. same_sessions_auto. Qed.
#[global] Hint Resolve switchToHealthyNode_sessions : respects.

Lemma switchNode_sessions : respects same_sessions switchNode.
Proof. unfold switchNode. same_sessions_auto. Qed.
#[global] Hint Resolve switchNode_sessions : respects.

Lemma call_upstream_sessions upstream c :
  respects same_sessions (call_upstream upstream c).
Proof.
  intros s. unfold call_upstream. destruct (upstream _ _ _). repeat split.
Qed.
#[global] Hint Resolve call_upstream_sessions : respects.

Lemma route_sessions upstream method params :
  respects same_sessions (route upstream method params).
Proof. unfold route. same_sessions_auto. Qed.
#[global] Hint Resolve route_sessions : respects.

Lemma callSteemAPI_from_sessions upstream remaining attempt method params maxRetries :
  respects same_sessions
    (callSteemAPI_from upstream remaining attempt method params maxRetries).
Proof.
  revert attempt. induction remaining as [|n IH]; intros attempt; simpl.
  - same_sessions_auto.
  - same_sessions_auto.
Qed.

Lemma callSteemAPI_sessions upstream method params :
  respects same_sessions (callSteemAPI upstream method params).
Proof. apply callSteemAPI_from_sessions. Qed.
#[global] Hint Resolve callSteemAPI_sessions : respects.

Lemma getDynamicGlobalProperties_sessions upstream :
  respects same_sessions (getDynamicGlobalProperties upstream).
Proof. unfold getDynamicGlobalProperties. same_sessions_auto. Qed.
#[global] Hint Resolve getDynamicGlobalProperties_sessions : respects.

Lemma getBlockHeader_sessions upstream n :
  respects same_sessions (getBlockHeader upstream n).
Proof. unfold getBlockHeader. same_sessions_auto. Qed.
#[global] Hint Resolve getBlockHeader_sessions : respects.

Lemma getBlock_sessions upstream n : respects same_sessions (getBlock upstream n).
Proof. unfold getBlock. same_sessions_auto. Qed.
#[global] Hint Resolve getBlock_sessions : respects.

Lemma getOpsInBlock_sessions upstream n v :
  respects same_sessions (getOpsInBlock upstream n v).
Proof. unfold getOpsInBlock. same_sessions_auto. Qed.
#[global] Hint Resolve getOpsInBlock_sessions : respects.

(** *** Frames are only appended *)

(** The two frames of the head-state fan-out. *)
Definition is_gp_update (f : frame) : bool :=
  match assoc "type" f, assoc "subscription" f with
  | Some (VStr t), Some (VStr sub) =>
      String.eqb t "subscription_update" && String.eqb sub "global_properties"
  | _, _ => false
  end.

Definition is_legacy (f : frame) : bool :=
  match assoc "type" f, assoc "method" f with
  | Some (VStr t), Some (VStr m) =>
      String.eqb t "broadcast" && String.eqb m "dynamic_global_properties_update"
  | _, _ => false
  end.

Definition other_frame (f : frame) : Prop :=
  is_gp_update f = false ∧ is_legacy f = false.

Definition count_frames (p : frame → bool) (l : list frame) : nat :=
  length (List.filter p l).

(** [grows Q s s']: from [s] to [s'] no socket changes state, and each
    socket's log gains only frames satisfying [Q]. *)
Definition grows (Q : frame → Prop) : relation Server := λ s s',
  ∀ ws,
    readyState (sockets s' ws) = readyState (sockets s ws)
    ∧ ∃ l, sent (sockets s' ws) = sent (sockets s ws) ++ l ∧ Forall Q l.

#[global] Instance grows_preorder Q : PreOrder (grows Q).
Proof.
  split.
  - intros s ws. split; [reflexivity|]. exists []. now rewrite app_nil_r.
  - intros s1 s2 s3 H12 H23 ws.
    destruct (H12 ws) as (Hr1 & l1 & Hs1 & Hq1).
    destruct (H23 ws) as (Hr2 & l2 & Hs2 & Hq2).
    split; [congruence|]. exists (l1 ++ l2).
    rewrite Hs2, Hs1, <- app_assoc. split; [reflexivity|].
    apply Forall_app; split; assumption.
Qed.

(** [quiet Q]: moreover [wss.clients] and the head-state subscriber set
    stay as they are. *)
Definition quiet (Q : frame → Prop) : relation Server := λ s s',
  grows Q s s'
  ∧ clients s' = clients s
  ∧ sub_globalProperties (subscribers s') = sub_globalProperties (subscribers s).

#[global] Instance quiet_preorder Q : PreOrder (quiet Q).
Proof.
  split.
  - intros s. repeat split; reflexivity || apply (grows_preorder Q).
  - intros s1 s2 s3 (G1 & C1 & S1) (G2 & C2 & S2). repeat split; try congruence.
    + destruct (G1 ws), (G2 ws). congruence.
    + pose proof (@PreOrder_Transitive _ _ (grows_preorder Q) _ _ _ G1 G2) as G.
      apply G.
Qed.

Lemma grows_same_sockets Q s s' : sockets s' = sockets s → grows Q s s'.
Proof.
  intros Hs ws. rewrite Hs. split; [reflexivity|].
  exists []. rewrite app_nil_r. split; [reflexivity|constructor].
Qed.

Lemma same_sessions_quiet Q s s' : same_sessions s s' → quiet Q s s'.
Proof.
  intros (Hs & Hc & Hb). split; [now apply grows_same_sockets|].
  split; congruence.
Qed.

Lemma quiet_grows Q s s' : quiet Q s s' → grows Q s s'.
Proof. intros [H _]. exact H. Qed.

Lemma grows_weaken (Q Q' : frame → Prop) s s' :
  (∀ f, Q f → Q' f) → grows Q s s' → grows Q' s s'.
Proof.
  intros HQ H ws. destruct (H ws) as (Hr & l & Hs & Hl).
  split; [exact Hr|]. exists l. split; [exact Hs|].
  eapply Forall_impl; eauto.
Qed.

Lemma send_grows Q ws fs :
  Q (JSON_stringify fs) → respects (grows Q) (send ws fs).
Proof.
  intros HQ s ws'. unfold send. munfold. simpl.
  destruct (is_open (readyState (sockets s ws))) eqn:E; simpl.
  - destruct (decide (ws = ws')) as [<-|Hne].
    + rewrite fn_lookup_insert. simpl. split; [reflexivity|].
      exists [JSON_stringify fs]. split; [reflexivity|]. repeat constructor. exact HQ.
    + rewrite fn_lookup_insert_ne by assumption. split; [reflexivity|].
      exists []. rewrite app_nil_r. split; [reflexivity|constructor].
  - split; [reflexivity|]. exists []. rewrite app_nil_r. split; [reflexivity|constructor].
Qed.

Lemma send_quiet Q ws fs :
  Q (JSON_stringify fs) → respects (quiet Q) (send ws fs).
Proof.
  intros HQ s. split; [apply send_grows, HQ|].
  unfold send. munfold. simpl. destruct (is_open _); split; reflexivity.
Qed.

Lemma update_feed_quiet Q f g :
  f ≠ FGlobalProperties → respects (quiet Q) (update_feed f g).
Proof.
  intros Hf s. split; [now apply grows_same_sockets|]. split; [reflexivity|].
  destruct f; try congruence; reflexivity.
Qed.

Create HintDb quiet.

(** A method that leaves the session side alone is quiet; otherwise take
    it apart. *)
Ltac quiet_auto :=
  repeat first
    [ solve [auto with quiet]
    | solve [apply (respects_impl same_sessions);
             [apply same_sessions_quiet|
              unfold timestamp; same_sessions_auto]]
    | respects_step ].

Lemma broadcast_pass_quiet Q members message :
  Q (JSON_stringify message) → respects (quiet Q) (broadcast_pass members message).
Proof.
  intros HQ. induction members as [|client rest IH]; simpl.
  - quiet_auto.
  - pose proof (send_quiet Q client message HQ). quiet_auto.
Qed.

Lemma broadcastToSubscribers_quiet Q f message :
  f ≠ FGlobalProperties → Q (JSON_stringify message) →
  respects (quiet Q) (broadcastToSubscribers f message).
Proof.
  intros Hf HQ. unfold broadcastToSubscribers.
  pose proof (broadcast_pass_quiet Q) as Hp.
  pose proof (update_feed_quiet Q f) as Hu.
  quiet_auto.
Qed.

Lemma subscription_update_other sub data ts :
  sub ≠ "global_properties" →
  other_frame (JSON_stringify (subscription_update sub data ts)).
Proof.
  intros Hne. unfold other_frame, is_gp_update, is_legacy, JSON_stringify,
    subscription_update. cbn.
  apply String.eqb_neq in Hne. rewrite Hne.
  destruct data, ts; cbn; split; reflexivity.
Qed.

Lemma processNewBlockForSubscriptions_quiet upstream blockNumber :
  respects (quiet other_frame) (processNewBlockForSubscriptions upstream blockNumber).
Proof.
  unfold processNewBlockForSubscriptions.
  assert (H : ∀ f sub data ts, f ≠ FGlobalProperties → sub ≠ "global_properties" →
              respects (quiet other_frame)
                (broadcastToSubscribers f (subscription_update sub data ts))).
  { intros. apply broadcastToSubscribers_quiet; [assumption|].
    now apply subscription_update_other. }
  quiet_auto; apply H; discriminate.
Qed.

(** ** The two broadcast loops, socket by socket *)

Lemma set_sockets_twice x y s : set_sockets x (set_sockets y s) = set_sockets x s.
Proof. reflexivity. Qed.

Lemma set_sockets_same s : set_sockets (sockets s) s = s.
Proof. destruct s; reflexivity. Qed.

Lemma send_sockets ws fs s :
  ∃ socks,
    send ws fs s = (Ok tt, set_sockets socks s)
    ∧ ∀ ws',
        readyState (socks ws') = readyState (sockets s ws')
        ∧ sent (socks ws') =
            sent (sockets s ws')
              ++ (if is_open (readyState (sockets s ws')) && Nat.eqb ws ws'
                  then [JSON_stringify fs] else []).
Proof.
  unfold send. munfold.
  destruct (is_open (readyState (sockets s ws))) eqn:E.
  - eexists. split; [reflexivity|]. intros ws'.
    destruct (Nat.eqb_spec ws ws') as [<-|Hne].
    + rewrite fn_lookup_insert, E. split; reflexivity.
    + rewrite fn_lookup_insert_ne by assumption.
      rewrite andb_false_r, app_nil_r. split; reflexivity.
  - exists (sockets s). rewrite set_sockets_same. split; [reflexivity|].
    intros ws'. split; [reflexivity|].
    destruct (Nat.eqb_spec ws ws') as [<-|Hne].
    + now rewrite E, app_nil_r.
    + now rewrite andb_false_r, app_nil_r.
Qed.

Definition count (ws : nat) (l : list nat) : nat := count_occ Nat.eq_dec l ws.

Lemma count_NoDup ws l : List.NoDup l → In ws l → count ws l = 1%nat.
Proof.
  intros Hn Hi. unfold count.
  pose proof (proj1 (NoDup_count_occ Nat.eq_dec l) Hn ws) as H1.
  pose proof (proj1 (count_occ_In Nat.eq_dec l ws) Hi) as H2. lia.
Qed.

Lemma count_notin ws l : ¬ In ws l → count ws l = 0%nat.
Proof. intros H. now apply count_occ_not_In. Qed.

Lemma set_has_In ws l : set_has ws l = true ↔ In ws l.
Proof.
  unfold set_has. rewrite existsb_exists. split.
  - intros (x & Hx & He). apply Nat.eqb_eq in He. now subst.
  - intros H. exists ws. split; [exact H|apply Nat.eqb_refl].
Qed.

(** The writing pass of [broadcastToSubscribers]: each open socket gets the
    message once per occurrence in the set; the sockets that are not open
    come back as [deadConnections]. *)
Lemma broadcast_pass_sockets members message s :
  ∃ socks,
    broadcast_pass members message s =
      (Ok (List.filter (λ c, negb (is_open (readyState (sockets s c)))) members),
       set_sockets socks s)
    ∧ ∀ ws,
        readyState (socks ws) = readyState (sockets s ws)
        ∧ sent (socks ws) =
            sent (sockets s ws)
              ++ (if is_open (readyState (sockets s ws))
                  then repeat (JSON_stringify message) (count ws members)
                  else []).
Proof.
  revert s. induction members as [|client rest IH]; intros s; cbn [broadcast_pass].
  - exists (sockets s). rewrite set_sockets_same. split; [reflexivity|].
    intros ws. split; [reflexivity|]. destruct (is_open _); now rewrite app_nil_r.
  - munfold. cbn [List.filter].
    destruct (is_open (readyState (sockets s client))) eqn:E; cbn [negb].
    + destruct (send_sockets client message s) as (socks1 & Hs1 & H1).
      rewrite Hs1.
      destruct (IH (set_sockets socks1 s)) as (socks2 & Hs2 & H2).
      rewrite Hs2. simpl. exists socks2. split.
      * f_equal. f_equal. apply filter_ext. intros c.
        now rewrite (proj1 (H1 c)).
      * intros ws. destruct (H1 ws) as [Hr1 Hq1], (H2 ws) as [Hr2 Hq2].
        simpl in Hr2, Hq2. split; [congruence|].
        rewrite Hq2, Hq1, Hr1, <- app_assoc. f_equal.
        unfold count. simpl.
        destruct (is_open (readyState (sockets s ws))); simpl; [|reflexivity].
        destruct (Nat.eq_dec client ws) as [->|Hne].
        -- now rewrite Nat.eqb_refl.
        -- apply Nat.eqb_neq in Hne. now rewrite Hne.
    + destruct (IH s) as (socks & Hs & H). rewrite Hs. simpl.
      exists socks. split; [reflexivity|].
      intros ws. destruct (H ws) as [Hr Hq]. split; [exact Hr|].
      rewrite Hq. f_equal. unfold count. simpl.
      destruct (Nat.eq_dec client ws) as [->|Hne]; [|reflexivity].
      now rewrite E.
Qed.

(** Removing the dead connections leaves the members that are open. *)
Lemma forEach_delete_feed f dead s :
  forEach dead (λ client, update_feed f (set_delete client)) s =
  (Ok tt,
   set_subscribers
     (set_feed f (fold_left (λ acc c, set_delete c acc) dead (feed f (subscribers s)))
        (subscribers s)) s).
Proof.
  revert s. induction dead as [|c dead IH]; intros s; simpl.
  - munfold. f_equal. destruct s as [? ? ? ? ? ? ? b ? ? ? ? ? ?].
    destruct f, b; reflexivity.
  - munfold. simpl. rewrite IH. simpl. f_equal.
    destruct s as [? ? ? ? ? ? ? b ? ? ? ? ? ?].
    destruct f, b; reflexivity.
Qed.

Lemma set_has_delete ws c l :
  set_has ws (set_delete c l) = set_has ws l && negb (Nat.eqb c ws).
Proof.
  unfold set_has, set_delete. induction l as [|x l IH]; simpl; [reflexivity|].
  destruct (Nat.eqb_spec c x) as [->|Hcx]; simpl.
  - rewrite IH. destruct (Nat.eqb_spec ws x) as [->|Hwx]; simpl.
    + rewrite Nat.eqb_refl. simpl. now rewrite andb_false_r.
    + reflexivity.
  - rewrite IH. destruct (Nat.eqb_spec ws x) as [->|Hwx]; simpl; [|reflexivity].
    apply Nat.eqb_neq in Hcx. now rewrite Hcx.
Qed.

Lemma set_has_fold_delete ws dead l :
  set_has ws (fold_left (λ acc c, set_delete c acc) dead l)
  = set_has ws l && negb (set_has ws dead).
Proof.
  revert l. induction dead as [|c dead IH]; intros l; simpl.
  - now rewrite andb_true_r.
  - rewrite IH, set_has_delete.
    fold (set_has ws dead).
    rewrite (Nat.eqb_sym ws c).
    destruct (set_has ws l), (Nat.eqb c ws), (set_has ws dead); reflexivity.
Qed.

Lemma set_has_filter ws (p : nat → bool) l :
  set_has ws (List.filter p l) = set_has ws l && p ws.
Proof.
  unfold set_has. induction l as [|x l IH]; simpl; [reflexivity|].
  destruct (p x) eqn:Ep; simpl; rewrite IH.
  - destruct (Nat.eqb_spec ws x) as [->|Hne]; simpl; [now rewrite Ep|reflexivity].
  - destruct (Nat.eqb_spec ws x) as [->|Hne]; simpl; [|reflexivity].
    rewrite Ep. now rewrite andb_false_r.
Qed.

Lemma feed_set_feed f x b : feed f (set_feed f x b) = x.
Proof. destruct f; reflexivity. Qed.

(** [broadcastToSubscribers], socket by socket. *)
Lemma broadcastToSubscribers_sockets f message s :
  ∃ s',
    broadcastToSubscribers f message s = (Ok tt, s')
    ∧ clients s' = clients s ∧ cache s' = cache s ∧ clock s' = clock s
    ∧ (∀ ws,
         set_has ws (feed f (subscribers s')) =
           set_has ws (feed f (subscribers s))
             && is_open (readyState (sockets s ws)))
    ∧ ∀ ws,
        readyState (sockets s' ws) = readyState (sockets s ws)
        ∧ sent (sockets s' ws) =
            sent (sockets s ws)
              ++ (if is_open (readyState (sockets s ws))
                  then repeat (JSON_stringify message)
                         (count ws (feed f (subscribers s)))
                  else []).
Proof.
  unfold broadcastToSubscribers, mbind, M_bind, gets.
  destruct (broadcast_pass_sockets (feed f (subscribers s)) message s)
    as (socks & Hp & H).
  rewrite Hp. rewrite forEach_delete_feed. simpl.
  eexists. split; [reflexivity|]. simpl. repeat split; try apply H.
  intros ws. rewrite feed_set_feed, set_has_fold_delete, set_has_filter.
  destruct (set_has ws (feed f (subscribers s))),
    (is_open (readyState (sockets s ws))); reflexivity.
Qed.

(** The legacy loop, socket by socket. *)
Lemma legacy_pass_sockets all message s :
  ∃ socks broadcastCount,
    legacy_pass all message s = (Ok broadcastCount, set_sockets socks s)
    ∧ ∀ ws,
        readyState (socks ws) = readyState (sockets s ws)
        ∧ sent (socks ws) =
            sent (sockets s ws)
              ++ (if is_open (readyState (sockets s ws))
                     && negb (set_has ws (sub_globalProperties (subscribers s)))
                  then repeat (JSON_stringify message) (count ws all)
                  else []).
Proof.
  revert s. induction all as [|client rest IH]; intros s; cbn [legacy_pass].
  - exists (sockets s), 0. rewrite set_sockets_same. split; [reflexivity|].
    intros ws. split; [reflexivity|]. destruct (_ && _); now rewrite app_nil_r.
  - munfold.
    destruct (is_open (readyState (sockets s client))
              && negb (set_has client (sub_globalProperties (subscribers s)))) eqn:E.
    + destruct (send_sockets client message s) as (socks1 & Hs1 & H1).
      rewrite Hs1.
      destruct (IH (set_sockets socks1 s)) as (socks2 & n & Hs2 & H2).
      rewrite Hs2. simpl. exists socks2, (n + 1). split; [reflexivity|].
      intros ws. destruct (H1 ws) as [Hr1 Hq1], (H2 ws) as [Hr2 Hq2].
      simpl in Hr2, Hq2. split; [congruence|].
      rewrite Hq2, Hq1, Hr1, <- app_assoc. f_equal.
      unfold count. simpl.
      destruct (Nat.eq_dec client ws) as [->|Hne].
      * rewrite Nat.eqb_refl, E. apply andb_prop in E. destruct E as [-> _].
        reflexivity.
      * apply Nat.eqb_neq in Hne. rewrite Hne, andb_false_r. reflexivity.
    + destruct (IH s) as (socks & n & Hs & H). rewrite Hs.
      exists socks, n. split; [reflexivity|].
      intros ws. destruct (H ws) as [Hr Hq]. split; [exact Hr|].
      rewrite Hq. f_equal. unfold count. simpl.
      destruct (Nat.eq_dec client ws) as [->|Hne]; [|reflexivity].
      now rewrite E.
Qed.

(** ** Poll driver: one frame per open session *)

(** The test of the poll callback, seen from the state in which the
    callback starts: the refresh succeeds, the slot is populated and the
    head block number differs from the one cached before. *)
Definition head_changed (upstream : Oracle) (s : Server) : bool :=
  match getDynamicGlobalProperties upstream s with
  | (Ok _, s1) =>
      truthy (globalProperties (cache s1))
      && strict_neq (lastGlobalUpdate (cache s1) =? lastGlobalUpdate (cache s))
           (optProp (globalProperties (cache s1)) "head_block_number")
           (optProp (globalProperties (cache s)) "head_block_number")
  | (Throw _, _) => false
  end.

Lemma processNewBlockForSubscriptions_ok upstream blockNumber s :
  ∃ s', processNewBlockForSubscriptions upstream blockNumber s = (Ok tt, s').
Proof.
  unfold processNewBlockForSubscriptions, try_catch.
  match goal with |- ∃ s', match ?m s with _ => _ end = _ => destruct (m s) as [[[]|e] s1] end;
    eexists; reflexivity.
Qed.

Lemma gp_update_is_update data ts :
  is_gp_update (JSON_stringify (subscription_update "global_properties" data ts)) = true
  ∧ is_legacy (JSON_stringify (subscription_update "global_properties" data ts)) = false.
Proof. destruct data, ts; split; reflexivity. Qed.

Lemma legacy_is_legacy data ts :
  is_gp_update (JSON_stringify (legacy_broadcast data ts)) = false
  ∧ is_legacy (JSON_stringify (legacy_broadcast data ts)) = true.
Proof. destruct data, ts; split; reflexivity. Qed.

Lemma count_frames_app p l1 l2 :
  count_frames p (l1 ++ l2) = (count_frames p l1 + count_frames p l2)%nat.
Proof. unfold count_frames. now rewrite List.filter_app, List.length_app. Qed.

Lemma count_frames_other l :
  Forall other_frame l →
  count_frames is_gp_update l = 0%nat ∧ count_frames is_legacy l = 0%nat.
Proof.
  unfold count_frames. induction 1 as [|f l [Hu Hl] _ [IH1 IH2]]; simpl.
  - split; reflexivity.
  - rewrite Hu, Hl. split; assumption.
Qed.
(** The fan-out of a new head block, for one open socket of
    [wss.clients]. *)
Lemma broadcastNewBlock_one upstream currentBlock s ws :
  List.NoDup (clients s) →
  List.NoDup (sub_globalProperties (subscribers s)) →
  In ws (clients s) →
  readyState (sockets s ws) = OPEN →
  ∃ o s' new,
    broadcastNewBlock upstream currentBlock s = (o, s')
    ∧ sent (sockets s' ws) = sent (sockets s ws) ++ new
    ∧ if set_has ws (sub_globalProperties (subscribers s))
      then count_frames is_gp_update new = 1%nat ∧ count_frames is_legacy new = 0%nat
      else count_frames is_gp_update new = 0%nat ∧ count_frames is_legacy new = 1%nat.
Proof.
  intros Hnc Hns Hin Hopen.
  set (msg1 := subscription_update "global_properties" (globalProperties (cache s))
                 (VStr (toISOString (clock s)))).
  (* the subscriber broadcast *)
  assert (∃ s2,
    when (0 <? set_size (sub_globalProperties (subscribers s)))
      (c ← gets cache; ts ← timestamp;
       broadcastToSubscribers FGlobalProperties
         (subscription_update "global_properties" (globalProperties c) ts)) s
      = (Ok tt, s2)
    ∧ clients s2 = clients s
    ∧ (∀ ws, set_has ws (sub_globalProperties (subscribers s2))
             = set_has ws (sub_globalProperties (subscribers s))
               && is_open (readyState (sockets s ws)))
    ∧ ∀ ws, readyState (sockets s2 ws) = readyState (sockets s ws)
          ∧ sent (sockets s2 ws) =
              sent (sockets s ws)
                ++ (if is_open (readyState (sockets s ws))
                    then repeat (JSON_stringify msg1)
                           (count ws (sub_globalProperties (subscribers s)))
                    else [])) as (s2 & Hrun2 & Hc2 & Hm2 & Hs2).
  { destruct (sub_globalProperties (subscribers s)) as [|x members] eqn:Em.
    - exists s. split; [reflexivity|]. split; [reflexivity|]. split.
      + intros w. rewrite Em. reflexivity.
      + intros w. split; [reflexivity|]. unfold count. simpl.
        destruct (is_open _); now rewrite app_nil_r.
    - assert (Hpos : (0 <? set_size (x :: members)) = true)
        by (unfold set_size; simpl length; apply Z.ltb_lt; lia).
      rewrite Hpos. unfold when, timestamp, now, mbind, M_bind, gets, mret, M_ret.
      destruct (broadcastToSubscribers_sockets FGlobalProperties msg1 s)
        as (s2 & Hr & Hc & _ & _ & Hm & Hs).
      exists s2. simpl in Hm, Hs. rewrite Em in Hm, Hs.
      split; [exact Hr|]. split; [exact Hc|]. split; [exact Hm|exact Hs]. }
  (* the derived feeds *)
  destruct (processNewBlockForSubscriptions_ok upstream currentBlock s2) as (s3 & Hrun3).
  pose proof (processNewBlockForSubscriptions_quiet upstream currentBlock s2) as Hq.
  rewrite Hrun3 in Hq. simpl in Hq. destruct Hq as (Hg3 & Hc3 & Hm3).
  (* the legacy broadcast *)
  set (msg2 := legacy_broadcast (globalProperties (cache s3))
                 (VStr (toISOString (clock s3)))).
  destruct (legacy_pass_sockets (clients s3) msg2 s3) as (socks4 & n & Hrun4 & Hs4).
  destruct (Hs2 ws) as [Hr2w Hs2w]. destruct (Hg3 ws) as (Hr3w & l3 & Hs3w & Hl3).
  destruct (Hs4 ws) as [Hr4w Hs4w].
  assert (∃ o, broadcastNewBlock upstream currentBlock s = (o, set_sockets socks4 s3))
    as [o Hrun].
  { unfold broadcastNewBlock.
    assert (Ha : broadcastNewBlock_subscribers s = (Ok tt, s2)) by exact Hrun2.
    unfold mbind at 1. unfold M_bind at 1. rewrite Ha.
    unfold mbind at 1. unfold M_bind at 1. rewrite Hrun3.
    unfold broadcastNewBlock_legacy, legacyBroadcast, timestamp, now, mbind, M_bind,
      gets, mret, M_ret, when, lift.
    fold msg2. rewrite Hrun4.
    destruct (0 <? n); [destruct (toStr currentBlock)|]; eexists; reflexivity. }
  exists o, (set_sockets socks4 s3).
  eexists. split; [exact Hrun|split].
  - simpl. rewrite Hs4w, Hs3w, Hs2w, <- !app_assoc. reflexivity.
  - rewrite !count_frames_app.
    destruct (count_frames_other l3 Hl3) as [-> ->].
    rewrite Hr3w, Hr2w, Hm3, Hm2, Hc3, Hc2, Hopen. simpl is_open.
    rewrite andb_true_r, (count_NoDup ws (clients s)) by assumption.
    destruct (gp_update_is_update (globalProperties (cache s))
                (VStr (toISOString (clock s)))) as [Hu1 Hu2].
    destruct (legacy_is_legacy (globalProperties (cache s3))
                (VStr (toISOString (clock s3)))) as [Hl1 Hl2].
    fold msg1 in Hu1, Hu2. fold msg2 in Hl1, Hl2.
    destruct (set_has ws (sub_globalProperties (subscribers s))) eqn:Eh.
    + apply set_has_In in Eh. rewrite (count_NoDup _ _ Hns Eh).
      unfold count_frames. cbn [repeat List.filter negb andb].
      rewrite Hu1, Hu2. split; reflexivity.
    + assert (Hnot : ¬ In ws (sub_globalProperties (subscribers s))).
      { intros Hi. apply set_has_In in Hi. congruence. }
      rewrite (count_notin _ _ Hnot).
      unfold count_frames. cbn [repeat List.filter negb andb].
      rewrite Hl1, Hl2. split; reflexivity.
Qed.


(** X21.  A poll callback that runs through without another handler
    running while it awaits the endpoints, and that sees a new head block,
    writes to every open socket of [wss.clients] exactly one of the two
    frames of that change: a member of the head-state subscriber set gets
    the [subscription_update] for [global_properties] and no legacy
    broadcast, any other socket gets the legacy broadcast and no such
    update.  The derived feeds in between send neither frame. *)
Theorem poll_exactly_one upstream s ws :
  head_changed upstream s = true →
  List.NoDup (clients s) →
  List.NoDup (sub_globalProperties (subscribers s)) →
  In ws (clients s) →
  readyState (sockets s ws) = OPEN →
  ∃ new,
    sent (sockets (exec (periodicUpdate upstream) s) ws) = sent (sockets s ws) ++ new
    ∧ if set_has ws (sub_globalProperties (subscribers s))
      then count_frames is_gp_update new = 1%nat ∧ count_frames is_legacy new = 0%nat
      else count_frames is_gp_update new = 0%nat ∧ count_frames is_legacy new = 1%nat.
Proof.
  intros Hch Hnc Hns Hin Hopen. unfold head_changed in Hch.
  pose proof (getDynamicGlobalProperties_sessions upstream s) as (Hs1 & Hc1 & Hb1).
  destruct (getDynamicGlobalProperties upstream s) as [[v|e] s1] eqn:Eg;
    [|discriminate].
  simpl in Hs1, Hc1, Hb1.
  destruct (broadcastNewBlock_one upstream
              (optProp (globalProperties (cache s1)) "head_block_number") s1 ws)
    as (o & s' & new & Hrun & Hsent & Hcount).
  { now rewrite Hc1. } { now rewrite Hb1. } { now rewrite Hc1. } { now rewrite Hs1. }
  exists new. rewrite Hs1, Hb1 in *. split; [|exact Hcount].
  rewrite <- Hsent.
  replace (sockets (exec (periodicUpdate upstream) s)) with (sockets s');
    [reflexivity|].
  unfold periodicUpdate, exec, try_catch.
  unfold mbind at 1 2 3 4. unfold M_bind at 1 2 3 4. unfold gets at 1 2 3.
  rewrite Eg. cbv beta iota. rewrite Hch. unfold when. rewrite Hrun.
  destruct o; reflexivity.
Qed.

(** ** A socket's log only grows *)

(** [appends_on ws s s']: what was written to [ws] up to [s] is a prefix of
    what was written up to [s']. *)
Definition appends_on (ws : nat) : relation Server := λ s s',
  ∃ l, sent (sockets s' ws) = sent (sockets s ws) ++ l.

#[global] Instance appends_on_preorder ws : PreOrder (appends_on ws).
Proof.
  split.
  - intros s. exists []. now rewrite app_nil_r.
  - intros s1 s2 s3 [l1 H1] [l2 H2]. exists (l1 ++ l2).
    now rewrite H2, H1, app_assoc.
Qed.

Lemma appends_on_same_sockets ws s s' : sockets s' = sockets s → appends_on ws s s'.
Proof. intros H. exists []. now rewrite H, app_nil_r. Qed.

Lemma same_sessions_appends ws s s' : same_sessions s s' → appends_on ws s s'.
Proof. intros (H & _). now apply appends_on_same_sockets. Qed.

Lemma send_appends ws ws' fs : respects (appends_on ws) (send ws' fs).
Proof.
  intros s. destruct (send_sockets ws' fs s) as (socks & Hs & H).
  rewrite Hs. simpl. destruct (H ws) as [_ Hq]. eexists. exact Hq.
Qed.

Lemma update_feed_appends ws f g : respects (appends_on ws) (update_feed f g).
Proof. intros s. now apply appends_on_same_sockets. Qed.

(** An update of a socket that keeps its log. *)
Lemma update_socket_appends ws ws' f :
  (∀ w, sent (f w) = sent w) → respects (appends_on ws) (update_socket ws' f).
Proof.
  intros Hf s. exists []. rewrite app_nil_r.
  unfold update_socket, modify, set_sockets. cbn [snd sockets].
  destruct (decide (ws' = ws)) as [->|Hne].
  - now rewrite fn_lookup_insert.
  - now rewrite fn_lookup_insert_ne.
Qed.

Create HintDb appends.
#[global] Hint Resolve send_appends update_feed_appends : appends.

Ltac appends_auto :=
  repeat first
    [ solve [auto with appends]
    | solve [apply (respects_impl same_sessions);
             [apply same_sessions_appends|
              unfold timestamp; same_sessions_auto]]
    | respects_step ].

Lemma broadcast_pass_appends ws members message :
  respects (appends_on ws) (broadcast_pass members message).
Proof. induction members as [|client rest IH]; simpl; appends_auto. Qed.
#[global] Hint Resolve broadcast_pass_appends : appends.

Lemma broadcastToSubscribers_appends ws f message :
  respects (appends_on ws) (broadcastToSubscribers f message).
Proof. unfold broadcastToSubscribers. appends_auto. Qed.
#[global] Hint Resolve broadcastToSubscribers_appends : appends.

Lemma getActiveWitnesses_appends ws upstream :
  respects (appends_on ws) (getActiveWitnesses upstream).
Proof. unfold getActiveWitnesses. appends_auto. Qed.
#[global] Hint Resolve getActiveWitnesses_appends : appends.

Lemma dispatch_appends ws upstream ws' id method params :
  respects (appends_on ws) (dispatch upstream ws' id method params).
Proof.
  unfold dispatch, subscribe, unsubscribe, getTransaction, getTicker, getOrderBook,
    getRecentTrades, getAccounts, getMarketHistory, getAccountHistory,
    getWitnessesByVote, getVestingDelegations.
  appends_auto.
Qed.
#[global] Hint Resolve dispatch_appends : appends.

Lemma handleMessage_appends ws upstream ws' data :
  respects (appends_on ws) (handleMessage upstream ws' data).
Proof. unfold handleMessage, handleMessage_catch. appends_auto. Qed.
#[global] Hint Resolve handleMessage_appends : appends.

Lemma processQueue_pass_appends ws upstream :
  respects (appends_on ws) (processQueue_pass upstream).
Proof. unfold processQueue_pass. appends_auto. Qed.
#[global] Hint Resolve processQueue_pass_appends : appends.

Lemma processNewBlockForSubscriptions_appends ws upstream blockNumber :
  respects (appends_on ws) (processNewBlockForSubscriptions upstream blockNumber).
Proof. unfold processNewBlockForSubscriptions. appends_auto. Qed.
#[global] Hint Resolve processNewBlockForSubscriptions_appends : appends.

Lemma periodicUpdate_appends ws upstream :
  respects (appends_on ws) (periodicUpdate upstream).
Proof.
  unfold periodicUpdate, broadcastNewBlock, broadcastNewBlock_subscribers,
    broadcastNewBlock_legacy, legacyBroadcast.
  appends_auto.
Qed.

Lemma enqueue_appends ws upstream ws' message :
  respects (appends_on ws) (enqueue upstream ws' message).
Proof.
  unfold enqueue, processQueue.
  appends_auto; apply respects_modify; intros ?; now apply appends_on_same_sockets.
Qed.
#[global] Hint Resolve enqueue_appends : appends.

Lemma onMessage_appends ws upstream ws' message :
  respects (appends_on ws) (onMessage upstream ws' message).
Proof.
  unfold onMessage.
  appends_auto; apply update_socket_appends; intros []; reflexivity.
Qed.

Lemma update_socket_other ws ws' f :
  ws' ≠ ws → respects (appends_on ws) (update_socket ws' f).
Proof.
  intros Hne s. exists []. rewrite app_nil_r.
  unfold update_socket, modify, set_sockets. cbn [snd sockets].
  now rewrite fn_lookup_insert_ne.
Qed.

Lemma handler_appends ws upstream i :
  i ≠ Connection ws → respects (appends_on ws) (handler upstream i).
Proof.
  intros Hi. destruct i as [ws'|ws' message|ws'| | |]; cbn [handler].
  - assert (ws' ≠ ws) by congruence.
    pose proof (update_socket_other ws ws').
    unfold onConnection.
    appends_auto; try (apply respects_modify; intros ?; now apply appends_on_same_sockets);
      auto.
  - apply onMessage_appends.
  - unfold onClose.
    appends_auto; try (apply respects_modify; intros ?; now apply appends_on_same_sockets).
    apply update_socket_appends. intros []; reflexivity.
  - unfold processQueue_resume.
    appends_auto; apply respects_modify; intros ?; now apply appends_on_same_sockets.
  - apply periodicUpdate_appends.
  - unfold healthCheck. appends_auto.
Qed.

Lemma run_appends ws upstream inputs s :
  Forall (λ ti : Z * Input, ti.2 ≠ Connection ws) inputs →
  appends_on ws s (run upstream s inputs).
Proof.
  intros H. revert s. induction H as [|ti inputs Hi _ IH]; intros s; simpl.
  - reflexivity.
  - etransitivity; [|apply IH].
    unfold step. pose proof (handler_appends ws upstream ti.2 Hi) as Hh.
    destruct (Hh (set_clock (Z.max (clock s) ti.1) s)) as [l Hl].
    exists l. exact Hl.
Qed.

(** ** Subscribing delivers the cached snapshot *)

Lemma subscribe_global_properties_run upstream ws id params s :
  readyState (sockets s ws) = OPEN →
  truthy (globalProperties (cache s)) = true →
  ∃ s',
    handleMessage upstream ws (request id "subscribe_global_properties" params) s
      = (Ok tt, s')
    ∧ sent (sockets s' ws) =
        sent (sockets s ws)
          ++ [ JSON_stringify (subscription_ack id "subscribed" "global_properties");
               JSON_stringify
                 (subscription_update "global_properties"
                    (globalProperties (cache s)) (VStr (toISOString (clock s)))) ].
Proof.
  intros Hopen Hgp.
  unfold handleMessage, request, dispatch; cbn -[send is_method subscribe]; decide_method.
  unfold subscribe, send. munfold. cbn -[JSON_stringify].
  rewrite Hopen. cbn -[JSON_stringify]. rewrite Hgp. cbn -[JSON_stringify].
  rewrite fn_lookup_insert. cbn -[JSON_stringify]. rewrite Hopen.
  eexists. split; [reflexivity|]. cbn -[JSON_stringify].
  rewrite fn_lookup_insert. cbn -[JSON_stringify]. now rewrite <- app_assoc.
Qed.

Lemma subscribe_witnesses_run upstream ws id params s :
  readyState (sockets s ws) = OPEN →
  truthy (activeWitnesses (cache s)) = true →
  ∃ s',
    handleMessage upstream ws (request id "subscribe_witnesses" params) s
      = (Ok tt, s')
    ∧ sent (sockets s' ws) =
        sent (sockets s ws)
          ++ [ JSON_stringify (subscription_ack id "subscribed" "witnesses");
               JSON_stringify
                 (subscription_update "witnesses"
                    (activeWitnesses (cache s)) (VStr (toISOString (clock s)))) ].
Proof.
  intros Hopen Hgp.
  unfold handleMessage, request, dispatch; cbn -[send is_method subscribe]; decide_method.
  unfold subscribe, send. munfold. cbn -[JSON_stringify].
  rewrite Hopen. cbn -[JSON_stringify]. rewrite Hgp. cbn -[JSON_stringify].
  rewrite fn_lookup_insert. cbn -[JSON_stringify]. rewrite Hopen.
  eexists. split; [reflexivity|]. cbn -[JSON_stringify].
  rewrite fn_lookup_insert. cbn -[JSON_stringify]. now rewrite <- app_assoc.
Qed.

(** The acknowledgement and the snapshot that follows it. *)
Definition snapshot_frames (id : value) (feed_name : string) (data : value) (t : Z)
    : list frame :=
  [ JSON_stringify (subscription_ack id "subscribed" feed_name);
    JSON_stringify (subscription_update feed_name data (VStr (toISOString t))) ].

(** C7.  A [subscribe_global_properties] request on an open socket, with
    the head-state slot populated, is answered by the acknowledgement
    [{id, result: {subscribed: true, type: "global_properties"}, type:
    "response"}] immediately followed by a [subscription_update] carrying the
    cached head state; likewise [subscribe_witnesses] with the witness
    slot.  The two frames are adjacent in what the socket is sent, and
    whatever the server writes to it afterwards, in particular the next
    periodic fan-out, comes after them. *)
Theorem subscribe_sends_snapshot upstream ws id params s :
  readyState (sockets s ws) = OPEN →
  (truthy (globalProperties (cache s)) = true →
   ∃ s',
     handleMessage upstream ws (request id "subscribe_global_properties" params) s
       = (Ok tt, s')
     ∧ sent (sockets s' ws) =
         sent (sockets s ws)
           ++ snapshot_frames id "global_properties" (globalProperties (cache s))
                (clock s)
     ∧ ∀ inputs,
         Forall (λ ti : Z * Input, ti.2 ≠ Connection ws) inputs →
         ∃ later,
           sent (sockets (run upstream s' inputs) ws) =
             sent (sockets s ws)
               ++ snapshot_frames id "global_properties"
                    (globalProperties (cache s)) (clock s)
               ++ later)
  ∧ (truthy (activeWitnesses (cache s)) = true →
     ∃ s',
       handleMessage upstream ws (request id "subscribe_witnesses" params) s
         = (Ok tt, s')
       ∧ sent (sockets s' ws) =
           sent (sockets s ws)
             ++ snapshot_frames id "witnesses" (activeWitnesses (cache s)) (clock s)
       ∧ ∀ inputs,
           Forall (λ ti : Z * Input, ti.2 ≠ Connection ws) inputs →
           ∃ later,
             sent (sockets (run upstream s' inputs) ws) =
               sent (sockets s ws)
                 ++ snapshot_frames id "witnesses" (activeWitnesses (cache s))
                      (clock s)
                 ++ later).
Proof.
  intros Hopen. split; intros Hslot.
  - destruct (subscribe_global_properties_run upstream ws id params s Hopen Hslot)
      as (s' & Hrun & Hsent).
    exists s'. split; [exact Hrun|]. split; [exact Hsent|].
    intros inputs Hin. destruct (run_appends ws upstream inputs s' Hin) as [later Hl].
    exists later. rewrite Hl, Hsent. now rewrite <- app_assoc.
  - destruct (subscribe_witnesses_run upstream ws id params s Hopen Hslot)
      as (s' & Hrun & Hsent).
    exists s'. split; [exact Hrun|]. split; [exact Hsent|].
    intros inputs Hin. destruct (run_appends ws upstream inputs s' Hin) as [later Hl].
    exists later. rewrite Hl, Hsent. now rewrite <- app_assoc.
Qed.

(** ** Error frames *)

Definition has_key (k : string) (f : frame) : bool :=
  match assoc k f with Some _ => true | None => false end.

Definition is_string (v : option value) : bool :=
  match v with Some (VStr _) => true | _ => false end.

(** The error frame of the wire protocol:
    [{ id, type: "error", error: <string>, method: <string> }]. *)
Definition error_shape (f : frame) : bool :=
  has_key "id" f
  && match assoc "type" f with
     | Some (VStr t) => String.eqb t "error"
     | _ => false
     end
  && is_string (assoc "error" f)
  && is_string (assoc "method" f).

Definition keys (f : frame) : list string := fst <$> f.

(** From [s] to [s'] the socket [ws] is written the frame [f] and nothing
    else, and no socket changes state. *)
Definition replies_with (ws : nat) (f : frame) (s s' : Server) : Prop :=
  sent (sockets s' ws) = sent (sockets s ws) ++ [f]
  ∧ ∀ ws', readyState (sockets s' ws') = readyState (sockets s ws').

(** The method names the dispatcher knows. *)
Definition supported_methods : list string :=
  [ "condenser_api.get_dynamic_global_properties"; "get_dynamic_global_properties";
    "condenser_api.get_block_header"; "get_block_header";
    "condenser_api.get_block"; "get_block";
    "condenser_api.get_ops_in_block"; "get_ops_in_block";
    "condenser_api.get_active_witnesses"; "get_active_witnesses";
    "condenser_api.get_transaction"; "get_transaction";
    "market_history_api.get_ticker"; "get_ticker";
    "market_history_api.get_order_book"; "get_order_book";
    "market_history_api.get_recent_trades"; "get_recent_trades";
    "condenser_api.get_accounts"; "get_accounts";
    "market_history_api.get_market_history"; "get_market_history";
    "condenser_api.get_account_history"; "get_account_history";
    "condenser_api.get_witnesses_by_vote"; "get_witnesses_by_vote";
    "condenser_api.get_vesting_delegations"; "get_vesting_delegations";
    "subscribe_global_properties"; "unsubscribe_global_properties";
    "subscribe_blocks"; "unsubscribe_blocks";
    "subscribe_block_headers"; "unsubscribe_block_headers";
    "subscribe_operations"; "unsubscribe_operations";
    "subscribe_witnesses"; "unsubscribe_witnesses" ].

Lemma send_replies ws fs s :
  readyState (sockets s ws) = OPEN →
  replies_with ws (JSON_stringify fs) s (exec (send ws fs) s).
Proof.
  intros Hopen. destruct (send_sockets ws fs s) as (socks & Hs & H).
  unfold exec. rewrite Hs. unfold replies_with, set_sockets. cbn [snd sockets]. split.
  - destruct (H ws) as [_ Hq]. now rewrite Hq, Hopen, Nat.eqb_refl.
  - intros ws'. apply H.
Qed.

Lemma replies_with_after ws f s0 s s' :
  sockets s = sockets s0 → replies_with ws f s s' → replies_with ws f s0 s'.
Proof. intros H [H1 H2]. split; [now rewrite <- H|]. intros ws'. now rewrite <- H. Qed.

(** What the [catch] block of [handleMessage] writes. *)
Lemma handleMessage_catch_replies ws id method error s :
  readyState (sockets s ws) = OPEN →
  printable (js_or method (VStr "unknown_method")) = true →
  printable (js_or id (VStr "unknown")) = true →
  ∃ s',
    handleMessage_catch ws id method error s = (Ok tt, s')
    ∧ replies_with ws
        (JSON_stringify
           (error_frame (js_or id (VStr "unknown")) (errorMessage_of error)
              (js_or method (VStr "unknown_method")))) s s'.
Proof.
  intros Hopen Hpm Hpi. unfold handleMessage_catch, printable in *.
  unfold mbind at 1 2. unfold M_bind at 1 2. unfold lift.
  destruct (toStr (js_or method _)); [|discriminate Hpm].
  destruct (toStr (js_or id _)); [|discriminate Hpi].
  destruct (includes "network" (errorMessage_of error)
            || includes "timeout" (errorMessage_of error)).
  - cbn [when]. unfold mbind, M_bind.
    destruct (switchNode s) as [[[]|e] s1] eqn:Es; [|discriminate Es].
    pose proof (switchNode_sessions s) as (Hsock & _). rewrite Es in Hsock.
    simpl in Hsock. rewrite send_ok. eexists. split; [reflexivity|].
    apply (replies_with_after _ _ s s1); [exact Hsock|].
    apply send_replies. now rewrite Hsock.
  - cbn [when]. unfold mbind, M_bind, mret, M_ret. rewrite send_ok.
    eexists. split; [reflexivity|]. now apply send_replies.
Qed.

Lemma wire_js_or_defined a b : b ≠ VUndef → wire b = b → truthy b = true →
  wire (js_or a b) ≠ VUndef.
Proof.
  intros Hb Hw Ht. unfold js_or. destruct (truthy a) eqn:E.
  - destruct a; simpl in *; congruence.
  - now rewrite Hw.
Qed.

(** The shape of the frame of the [catch] block. *)
Lemma error_frame_wire id msg method :
  truthy method = true →
  let f := JSON_stringify (error_frame (js_or id (VStr "unknown")) msg method) in
  f = [ ("id", wire (js_or id (VStr "unknown"))); ("error", VStr msg);
        ("type", VStr "error"); ("method", wire method) ]
  ∧ (∀ m, method = VStr m → error_shape f = true).
Proof.
  intros Hm. cbv zeta.
  assert (Hf : JSON_stringify (error_frame (js_or id (VStr "unknown")) msg method)
               = [ ("id", wire (js_or id (VStr "unknown"))); ("error", VStr msg);
                   ("type", VStr "error"); ("method", wire method) ]).
  { unfold JSON_stringify, error_frame, js_or.
    destruct (truthy id) eqn:Ei.
    - destruct id; try discriminate Ei; destruct method; try discriminate Hm; reflexivity.
    - destruct method; try discriminate Hm; reflexivity. }
  split; [exact Hf|]. intros m ->. rewrite Hf. unfold error_shape, has_key. reflexivity.
Qed.

(** The server after the counting that opens the ["message"] handler. *)
Definition counted (ws : nat) (s : Server) : Server :=
  set_sockets (<[ws := (rate_check (clock s) (sockets s ws)).1]> (sockets s)) s.

Lemma fn_insert_insert {A} (f : nat → A) i x y j :
  <[i := y]> (<[i := x]> f) j = <[i := y]> f j.
Proof.
  destruct (decide (i = j)) as [->|Hne].
  - now rewrite !fn_lookup_insert.
  - now rewrite !fn_lookup_insert_ne.
Qed.

(** The ["message"] handler is the rate check followed by the refusal or by
    the [try] block; sockets are compared point by point. *)
Lemma onMessage_rate_check upstream ws message s :
  ∃ s1,
    (∀ ws', sockets s1 ws' = sockets (counted ws s) ws')
    ∧ set_sockets (sockets s) s1 = s
    ∧ onMessage upstream ws message s =
        if (rate_check (clock s) (sockets s ws)).2
        then enqueue upstream ws message s1
        else send ws (rate_limit_frame (lastReset (sockets s1 ws))) s1.
Proof.
  unfold onMessage, rate_check, counted. munfold. cbn -[send enqueue].
  destruct (60000 <? clock s - lastReset (sockets s ws)) eqn:E; cbn -[send enqueue].
  - set (w1 := set_lastReset (clock s) (set_messageCount 0 (sockets s ws))).
    exists (set_sockets
              (<[ws := set_messageCount (messageCount w1 + 1) w1]>
                 (<[ws := w1]> (sockets s))) s).
    split; [|split].
    + intros ws'. cbn [sockets set_sockets]. rewrite fn_insert_insert. reflexivity.
    + destruct s; reflexivity.
    + cbn [sockets set_sockets]. rewrite !fn_lookup_insert. subst w1. cbn -[send enqueue].
      destruct (maxMessagesPerMinute (sockets s ws) <? 0 + 1); reflexivity.
  - exists (set_sockets
              (<[ws := set_messageCount (messageCount (sockets s ws) + 1) (sockets s ws)]>
                 (sockets s)) s).
    split; [|split].
    + intros ws'. reflexivity.
    + destruct s; reflexivity.
    + cbn [sockets set_sockets]. rewrite !fn_lookup_insert. cbn -[send enqueue].
      destruct (maxMessagesPerMinute (sockets s ws) <? messageCount (sockets s ws) + 1);
        reflexivity.
Qed.

Lemma rate_check_sent t w : sent (rate_check t w).1 = sent w.
Proof. unfold rate_check. simpl. destruct (60000 <? t - lastReset w); reflexivity. Qed.

Lemma rate_check_readyState t w : readyState (rate_check t w).1 = readyState w.
Proof. unfold rate_check. simpl. destruct (60000 <? t - lastReset w); reflexivity. Qed.

Lemma counted_sent ws s ws' : sent (sockets (counted ws s) ws') = sent (sockets s ws').
Proof.
  unfold counted. cbn [sockets set_sockets].
  destruct (decide (ws = ws')) as [->|Hne].
  - rewrite fn_lookup_insert. apply rate_check_sent.
  - now rewrite fn_lookup_insert_ne.
Qed.

Lemma counted_readyState ws s ws' :
  readyState (sockets (counted ws s) ws') = readyState (sockets s ws').
Proof.
  unfold counted. cbn [sockets set_sockets].
  destruct (decide (ws = ws')) as [->|Hne].
  - rewrite fn_lookup_insert. apply rate_check_readyState.
  - now rewrite fn_lookup_insert_ne.
Qed.

Lemma replies_with_from ws f s0 s s' :
  (∀ ws', sent (sockets s ws') = sent (sockets s0 ws')
          ∧ readyState (sockets s ws') = readyState (sockets s0 ws')) →
  replies_with ws f s s' → replies_with ws f s0 s'.
Proof.
  intros H [H1 H2]. split.
  - rewrite H1. now rewrite (proj1 (H ws)).
  - intros ws'. rewrite H2. apply H.
Qed.

Lemma set_sockets_send ws fs socks s :
  set_sockets socks (exec (send ws fs) s) = set_sockets socks s.
Proof. unfold exec, send, modify. simpl. destruct (is_open _); reflexivity. Qed.

Lemma rate_limit_frame_wire r : JSON_stringify (rate_limit_frame r) = rate_limit_frame r.
Proof. reflexivity. Qed.

(** A frame beyond the cap: the refusal is written, the counters move, and
    nothing else in the server changes. *)
Lemma onMessage_limited upstream ws message s :
  readyState (sockets s ws) = OPEN →
  (rate_check (clock s) (sockets s ws)).2 = false →
  ∃ s',
    onMessage upstream ws message s = (Ok tt, s')
    ∧ replies_with ws
        (rate_limit_frame (lastReset (rate_check (clock s) (sockets s ws)).1)) s s'
    ∧ set_sockets (sockets s) s' = s.
Proof.
  intros Hopen Hpass.
  destruct (onMessage_rate_check upstream ws message s) as (s1 & Hs1 & Hrest & Hrun).
  rewrite Hpass in Hrun. rewrite send_ok in Hrun.
  eexists. split; [exact Hrun|]. split.
  - apply (replies_with_from _ _ s s1).
    + intros ws'. rewrite Hs1. split; [apply counted_sent|apply counted_readyState].
    + rewrite <- rate_limit_frame_wire.
      replace (rate_check (clock s) (sockets s ws)).1 with (sockets s1 ws).
      * apply send_replies. now rewrite Hs1, counted_readyState.
      * rewrite Hs1. unfold counted. cbn [sockets set_sockets].
        now rewrite fn_lookup_insert.
  - now rewrite set_sockets_send.
Qed.

(** The two refusals of the [try] block. *)
Lemma enqueue_queue_full upstream ws data s :
  readyState (sockets s ws) = OPEN →
  maxQueueSize ≤ Z.of_nat (length (requestQueue s)) →
  ∃ s',
    enqueue upstream ws (Ok data) s = (Ok tt, s')
    ∧ replies_with ws queue_full_frame s s'
    ∧ set_sockets (sockets s) s' = s.
Proof.
  intros Hopen Hfull. unfold enqueue. munfold.
  apply Z.ltb_ge in Hfull. rewrite Hfull. rewrite send_ok.
  eexists. split; [reflexivity|]. split.
  - change queue_full_frame with (JSON_stringify queue_full_frame) at 1.
    now apply send_replies.
  - rewrite set_sockets_send. destruct s; reflexivity.
Qed.

Lemma enqueue_invalid upstream ws error s :
  readyState (sockets s ws) = OPEN →
  ∃ s',
    enqueue upstream ws (Throw error) s = (Ok tt, s')
    ∧ replies_with ws (invalid_json_frame error) s s'
    ∧ set_sockets (sockets s) s' = s.
Proof.
  intros Hopen. unfold enqueue. munfold. rewrite send_ok.
  eexists. split; [reflexivity|]. split.
  - change (invalid_json_frame error) with (JSON_stringify (invalid_json_frame error)) at 1.
    now apply send_replies.
  - rewrite set_sockets_send. destruct s; reflexivity.
Qed.

(** A frame without a method. *)
Lemma handleMessage_no_method upstream ws data s :
  data ≠ VUndef → data ≠ VNull →
  truthy (getProp data "method") = false →
  readyState (sockets s ws) = OPEN →
  ∃ s',
    handleMessage upstream ws data s = (Ok tt, s')
    ∧ replies_with ws
        (match wire (getProp data "id") with
         | VUndef => []
         | id => [("id", id)]
         end ++ [ ("error", VStr "Method is required"); ("type", VStr "error") ])
        s s'
    ∧ set_sockets (sockets s) s' = s.
Proof.
  intros Hu Hn Hm Hopen.
  assert (handleMessage upstream ws data s =
          send ws [ ("id", getProp data "id"); ("error", VStr "Method is required");
                    ("type", VStr "error") ] s) as ->.
  { destruct data; try congruence; unfold handleMessage; rewrite Hm; reflexivity. }
  rewrite send_ok. eexists. split; [reflexivity|]. split.
  - match goal with |- replies_with _ ?f _ _ =>
      replace f with (JSON_stringify [ ("id", getProp data "id");
                                      ("error", VStr "Method is required");
                                      ("type", VStr "error") ])
    end.
    + now apply send_replies.
    + unfold JSON_stringify. destruct (getProp data "id"); reflexivity.
  - rewrite set_sockets_send. destruct s; reflexivity.
Qed.

(** An unknown method name reaches the [default] case. *)
Lemma dispatch_unsupported upstream ws id m params s :
  ¬ In m supported_methods →
  dispatch upstream ws id (VStr m) params s =
  (Throw (Error ("Unsupported method: " +:+ m)), s).
Proof.
  intros Hm. unfold dispatch.
  repeat match goal with
  | |- context [is_method m ?b ?a] =>
      let E := fresh "E" in
      destruct (is_method m b a) eqn:E;
      [exfalso; apply Hm; unfold is_method in E; apply orb_prop in E;
       destruct E as [E|E]; apply String.eqb_eq in E; subst m;
       vm_compute; tauto|]
  | |- context [String.eqb m ?b] =>
      let E := fresh "E" in
      destruct (String.eqb m b) eqn:E;
      [exfalso; apply Hm; apply String.eqb_eq in E; subst m; vm_compute; tauto|]
  end.
  reflexivity.
Qed.

Lemma handleMessage_caught upstream ws data s0 error s :
  let id := getProp data "id" in
  let method := getProp data "method" in
  let params := match getProp data "params" with VUndef => VArr [] | p => p end in
  truthy method = true →
  printable method = true →
  printable (js_or id (VStr "unknown")) = true →
  dispatch upstream ws id method params s0 = (Throw error, s) →
  readyState (sockets s ws) = OPEN →
  ∃ s',
    handleMessage upstream ws data s0 = (Ok tt, s')
    ∧ replies_with ws
        [ ("id", wire (js_or id (VStr "unknown")));
          ("error", VStr (errorMessage_of error));
          ("type", VStr "error");
          ("method", wire method) ] s s'.
Proof.
  intros id method params Hm Hpm Hpi Hd Hopen.
  assert (Hem : js_or method (VStr "unknown_method") = method)
    by (unfold js_or; now rewrite Hm).
  destruct (handleMessage_catch_replies ws id method error s Hopen) as (s' & Hc & Hr);
    [now rewrite Hem|exact Hpi|].
  exists s'. split.
  - destruct data; try discriminate Hm.
    unfold handleMessage. fold id method params. rewrite Hm. cbn [negb].
    unfold printable in Hpm. unfold mbind at 1. unfold M_bind at 1. unfold lift.
    destruct (toStr method); [|discriminate Hpm].
    unfold try_catch, mbind, M_bind. rewrite Hd. exact Hc.
  - unfold js_or at 2 in Hr. rewrite Hm in Hr.
    destruct (error_frame_wire id (errorMessage_of error) method Hm) as [Hf _].
    cbv zeta in Hf. rewrite Hf in Hr. exact Hr.
Qed.

(** The log line of a request whose method cannot be printed throws
    before the [try] block is entered. *)
Lemma handleMessage_unprintable_method upstream ws data s e :
  truthy (getProp data "method") = true →
  toStr (getProp data "method") = Throw e →
  handleMessage upstream ws data s = (Throw e, s).
Proof.
  intros Hm He. destruct data; try discriminate Hm.
  unfold handleMessage. rewrite Hm. cbn [negb].
  unfold mbind at 1. unfold M_bind at 1. unfold lift. now rewrite He.
Qed.

(** The log line of the [catch] block throws on an id that cannot be
    printed, before the frame is sent. *)
Lemma handleMessage_unprintable_id upstream ws data s0 error s e :
  let id := getProp data "id" in
  let method := getProp data "method" in
  let params := match getProp data "params" with VUndef => VArr [] | p => p end in
  truthy method = true →
  printable method = true →
  dispatch upstream ws id method params s0 = (Throw error, s) →
  toStr (js_or id (VStr "unknown")) = Throw e →
  handleMessage upstream ws data s0 = (Throw e, s).
Proof.
  intros id method params Hm Hpm Hd He.
  assert (Hem : js_or method (VStr "unknown_method") = method)
    by (unfold js_or; now rewrite Hm).
  destruct data; try discriminate Hm.
  unfold handleMessage. fold id method params. rewrite Hm. cbn [negb].
  unfold printable in Hpm. unfold mbind at 1. unfold M_bind at 1. unfold lift.
  destruct (toStr method) eqn:Et; [|discriminate Hpm].
  unfold try_catch, mbind, M_bind. rewrite Hd.
  unfold handleMessage_catch. rewrite Hem.
  unfold mbind, M_bind, lift. now rewrite Et, He.
Qed.

Lemma dispatch_missing_block upstream ws id m p0 rest s :
  In m block_methods → truthy p0 = false →
  dispatch upstream ws id (VStr m) (VArr (p0 :: rest)) s
  = (Throw (Error "Block number is required"), s).
Proof.
  intros Hm Hp. unfold block_methods in Hm. simpl in Hm.
  repeat (destruct Hm as [<-|Hm];
          [unfold dispatch; decide_method; munfold; cbn; rewrite Hp; reflexivity|]).
  destruct Hm.
Qed.

Lemma dispatch_upstream_failure upstream ws id params error s s1 :
  callSteemAPI upstream "getTicker" params s = (Throw error, s1) →
  dispatch upstream ws id (VStr "get_ticker") params s = (Throw error, s1).
Proof.
  intros H. unfold dispatch; decide_method. unfold getTicker, mbind, M_bind.
  now rewrite H.
Qed.

(** C2 (amended).  An error kind that is answered is answered by one frame
    with [type: "error"] and a string [error], and no socket changes state:
    the connection stays open.  The frame carries [id] and [method] only
    when it comes from the [catch] block of the dispatcher, which serves
    whatever the dispatch throws: an unsupported method, a missing argument,
    an upstream failure.  There [id] is the request's, or ["unknown"] when
    that is falsy, and [method] is the request's.  That block answers when
    its log line can print the method and the id: every string, number,
    boolean, and every object or array without a [toString] key of its own.
    A method that cannot be printed makes the log line before the [try]
    block throw, an id that cannot be printed the log line of the [catch]
    block; in both cases [handleMessage] throws and no frame is sent.  A
    frame without a method gets [{id, error, type}], with [id] left out when
    the request has none.  The three refusals of the front-end carry neither
    [id] nor [method]: the rate limit sends [{type, error, rateLimitReset}],
    a full queue [{type, error}], unparsable text [{type, error,
    message}]. *)
Theorem error_frames upstream ws s :
  readyState (sockets s ws) = OPEN →
  (* rate-limited *)
  (∀ message,
     (rate_check (clock s) (sockets s ws)).2 = false →
     ∃ s',
       onMessage upstream ws message s = (Ok tt, s')
       ∧ replies_with ws
           [ ("type", VStr "error");
             ("error", VStr "Rate limit exceeded. Max 2000 messages per minute.");
             ("rateLimitReset",
               VStr (toISOString
                       (lastReset (rate_check (clock s) (sockets s ws)).1 + 60000))) ]
           s s')
  (* queue-full *)
  ∧ (∀ data,
       maxQueueSize ≤ Z.of_nat (length (requestQueue s)) →
       ∃ s',
         enqueue upstream ws (Ok data) s = (Ok tt, s')
         ∧ replies_with ws
             [ ("type", VStr "error");
               ("error", VStr "Server queue full. Please retry in a moment.") ]
             s s')
  (* invalid-frame *)
  ∧ (∀ error,
       ∃ s',
         enqueue upstream ws (Throw error) s = (Ok tt, s')
         ∧ replies_with ws
             [ ("type", VStr "error");
               ("error", VStr "Invalid JSON format");
               ("message", VStr (emessage error)) ]
             s s')
  (* missing-method *)
  ∧ (∀ data,
       data ≠ VUndef → data ≠ VNull →
       truthy (getProp data "method") = false →
       ∃ s',
         handleMessage upstream ws data s = (Ok tt, s')
         ∧ replies_with ws
             (match wire (getProp data "id") with
              | VUndef => []
              | id => [("id", id)]
              end ++ [ ("error", VStr "Method is required"); ("type", VStr "error") ])
             s s')
  (* whatever the dispatch throws, [s] being the state it throws in *)
  ∧ (∀ data s0 error,
       let id := getProp data "id" in
       let method := getProp data "method" in
       let params := match getProp data "params" with VUndef => VArr [] | p => p end in
       truthy method = true →
       printable method = true →
       printable (js_or id (VStr "unknown")) = true →
       dispatch upstream ws id method params s0 = (Throw error, s) →
       ∃ s',
         handleMessage upstream ws data s0 = (Ok tt, s')
         ∧ replies_with ws
             [ ("id", wire (js_or id (VStr "unknown")));
               ("error", VStr (errorMessage_of error));
               ("type", VStr "error");
               ("method", wire method) ] s s'
         ∧ wire (js_or id (VStr "unknown")) ≠ VUndef
         ∧ wire method ≠ VUndef)
  (* a method or an id that the log lines cannot print: no frame *)
  ∧ (∀ data e,
       truthy (getProp data "method") = true →
       toStr (getProp data "method") = Throw e →
       handleMessage upstream ws data s = (Throw e, s))
  ∧ (∀ data s0 error e,
       let id := getProp data "id" in
       let method := getProp data "method" in
       let params := match getProp data "params" with VUndef => VArr [] | p => p end in
       truthy method = true →
       printable method = true →
       dispatch upstream ws id method params s0 = (Throw error, s) →
       toStr (js_or id (VStr "unknown")) = Throw e →
       handleMessage upstream ws data s0 = (Throw e, s))
  (* unsupported-method, missing-argument and upstream-failure are thrown *)
  ∧ (∀ id m params,
       ¬ In m supported_methods →
       dispatch upstream ws id (VStr m) params s
       = (Throw (Error ("Unsupported method: " +:+ m)), s))
  ∧ (∀ id m p0 rest,
       In m block_methods → truthy p0 = false →
       dispatch upstream ws id (VStr m) (VArr (p0 :: rest)) s
       = (Throw (Error "Block number is required"), s))
  ∧ (∀ id params error s1,
       callSteemAPI upstream "getTicker" params s = (Throw error, s1) →
       dispatch upstream ws id (VStr "get_ticker") params s = (Throw error, s1)).
Proof.
  intros Hopen. repeat apply conj.
  - intros message Hpass.
    destruct (onMessage_limited upstream ws message s Hopen Hpass) as (s' & H1 & H2 & _).
    exists s'. split; assumption.
  - intros data Hfull.
    destruct (enqueue_queue_full upstream ws data s Hopen Hfull) as (s' & H1 & H2 & _).
    exists s'. split; assumption.
  - intros error.
    destruct (enqueue_invalid upstream ws error s Hopen) as (s' & H1 & H2 & _).
    exists s'. split; assumption.
  - intros data Hu Hn Hm.
    destruct (handleMessage_no_method upstream ws data s Hu Hn Hm Hopen)
      as (s' & H1 & H2 & _).
    exists s'. split; assumption.
  - intros data s0 error id method params Hm Hpm Hpi Hd.
    destruct (handleMessage_caught upstream ws data s0 error s Hm Hpm Hpi Hd Hopen)
      as (s' & H1 & H2).
    exists s'. split; [exact H1|]. split; [exact H2|]. split.
    + apply wire_js_or_defined; [discriminate|reflexivity|reflexivity].
    + destruct method; try discriminate Hm; discriminate.
  - intros data e Hm He. now apply handleMessage_unprintable_method.
  - intros data s0 error e id method params Hm Hpm Hd He.
    now apply (handleMessage_unprintable_id upstream ws data s0 error s e).
  - intros id m params Hm. now apply dispatch_unsupported.
  - intros id m p0 rest Hm Hp. now apply dispatch_missing_block.
  - intros id params error s1 H. now apply dispatch_upstream_failure.
Qed.

(** ** Rate limit *)

(** The rate-limit life of a socket: for each arrival time, the start of
    the window the frame is counted in and whether it passes. *)
Fixpoint admissions (w : Socket) (times : list Z) : list (Z * bool) :=
  match times with
  | [] => []
  | t :: rest =>
      let '(w', pass) := rate_check t w in
      (lastReset w', pass) :: admissions w' rest
  end.

(** The frames counted in the window that starts at [r] and let through. *)
Definition admitted_in_window (r : Z) (log : list (Z * bool)) : nat :=
  length (List.filter (λ e : Z * bool, (e.1 =? r) && e.2) log).

Definition window_budget (w : Socket) (r : Z) : Z :=
  if r <? lastReset w then 0
  else if r =? lastReset w
       then Z.max 0 (maxMessagesPerMinute w - messageCount w)
       else Z.max 0 (maxMessagesPerMinute w).

Lemma admitted_in_window_cons r L p log :
  admitted_in_window r ((L, p) :: log)
  = ((if (L =? r)%Z && p then 1 else 0) + admitted_in_window r log)%nat.
Proof.
  unfold admitted_in_window. cbn [List.filter fst snd].
  destruct ((L =? r) && p); reflexivity.
Qed.

Lemma admissions_within_budget times w r :
  Z.of_nat (admitted_in_window r (admissions w times)) ≤ window_budget w r.
Proof.
  revert w. induction times as [|t rest IH]; intros w.
  - unfold window_budget, admitted_in_window. cbn [admissions List.filter length].
    destruct (r <? lastReset w), (r =? lastReset w); lia.
  - cbn [admissions]. destruct (rate_check t w) as [w' pass] eqn:E.
    rewrite admitted_in_window_cons.
    specialize (IH w'). revert IH.
    generalize (admitted_in_window r (admissions w' rest)). intros N IH.
    unfold rate_check in E. injection E as <- <-.
    unfold window_budget in *. destruct w as [c L M st out].
    cbn [lastReset messageCount maxMessagesPerMinute set_lastReset set_messageCount] in *.
    destruct (Z.ltb_spec 60000 (t - L));
      cbn [lastReset messageCount maxMessagesPerMinute set_lastReset set_messageCount] in *.
    + destruct (Z.ltb_spec r t), (Z.eqb_spec r t), (Z.eqb_spec t r), (Z.ltb_spec r L),
        (Z.eqb_spec r L), (Z.ltb_spec M (0 + 1)); cbn [negb andb] in *; lia.
    + destruct (Z.ltb_spec r L), (Z.eqb_spec r L), (Z.eqb_spec L r),
        (Z.ltb_spec M (c + 1)); cbn [negb andb] in *; lia.
Qed.

Lemma rate_check_lastReset t w :
  lastReset (rate_check t w).1 = if 60000 <? t - lastReset w then t else lastReset w.
Proof. unfold rate_check. simpl. destruct (60000 <? t - lastReset w); reflexivity. Qed.

(** C1 (amended).  The rate limit is a fixed window, not a sliding one: a
    window starts when the socket connects (count 0, cap 2000, as the
    connection handler sets them) and a new one starts at the
    first frame that arrives more than 60000 ms after the start of the
    current one.  Of the frames counted in one window at most 2000 pass,
    whatever the arrival times.  A frame beyond that is answered by an
    error frame whose [rateLimitReset] is the window start plus 60000 ms,
    and is not processed: apart from the socket's counters and that frame,
    the server is unchanged.  A frame that passes goes on to be parsed and
    queued. *)
Theorem rate_limit_fixed_window :
  (∀ t0 state log times r,
     (admitted_in_window r (admissions (mkSocket 0 t0 2000 state log) times)
      ≤ 2000)%nat)
  ∧ (∀ t w,
       lastReset (rate_check t w).1
       = if 60000 <? t - lastReset w then t else lastReset w)
  ∧ (∀ upstream ws message s,
       readyState (sockets s ws) = OPEN →
       (rate_check (clock s) (sockets s ws)).2 = false →
       ∃ s',
         onMessage upstream ws message s = (Ok tt, s')
         ∧ replies_with ws
             (rate_limit_frame (lastReset (rate_check (clock s) (sockets s ws)).1))
             s s'
         ∧ set_sockets (sockets s) s' = s)
  ∧ (∀ upstream ws message s,
       (rate_check (clock s) (sockets s ws)).2 = true →
       ∃ s1,
         (∀ ws', sockets s1 ws' = sockets (counted ws s) ws')
         ∧ set_sockets (sockets s) s1 = s
         ∧ onMessage upstream ws message s = enqueue upstream ws message s1).
Proof.
  repeat apply conj.
  - intros t0 state log times r.
    pose proof (admissions_within_budget times (mkSocket 0 t0 2000 state log) r) as H.
    unfold window_budget in H. cbn in H.
    destruct (r <? t0), (r =? t0); lia.
  - apply rate_check_lastReset.
  - intros. now apply onMessage_limited.
  - intros upstream ws message s Hpass.
    destruct (onMessage_rate_check upstream ws message s) as (s1 & H1 & H2 & H3).
    rewrite Hpass in H3. exists s1. repeat split; assumption.
Qed.

(** ** Retrying caller *)

Definition same_trace : relation Server := λ s s', trace s' = trace s.

#[global] Instance same_trace_preorder : PreOrder same_trace.
Proof. split; [intros s; reflexivity|intros s1 s2 s3 H1 H2; unfold same_trace in *; congruence]. Qed.

Lemma route_trace upstream method params :
  respects same_trace (route upstream method params).
Proof.
  assert (H : ∀ c, respects same_trace (call_upstream upstream c)).
  { intros c s. unfold call_upstream. destruct (upstream _ _ _). reflexivity. }
  unfold route. repeat first [solve [auto] | respects_step].
Qed.

Lemma switchToHealthyNode_trace s :
  trace (exec switchToHealthyNode s) = trace s ++ [EvFailover].
Proof.
  unfold switchToHealthyNode. munfold. simpl.
  destruct (healthyNodes _ _); reflexivity.
Qed.

Lemma switchToHealthyNode_ok s : switchToHealthyNode s = (Ok tt, exec switchToHealthyNode s).
Proof.
  unfold exec, switchToHealthyNode. munfold. simpl.
  destruct (healthyNodes _ _); reflexivity.
Qed.

Lemma sleep_trace ms s : trace (exec (sleep ms) s) = trace s ++ [EvSleep ms].
Proof. reflexivity. Qed.

Lemma log_trace e s : trace (exec (log e) s) = trace s ++ [e].
Proof. reflexivity. Qed.

Lemma update_health_trace i f s : trace (exec (update_health i f) s) = trace s.
Proof. reflexivity. Qed.

Lemma update_errorStats_trace f s : trace (exec (update_errorStats f) s) = trace s.
Proof. reflexivity. Qed.

(** One iteration of the loop of [callSteemAPI], written out. *)
Lemma callSteemAPI_from_unfold upstream n attempt method params maxRetries s :
  callSteemAPI_from upstream (S n) attempt method params maxRetries s =
  let '(o, s1) := route upstream method params s in
  let s2 := exec (log (EvAttempt attempt (steemClient s) o)) s1 in
  match o with
  | Ok result =>
      (Ok result,
       exec (update_health (currentNodeIndex s)
               (record_success (clock s2) (clock s2 - clock s))) s2)
  | Throw error =>
      let s3 := exec (update_health (currentNodeIndex s) (record_failure (clock s2))) s2 in
      if attempt <? maxRetries then
        callSteemAPI_from upstream n (attempt + 1) method params maxRetries
          (exec (sleep (1000 * attempt)) (exec switchToHealthyNode s3))
      else
        (Throw error,
         exec (update_errorStats incr_nodeErrors)
           (exec (update_errorStats incr_totalErrors) s3))
  end.
Proof.
  cbn [callSteemAPI_from]. munfold.
  destruct (route upstream method params s) as [[v|e] s1];
    cbn -[switchToHealthyNode callSteemAPI_from]; [reflexivity|].
  destruct (attempt <? maxRetries); [|reflexivity].
  rewrite switchToHealthyNode_ok. reflexivity.
Qed.

(** The server after an attempt that the endpoint answered: the attempt is
    logged and the health record of the endpoint used is credited.  [s] is
    the state in which the attempt started, [r] the one in which the client
    call returned. *)
Definition after_success (attempt : Z) (result : value) (s r : Server) : Server :=
  let r1 := exec (log (EvAttempt attempt (steemClient s) (Ok result))) r in
  exec (update_health (currentNodeIndex s)
          (record_success (clock r1) (clock r1 - clock s))) r1.

(** The server after the bookkeeping of the [catch] block: the attempt is
    logged and the health record of the endpoint used is charged. *)
Definition charged (attempt : Z) (error : JsError) (s r : Server) : Server :=
  let r1 := exec (log (EvAttempt attempt (steemClient s) (Throw error))) r in
  exec (update_health (currentNodeIndex s) (record_failure (clock r1))) r1.

(** The server in which the next attempt starts: after the bookkeeping,
    the pool failover and the sleep of [1000 * attempt] ms. *)
Definition before_retry (attempt : Z) (error : JsError) (s r : Server) : Server :=
  exec (sleep (1000 * attempt)) (exec switchToHealthyNode (charged attempt error s r)).

(** The server in which the call gives up: after the bookkeeping, the two
    error counters are advanced. *)
Definition given_up (attempt : Z) (error : JsError) (s r : Server) : Server :=
  exec (update_errorStats incr_nodeErrors)
    (exec (update_errorStats incr_totalErrors) (charged attempt error s r)).

(** One iteration of the loop of [callSteemAPI]: the attempt ends the
    call, with its result or, when it is the last one, with its error; or
    it is followed by a failover and a sleep of [1000 * attempt] ms, and
    the loop goes on. *)
Lemma callSteemAPI_from_step upstream n attempt method params maxRetries s :
  callSteemAPI_from upstream (S n) attempt method params maxRetries s =
  match route upstream method params s with
  | (Ok result, r) => (Ok result, after_success attempt result s r)
  | (Throw error, r) =>
      if attempt <? maxRetries then
        callSteemAPI_from upstream n (attempt + 1) method params maxRetries
          (before_retry attempt error s r)
      else (Throw error, given_up attempt error s r)
  end.
Proof.
  rewrite callSteemAPI_from_unfold.
  destruct (route upstream method params s) as [[v|e] r]; reflexivity.
Qed.

Lemma switchToHealthyNode_clock s : clock (exec switchToHealthyNode s) = clock s.
Proof.
  unfold switchToHealthyNode. munfold. simpl.
  destruct (healthyNodes _ _); reflexivity.
Qed.

Lemma switchToHealthyNode_ncalls s : ncalls (exec switchToHealthyNode s) = ncalls s.
Proof.
  unfold switchToHealthyNode. munfold. simpl.
  destruct (healthyNodes _ _); reflexivity.
Qed.

(** What lies between a failed attempt and the next one. *)
Lemma before_retry_spec attempt error s r :
  trace (before_retry attempt error s r)
  = trace r ++ [ EvAttempt attempt (steemClient s) (Throw error); EvFailover;
                 EvSleep (1000 * attempt) ]
  ∧ clock (before_retry attempt error s r) = clock r + 1000 * attempt
  ∧ ncalls (before_retry attempt error s r) = ncalls r.
Proof.
  unfold before_retry, charged. cbv zeta. split; [|split].
  - rewrite sleep_trace, switchToHealthyNode_trace, update_health_trace, log_trace.
    now rewrite <- !app_assoc.
  - change (clock (exec (sleep ?ms) ?x)) with (clock x + ms).
    now rewrite switchToHealthyNode_clock.
  - change (ncalls (exec (sleep ?ms) ?x)) with (ncalls x).
    now rewrite switchToHealthyNode_ncalls.
Qed.

(** An attempt is at most one call of the client. *)
Lemma route_ncalls upstream method params s :
  (ncalls s ≤ ncalls (route upstream method params s).2 ≤ S (ncalls s))%nat.
Proof.
  assert (H : ∀ c s, (ncalls s ≤ ncalls (call_upstream upstream c s).2 ≤ S (ncalls s))%nat).
  { intros c s0. unfold call_upstream. destruct (upstream _ _ _). cbn. lia. }
  assert (H0 : ∀ s0 : Server, (ncalls s0 ≤ ncalls s0 ≤ S (ncalls s0))%nat) by (intros; lia).
  unfold route.
  repeat match goal with
  | |- context [if ?b then _ else _] => destruct b
  end;
  unfold mbind, M_bind, lift, throw;
  try match goal with
  | |- context [getIndex params 0] => destruct (getIndex params 0)
  end; first [apply H | apply H0].
Qed.

(** C3.  [callSteemAPI] makes one, two or three attempts, never more, each
    of them one run of the [switch] on the method, which is at most one
    call of the client.  The first attempt starts in the state of the call.
    An attempt that fails and is not the third is followed by the
    bookkeeping of the [catch] block, the pool failover and then a sleep of
    [attempt * 1000] ms, in that order, and the next attempt starts from
    there.  The call ends with the result of the first attempt that
    succeeds; when the third attempt fails too, the call throws the error
    that attempt's client call threw, as it is. *)
Theorem callSteemAPI_three_attempts upstream method params s :
  let attempt_in := route upstream method params in
  callSteemAPI upstream method params s
  = match attempt_in s with
    | (Ok result, r1) => (Ok result, after_success 1 result s r1)
    | (Throw e1, r1) =>
        let s1 := before_retry 1 e1 s r1 in
        match attempt_in s1 with
        | (Ok result, r2) => (Ok result, after_success 2 result s1 r2)
        | (Throw e2, r2) =>
            let s2 := before_retry 2 e2 s1 r2 in
            match attempt_in s2 with
            | (Ok result, r3) => (Ok result, after_success 3 result s2 r3)
            | (Throw e3, r3) => (Throw e3, given_up 3 e3 s2 r3)
            end
        end
    end
  ∧ (∀ attempt error s0 r,
       before_retry attempt error s0 r
       = exec (sleep (1000 * attempt))
           (exec switchToHealthyNode (charged attempt error s0 r))
       ∧ trace (before_retry attempt error s0 r)
         = trace r ++ [ EvAttempt attempt (steemClient s0) (Throw error); EvFailover;
                        EvSleep (1000 * attempt) ]
       ∧ clock (before_retry attempt error s0 r) = clock r + 1000 * attempt
       ∧ ncalls (before_retry attempt error s0 r) = ncalls r)
  ∧ (ncalls (callSteemAPI upstream method params s).2 ≤ ncalls s + 3)%nat.
Proof.
  intros attempt_in. subst attempt_in.
  assert (Heq : callSteemAPI upstream method params s
    = match route upstream method params s with
      | (Ok result, r1) => (Ok result, after_success 1 result s r1)
      | (Throw e1, r1) =>
          let s1 := before_retry 1 e1 s r1 in
          match route upstream method params s1 with
          | (Ok result, r2) => (Ok result, after_success 2 result s1 r2)
          | (Throw e2, r2) =>
              let s2 := before_retry 2 e2 s1 r2 in
              match route upstream method params s2 with
              | (Ok result, r3) => (Ok result, after_success 3 result s2 r3)
              | (Throw e3, r3) => (Throw e3, given_up 3 e3 s2 r3)
              end
          end
      end).
  { unfold callSteemAPI. change (Z.to_nat 3) with 3%nat.
    rewrite callSteemAPI_from_step.
    destruct (route upstream method params s) as [[v1|e1] r1]; [reflexivity|].
    change (1 <? 3) with true. cbv iota zeta. change (1 + 1) with 2.
    rewrite callSteemAPI_from_step.
    destruct (route upstream method params (before_retry 1 e1 s r1)) as [[v2|e2] r2];
      [reflexivity|].
    change (2 <? 3) with true. cbv iota zeta. change (2 + 1) with 3.
    rewrite callSteemAPI_from_step.
    destruct (route upstream method params (before_retry 2 e2 _ r2)) as [[v3|e3] r3];
      reflexivity. }
  split; [exact Heq|]. split.
  - intros attempt error s0 r. split; [reflexivity|]. apply before_retry_spec.
  - rewrite Heq.
    pose proof (route_ncalls upstream method params s) as H1.
    destruct (route upstream method params s) as [[v1|e1] r1]; cbn [snd] in *;
      [cbn; lia|].
    destruct (before_retry_spec 1 e1 s r1) as (_ & _ & Hb1).
    pose proof (route_ncalls upstream method params (before_retry 1 e1 s r1)) as H2.
    cbv zeta.
    destruct (route upstream method params (before_retry 1 e1 s r1)) as [[v2|e2] r2];
      cbn [snd] in *; [cbn; lia|].
    destruct (before_retry_spec 2 e2 (before_retry 1 e1 s r1) r2) as (_ & _ & Hb2).
    pose proof (route_ncalls upstream method params
                  (before_retry 2 e2 (before_retry 1 e1 s r1) r2)) as H3.
    destruct (route upstream method params _) as [[v3|e3] r3];
      cbn [snd] in *; cbn; lia.
Qed.

(** ** Failover: which endpoint is selected *)





Section Sorting.
Context {A : Type} (cmp : A → A → Z).
Hypothesis cmp_total : ∀ a b, cmp a b ≤ 0 ∨ cmp b a ≤ 0.
Hypothesis cmp_trans : ∀ a b c, cmp a b ≤ 0 → cmp b c ≤ 0 → cmp a c ≤ 0.

Lemma sort_insert_In x a l : In x (sort_insert cmp a l) ↔ x = a ∨ In x l.
Proof.
  induction l as [|y l IH]; cbn [sort_insert].
  - cbn [In]. split; [intros [H|[]]; left; congruence|intros [H|[]]; left; congruence].
  - destruct (cmp a y <=? 0).
    + cbn [In]. split.
      * intros [H|H]; [left; congruence|right; exact H].
      * intros [H|H]; [left; congruence|right; exact H].
    + cbn [In]. rewrite IH. split.
      * intros [H|[H|H]]; [right; left; exact H|left; exact H|right; right; exact H].
      * intros [H|[H|H]]; [right; left; exact H|left; exact H|right; right; exact H].
Qed.

Lemma js_sort_In x l : In x (js_sort cmp l) ↔ In x l.
Proof.
  unfold js_sort. induction l as [|y l IH]; cbn [foldr In]; [reflexivity|].
  rewrite sort_insert_In, IH. split; intros [H|H]; auto.
Qed.





End Sorting.
Lemma with_index_In i h hs : In (i, h) (with_index hs) ↔ hs !! i = Some h.
Proof.
  unfold with_index. rewrite <- list_elem_of_In, elem_of_lookup_imap. split.
  - intros (j & x & [= -> ->] & Hl). exact Hl.
  - intros H. exists i, h. split; [reflexivity|exact H].
Qed.

Lemma switchToHealthyNode_index s :
  currentNodeIndex (exec switchToHealthyNode s) =
  match healthyNodes (clock s)
          (alter (mark_unhealthy (clock s)) (currentNodeIndex s) (nodeHealth s)) with
  | [] => currentNodeIndex s
  | bestNode :: _ => bestNode.1
  end.
Proof.
  unfold switchToHealthyNode. munfold. simpl.
  destruct (healthyNodes _ _); reflexivity.
Qed.



(** * Scenarios *)

(** A head-state reply. *)
Definition head (n : Z) : value :=
  VObj [ ("head_block_number", VNum n); ("time", VStr "2024-01-01T00:00:00") ].

(** Endpoints that answer every call after 40 ms; the head advances with
    each call. *)
Definition upstream_up : Oracle := λ k node c,
  (40,
   Ok match c with
      | database_getDynamicGlobalProperties => head (100 + Z.of_nat k)
      | database_call _ _ => VArr [VStr "alice"; VStr "bob"]
      | _ => VObj []
      end).

(** Endpoints that refuse every call after 40 ms. *)
Definition connection_refused : JsError := mkError "RPCError" "connect ECONNREFUSED".

Definition upstream_down : Oracle := λ k node c, (40, Throw connection_refused).

(** A server whose two slots were filled at time 0, seen 400 s later: both
    are past their TTL. *)
Definition stale_server : Server :=
  set_clock 400000
    (set_cache (mkCache (head 100) (VArr [VStr "alice"; VStr "bob"]) [] [] [] 0 0)
       (initial 0)).

(** C6 (the code departs from the claim).  With a prior value in the slot
    and every endpoint healthy, a refresh that fails on all three attempts
    ends in the upstream error, not in the prior value: the failover run
    between the attempts has cleared the slot before the handler looks for
    a stale value.  The same holds for the witness slot. *)
Theorem stale_slot_lost_on_failover :
  truthy (globalProperties (cache stale_server)) = true
  ∧ (getDynamicGlobalProperties upstream_down stale_server).1 = Throw connection_refused
  ∧ globalProperties (cache (getDynamicGlobalProperties upstream_down stale_server).2)
    = VNull
  ∧ truthy (activeWitnesses (cache stale_server)) = true
  ∧ (getActiveWitnesses upstream_down stale_server).1 = Throw connection_refused
  ∧ activeWitnesses (cache (getActiveWitnesses upstream_down stale_server).2) = VNull.
Proof. vm_compute. repeat split; reflexivity. Qed.

(** One client connected at time 0. *)
Definition one_client : Server := run upstream_up (initial 0) [(0, Connection 1)].

(** One client and a first poll: the head-state slot is populated. *)
Definition polled : Server :=
  run upstream_up (initial 0) [(0, Connection 1); (100, PollTimer)].

(** Two clients, the first subscribed to the head state. *)
Definition two_clients : Server :=
  run upstream_up (initial 0)
    [ (0, Connection 1); (0, Connection 2);
      (5, Message 1 (Ok (request (VNum 1) "subscribe_global_properties" VUndef))) ].

Definition syntax_error : JsError :=
  mkError "SyntaxError" "Unexpected token h in JSON at position 0".

Definition is_response (f : frame) : bool :=
  match assoc "type" f with
  | Some (VStr t) => String.eqb t "response"
  | _ => false
  end.

Definition is_error (f : frame) : bool :=
  match assoc "type" f with
  | Some (VStr t) => String.eqb t "error"
  | _ => false
  end.

(** 2001 head-state requests from one client: 2000 of them 12 ms apart from
    35 s after it connected, each followed by the 10 ms timer of the queue,
    and one at 60.001 s. *)
Definition burst : list (Z * Input) :=
  (0, Connection 1)
  :: flat_map
       (λ i : nat,
          let t := 35000 + 12 * Z.of_nat i in
          [ (t, Message 1 (Ok (request (VNum (Z.of_nat i))
                                 "get_dynamic_global_properties" (VArr []))));
            (t + 10, QueueTimer) ])
       (seq 0 2000)
  ++ [ (60001, Message 1 (Ok (request (VNum 2000)
                                "get_dynamic_global_properties" (VArr [])))) ].

Definition is_message (i : Input) : bool :=
  match i with Message _ _ => true | _ => false end.

(** C1, as stated, fails: all 2001 requests of [burst] arrive within about
    25 seconds, and each gets a reply that is not an error. *)
Lemma rate_limit_sliding_counterexample :
  forallb (λ ti : Z * Input,
             negb (is_message ti.2) || ((35000 <=? ti.1) && (ti.1 <=? 60001))) burst
  = true
  ∧ length (List.filter (λ ti : Z * Input, is_message ti.2) burst) = 2001%nat
  ∧ count_frames is_response (sent (sockets (run upstream_up (initial 0) burst) 1))
    = 2001%nat
  ∧ count_frames is_error (sent (sockets (run upstream_up (initial 0) burst) 1))
    = 0%nat.
Proof. vm_compute. repeat split; reflexivity. Qed.

(** C2, as stated, fails: the reply to text that does not parse carries
    neither [id] nor [method]. *)
Lemma invalid_json_frame_counterexample :
  List.last (sent (sockets (run upstream_up (initial 0)
                         [(0, Connection 1); (5, Message 1 (Throw syntax_error))]) 1)) []
  = [ ("type", VStr "error"); ("error", VStr "Invalid JSON format");
      ("message", VStr "Unexpected token h in JSON at position 0") ]
  ∧ error_shape
      (List.last (sent (sockets (run upstream_up (initial 0)
                              [(0, Connection 1); (5, Message 1 (Throw syntax_error))]) 1))
         [])
    = false.
Proof. vm_compute. split; reflexivity. Qed.

Lemma one_client_open : readyState (sockets one_client 1) = OPEN.
Proof. vm_compute. reflexivity. Qed.

Lemma error_frames_witness :
  ∃ s',
    enqueue upstream_up 1 (Throw syntax_error) one_client = (Ok tt, s')
    ∧ replies_with 1
        [ ("type", VStr "error"); ("error", VStr "Invalid JSON format");
          ("message", VStr (emessage syntax_error)) ]
        one_client s'.
Proof.
  destruct (error_frames upstream_up 1 one_client one_client_open) as (_ & _ & H & _).
  exact (H syntax_error).
Defined.

Lemma falsy_first_param_rejected_witness :
  handleMessage upstream_up 1 (request (VNum 7) "get_block_header" (VArr [VNum 0]))
    one_client
  = rejected 1 (VNum 7) "get_block_header" "Block number is required" one_client.
Proof.
  destruct (falsy_first_param_rejected upstream_up 1 (VNum 7) "get_block_header"
              (VNum 0) [] one_client eq_refl) as [H _].
  destruct H as [H _]; [simpl; tauto|].
  apply H. vm_compute. reflexivity.
Defined.

Lemma polled_open : readyState (sockets polled 1) = OPEN.
Proof. vm_compute. reflexivity. Qed.

Lemma polled_populated : truthy (globalProperties (cache polled)) = true.
Proof. vm_compute. reflexivity. Qed.

Lemma subscribe_sends_snapshot_witness :
  ∃ s',
    handleMessage upstream_up 1
      (request (VNum 3) "subscribe_global_properties" VUndef) polled = (Ok tt, s')
    ∧ sent (sockets s' 1) =
        sent (sockets polled 1)
          ++ snapshot_frames (VNum 3) "global_properties"
               (globalProperties (cache polled)) (clock polled).
Proof.
  destruct (subscribe_sends_snapshot upstream_up 1 (VNum 3) VUndef polled polled_open)
    as [H _].
  destruct (H polled_populated) as (s' & H1 & H2 & _).
  exists s'. split; assumption.
Defined.

Lemma two_clients_changed : head_changed upstream_up two_clients = true.
Proof. vm_compute. reflexivity. Qed.

Lemma two_clients_clients : clients two_clients = [1%nat; 2%nat].
Proof. vm_compute. reflexivity. Qed.

Lemma two_clients_subscribers :
  sub_globalProperties (subscribers two_clients) = [1%nat].
Proof. vm_compute. reflexivity. Qed.

Lemma poll_exactly_one_witness :
  (∃ new,
     sent (sockets (exec (periodicUpdate upstream_up) two_clients) 1)
     = sent (sockets two_clients 1) ++ new
     ∧ count_frames is_gp_update new = 1%nat ∧ count_frames is_legacy new = 0%nat)
  ∧ (∃ new,
       sent (sockets (exec (periodicUpdate upstream_up) two_clients) 2)
       = sent (sockets two_clients 2) ++ new
       ∧ count_frames is_gp_update new = 0%nat ∧ count_frames is_legacy new = 1%nat).
Proof.
  assert (Hc : List.NoDup (clients two_clients)).
  { rewrite two_clients_clients. repeat constructor; simpl; intuition lia. }
  assert (Hs : List.NoDup (sub_globalProperties (subscribers two_clients))).
  { rewrite two_clients_subscribers. repeat constructor; simpl; intuition. }
  split.
  - destruct (poll_exactly_one upstream_up two_clients 1 two_clients_changed Hc Hs)
      as (new & H1 & H2).
    + rewrite two_clients_clients. simpl. tauto.
    + vm_compute. reflexivity.
    + exists new. split; [exact H1|].
      rewrite two_clients_subscribers in H2. exact H2.
  - destruct (poll_exactly_one upstream_up two_clients 2 two_clients_changed Hc Hs)
      as (new & H1 & H2).
    + rewrite two_clients_clients. simpl. tauto.
    + vm_compute. reflexivity.
    + exists new. split; [exact H1|].
      rewrite two_clients_subscribers in H2. exact H2.
Defined.

(** *** A client that unsubscribes while the poll awaits *)

(** Over [call_upstream] the functions of [Interleaving] are the ones of
    the one-turn model. *)
Lemma with_call_upstream upstream :
  route_with (call_upstream upstream) = route upstream
  ∧ callSteemAPI_with (call_upstream upstream) = callSteemAPI upstream
  ∧ getDynamicGlobalProperties_with (call_upstream upstream)
    = getDynamicGlobalProperties upstream
  ∧ getBlockHeader_with (call_upstream upstream) = getBlockHeader upstream
  ∧ getBlock_with (call_upstream upstream) = getBlock upstream
  ∧ getOpsInBlock_with (call_upstream upstream) = getOpsInBlock upstream
  ∧ processNewBlockForSubscriptions_with (call_upstream upstream)
    = processNewBlockForSubscriptions upstream
  ∧ broadcastNewBlock_with (call_upstream upstream) = broadcastNewBlock upstream
  ∧ periodicUpdate_with (call_upstream upstream) = periodicUpdate upstream.
Proof. repeat split. Qed.

(** A call during which nothing arrives is a call of the one-turn model. *)
Lemma call_upstream_while_alone upstream c s :
  0 ≤ (upstream (ncalls s) (steemClient s) c).1 →
  call_upstream_while upstream (λ _, []) c s = call_upstream upstream c s.
Proof.
  unfold call_upstream_while, call_upstream.
  destruct (upstream (ncalls s) (steemClient s) c) as [latency o].
  cbn [fst run fold_left]. intros H. f_equal. destruct s. cbn in *.
  rewrite Z.max_r by lia. reflexivity.
Qed.

(** Two clients: the first subscribed to the head state, the second to the
    block headers. *)
Definition two_feeds : Server :=
  run upstream_up (initial 0)
    [ (0, Connection 1); (0, Connection 2);
      (5, Message 1 (Ok (request (VNum 1) "subscribe_global_properties" VUndef)));
      (6, Message 2 (Ok (request (VNum 1) "subscribe_block_headers" VUndef)));
      (15, QueueTimer); (25, QueueTimer) ].

(** While the second call of the client is awaited, the one that fetches
    the block header for the second client, the first client unsubscribes
    from the head state. *)
Definition unsubscribes_meanwhile (k : nat) : list (Z * Input) :=
  match k with
  | 1%nat =>
      [ (3050, Message 1 (Ok (request (VNum 2) "unsubscribe_global_properties" VUndef)));
        (3060, QueueTimer) ]
  | _ => []
  end.

(** What the first client is sent from the poll at 3000 ms on. *)
Definition update_ack_broadcast : list frame :=
  [ JSON_stringify
      (subscription_update "global_properties" (head 100) (VStr (toISOString 3040)));
    JSON_stringify (subscription_ack (VNum 2) "unsubscribed" "global_properties");
    JSON_stringify (legacy_broadcast (head 100) (VStr (toISOString 3080))) ].

(** C8 (the code departs from the claim).  The callback sends the
    [subscription_update] to the members of the head-state set, then awaits
    [processNewBlockForSubscriptions], and only then runs the legacy loop,
    which reads the set again.  A client that is a member at the first
    point and has unsubscribed by the second is sent both frames for the
    same head block.  Here the poll of 3000 ms gets block 100 at 3040 ms
    and sends the update to client 1; the header for client 2 is fetched
    from 3040 to 3080 ms; at 3050 ms client 1 unsubscribes; at 3080 ms the
    legacy loop finds client 1 open and not a member, and sends it the
    legacy broadcast of block 100.  Client 1 is open throughout.  Without
    the frame at 3050 ms it is sent the update alone. *)
Theorem unsubscribe_during_poll_gets_both :
  let s := set_clock 3000 two_feeds in
  let s' := exec (periodicUpdate_while upstream_up unsubscribes_meanwhile) s in
  clients s = [1%nat; 2%nat]
  ∧ sub_globalProperties (subscribers s) = [1%nat]
  ∧ sub_blockHeaders (subscribers s) = [2%nat]
  ∧ readyState (sockets s 1%nat) = OPEN
  ∧ readyState (sockets s' 1%nat) = OPEN
  ∧ sent (sockets s' 1%nat) = sent (sockets s 1%nat) ++ update_ack_broadcast
  ∧ count_frames is_gp_update update_ack_broadcast = 1%nat
  ∧ count_frames is_legacy update_ack_broadcast = 1%nat
  ∧ sent (sockets (exec (periodicUpdate_while upstream_up (λ _, [])) s) 1%nat)
    = sent (sockets s 1%nat)
        ++ [ JSON_stringify
               (subscription_update "global_properties" (head 100)
                  (VStr (toISOString 3040))) ].
Proof. vm_compute. repeat split; reflexivity. Qed.


(** * Further properties of the server *)

(** ** Cache layer: lookups *)

Lemma getCacheItem_eq l key ttl s :
  getCacheItem l key ttl s =
  match map_get key (layer l (cache s)) with
  | None => (Ok VNull, set_errorStats (incr_cacheMisses (errorStats s)) s)
  | Some item =>
      if ttl <? clock s - item_timestamp item then
        (Ok VNull,
         set_errorStats (incr_cacheMisses (errorStats s))
           (set_cache (set_layer l (map_delete key (layer l (cache s))) (cache s)) s))
      else (Ok (item_value item), set_errorStats (incr_cacheHits (errorStats s)) s)
  end.
Proof.
  unfold getCacheItem. munfold.
  destruct (map_get key (layer l (cache s))) as [item|]; [|reflexivity].
  destruct (ttl <? clock s - item_timestamp item); reflexivity.
Qed.

(** One binding per key, as in a [Map]. *)
Definition unique_keys (m : JsMap) : Prop := List.NoDup (fst <$> m).

Lemma map_get_None_notin k m : map_get k m = None ↔ ¬ In k (fst <$> m).
Proof.
  induction m as [|[k' x] m IH]; cbn [map_get fmap list_fmap fst In].
  - split; [intros _ []|reflexivity].
  - destruct (String.eqb_spec k k') as [->|Hne].
    + split; [discriminate|intros H; exfalso; apply H; now left].
    + rewrite IH. split; [intros H [Heq|Hin]; [congruence|contradiction]|
                          intros H Hin; apply H; now right].
Qed.

Lemma map_get_delete k m : unique_keys m → map_get k (map_delete k m) = None.
Proof.
  unfold unique_keys. induction m as [|[k' x] m IH]; cbn [map_delete map_get]; intros Hn.
  - reflexivity.
  - cbn [fmap list_fmap fst] in Hn. apply List.NoDup_cons_iff in Hn as [Hk Hn].
    destruct (String.eqb_spec k k') as [->|Hne].
    + now apply map_get_None_notin.
    + cbn [map_get]. destruct (String.eqb_spec k k'); [congruence|]. now apply IH.
Qed.

Lemma map_get_delete_ne k k' m : k ≠ k' → map_get k' (map_delete k m) = map_get k' m.
Proof.
  intros Hne. induction m as [|[k0 x] m IH]; cbn [map_delete map_get]; [reflexivity|].
  destruct (String.eqb_spec k k0) as [->|Hk].
  - destruct (String.eqb_spec k' k0); [congruence|reflexivity].
  - cbn [map_get]. now rewrite IH.
Qed.

Lemma map_get_set_ne k k' x m : k ≠ k' → map_get k' (map_set k x m) = map_get k' m.
Proof.
  intros Hne. induction m as [|[k0 x0] m IH]; cbn [map_set map_get].
  - destruct (String.eqb_spec k' k); [congruence|reflexivity].
  - destruct (String.eqb_spec k k0) as [->|Hk]; cbn [map_get].
    + destruct (String.eqb_spec k' k0); [congruence|reflexivity].
    + now rewrite IH.
Qed.

Lemma map_set_keys_In k x m k' :
  In k' (fst <$> map_set k x m) ↔ k' = k ∨ In k' (fst <$> m).
Proof.
  induction m as [|[k0 x0] m IH]; cbn [map_set fmap list_fmap fst In].
  - split; [intros [H|[]]; left; congruence|intros [H|[]]; left; congruence].
  - destruct (String.eqb_spec k k0) as [->|Hk]; cbn [fmap list_fmap fst In].
    + split; [intros [H|H]; [left; congruence|right; right; exact H]|
              intros [H|[H|H]]; [left; congruence|left; exact H|right; exact H]].
    + rewrite IH. split;
        [intros [H|[H|H]]; [right; left; exact H|left; exact H|right; right; exact H]|
         intros [H|[H|H]]; [right; left; exact H|left; exact H|right; right; exact H]].
Qed.

Lemma map_set_unique k x m : unique_keys m → unique_keys (map_set k x m).
Proof.
  unfold unique_keys. induction m as [|[k0 x0] m IH]; cbn [map_set fmap list_fmap fst];
    intros Hn.
  - constructor; [intros []|constructor].
  - apply List.NoDup_cons_iff in Hn as [Hk Hn].
    destruct (String.eqb_spec k k0) as [->|Hne]; cbn [fmap list_fmap fst].
    + constructor; assumption.
    + constructor; [|now apply IH].
      intros Hin. apply map_set_keys_In in Hin as [Heq|Hin]; [congruence|contradiction].
Qed.

Lemma map_delete_keys_In k m k' :
  In k' (fst <$> map_delete k m) → In k' (fst <$> m).
Proof.
  induction m as [|[k0 x0] m IH]; cbn [map_delete fmap list_fmap fst In]; [tauto|].
  destruct (String.eqb_spec k k0) as [->|Hne]; cbn [fmap list_fmap fst In].
  - intros H. now right.
  - intros [H|H]; [now left|right; now apply IH].
Qed.

Lemma map_delete_unique k m : unique_keys m → unique_keys (map_delete k m).
Proof.
  unfold unique_keys. induction m as [|[k0 x0] m IH]; cbn [map_delete fmap list_fmap fst];
    intros Hn; [constructor|].
  apply List.NoDup_cons_iff in Hn as [Hk Hn].
  destruct (String.eqb_spec k k0) as [->|Hne]; [exact Hn|].
  cbn [fmap list_fmap fst]. constructor; [|now apply IH].
  intros Hin. apply Hk. eapply map_delete_keys_In, Hin.
Qed.

Lemma map_set_length_present k x m :
  map_get k m ≠ None → length (map_set k x m) = length m.
Proof.
  induction m as [|[k0 x0] m IH]; cbn [map_set map_get length]; [congruence|].
  destruct (String.eqb_spec k k0) as [->|Hne]; cbn [length]; [reflexivity|].
  intros H. now rewrite IH.
Qed.

Lemma map_set_length_absent k x m :
  map_get k m = None → length (map_set k x m) = S (length m).
Proof.
  induction m as [|[k0 x0] m IH]; cbn [map_set map_get length]; [reflexivity|].
  destruct (String.eqb_spec k k0) as [->|Hne]; cbn [length]; [discriminate|].
  intros H. now rewrite IH.
Qed.

Lemma setCacheItem_errorStats l key v s :
  errorStats (exec (setCacheItem l key v) s) = errorStats s.
Proof.
  unfold setCacheItem. munfold. cbn.
  destruct (maxCacheSize <=? map_size (layer l (cache s))); reflexivity.
Qed.

(** X1.  A value stored with [setCacheItem] is what [getCacheItem] returns
    for the same key as long as no more than [ttl] ms have passed: the
    lookup counts a hit and changes nothing else.  Later than that the
    lookup returns [null], counts a miss and removes the entry, so that a
    further lookup finds no entry at all. *)
Theorem store_then_lookup l key v ttl t s :
  unique_keys (layer l (cache s)) →
  let s1 := set_clock t (exec (setCacheItem l key v) s) in
  if ttl <? t - clock s then
    ∃ s2,
      getCacheItem l key ttl s1 = (Ok VNull, s2)
      ∧ map_get key (layer l (cache s2)) = None
      ∧ cacheMisses (errorStats s2) = cacheMisses (errorStats s) + 1
      ∧ cacheHits (errorStats s2) = cacheHits (errorStats s)
  else
    getCacheItem l key ttl s1
    = (Ok v, set_errorStats (incr_cacheHits (errorStats s1)) s1).
Proof.
  intros Hu s1. rewrite getCacheItem_eq.
  assert (Hm : layer l (cache s1) =
               map_set key (mkItem v (clock s))
                 (if maxCacheSize <=? map_size (layer l (cache s))
                  then tail (layer l (cache s)) else layer l (cache s))).
  { subst s1. cbn [cache set_clock]. apply setCacheItem_layer. }
  rewrite Hm, map_get_set. cbn [item_timestamp item_value].
  replace (clock s1) with t by reflexivity.
  destruct (ttl <? t - clock s); [|reflexivity].
  eexists. split; [reflexivity|]. cbn [cache set_errorStats set_cache errorStats].
  rewrite layer_set_layer. split; [|subst s1; cbn [errorStats set_clock];
    rewrite setCacheItem_errorStats; split; reflexivity].
  apply map_get_delete, map_set_unique.
  destruct (maxCacheSize <=? map_size (layer l (cache s))); [|exact Hu].
  unfold unique_keys in *. destruct (layer l (cache s)) as [|[k0 x0] m]; [constructor|].
  cbn [tail fmap list_fmap fst] in *. now apply List.NoDup_cons_iff in Hu as [_ Hu].
Qed.

Lemma store_then_lookup_witness :
  getCacheItem LBlocks "block_5" 300000
    (set_clock 1000 (exec (setCacheItem LBlocks "block_5" (VNum 1)) (initial 0)))
  = (Ok (VNum 1),
     set_errorStats
       (incr_cacheHits
          (errorStats
             (set_clock 1000 (exec (setCacheItem LBlocks "block_5" (VNum 1)) (initial 0)))))
       (set_clock 1000 (exec (setCacheItem LBlocks "block_5" (VNum 1)) (initial 0)))).
Proof.
  assert (H : unique_keys (layer LBlocks (cache (initial 0)))) by constructor.
  exact (store_then_lookup LBlocks "block_5" (VNum 1) 300000 1000 (initial 0) H).
Defined.

(** X2.  Eviction is first-in, first-out.  On a map that has reached the
    bound, [setCacheItem] removes the entry whose key was inserted first and
    no other: every other key keeps its entry, and the stored key then holds
    the new value with the current time.  The eviction happens even when
    the stored key is already present, so such a store leaves the map one
    entry smaller. *)
Theorem eviction_is_fifo l key v s oldest x0 rest :
  layer l (cache s) = (oldest, x0) :: rest →
  unique_keys (layer l (cache s)) →
  maxCacheSize ≤ map_size (layer l (cache s)) →
  let m := layer l (cache s) in
  let m' := layer l (cache (exec (setCacheItem l key v) s)) in
  (key ≠ oldest → map_get oldest m' = None)
  ∧ (∀ k', k' ≠ oldest → k' ≠ key → map_get k' m' = map_get k' m)
  ∧ map_get key m' = Some (mkItem v (clock s))
  ∧ map_size m' = match map_get key rest with
                  | Some _ => map_size m - 1
                  | None => map_size m
                  end
  ∧ unique_keys m'.
Proof.
  intros Hm Hu Hfull m m'. subst m m'. rewrite setCacheItem_layer.
  apply Z.leb_le in Hfull. rewrite Hfull. rewrite Hm in *. cbn [tail].
  unfold unique_keys in Hu. cbn [fmap list_fmap fst] in Hu.
  apply List.NoDup_cons_iff in Hu as [Hk Hu].
  repeat apply conj.
  - intros Hne. rewrite map_get_set_ne by congruence. now apply map_get_None_notin.
  - intros k' H1 H2. rewrite map_get_set_ne by congruence.
    cbn [map_get]. destruct (String.eqb_spec k' oldest); [congruence|reflexivity].
  - apply map_get_set.
  - unfold map_size. cbn [length].
    destruct (map_get key rest) eqn:E.
    + rewrite map_set_length_present by congruence. lia.
    + rewrite map_set_length_absent by assumption. lia.
  - now apply map_set_unique.
Qed.

Definition full_blocks : Server :=
  set_cache
    (set_blocks
       ((λ i : nat, ("block_" +:+ pretty i, mkItem (VNum (Z.of_nat i)) 0)) <$> seq 0 1000)
       (cache (initial 0)))
    (initial 0).

Lemma full_blocks_unique : unique_keys (layer LBlocks (cache full_blocks)).
Proof.
  unfold unique_keys, full_blocks. cbn [layer cache set_cache blocks set_blocks].
  rewrite <- list_fmap_compose. apply NoDup_ListNoDup.
  apply NoDup_fmap_2_strong; [|apply NoDup_seq].
  intros i j _ _ H. cbn in H. apply (inj (String.app "block_")) in H.
  now apply (inj pretty) in H.
Qed.

Lemma full_blocks_size : map_size (layer LBlocks (cache full_blocks)) = 1000.
Proof.
  unfold full_blocks, map_size. cbn [layer cache set_cache blocks set_blocks].
  rewrite length_fmap, length_seq. reflexivity.
Qed.

Lemma eviction_is_fifo_witness :
  map_get "block_0"
    (layer LBlocks (cache (exec (setCacheItem LBlocks "block_1000" (VNum 1000)) full_blocks)))
  = None.
Proof.
  assert (Hfull : maxCacheSize ≤ map_size (layer LBlocks (cache full_blocks)))
    by (rewrite full_blocks_size; unfold maxCacheSize; lia).
  destruct (eviction_is_fifo LBlocks "block_1000" (VNum 1000) full_blocks
              "block_0" (mkItem (VNum 0) 0)
              (tail (layer LBlocks (cache full_blocks)))
              eq_refl full_blocks_unique Hfull) as (H1 & _).
  apply H1. discriminate.
Defined.

(** ** Per-block readers: a repeated read is served from the cache *)

(** The shape shared by [getBlockHeader], [getBlock] and [getOpsInBlock]
    once the key is built: look the key up, else fetch, store, and print
    the log line. *)
Definition cached_read (l : Layer) (cacheKey : string) (fetch : M value)
    (logged : value → M value) : M value :=
  try_catch
    (cached ← getCacheItem l cacheKey blockTTL;
     if truthy cached then mret cached
     else
       result ← fetch;
       setCacheItem l cacheKey result;;
       logged result)
    (λ error, throw error).

(** A log line returns the result it is given and leaves the server
    alone, or throws. *)
Definition log_line (logged : value → M value) : Prop :=
  ∀ result s o s', logged result s = (o, s') →
    s' = s ∧ ∀ v, o = Ok v → v = result.

Lemma getBlockHeader_cached_read upstream n k :
  toStr n = Ok k →
  getBlockHeader upstream n =
  cached_read LBlockHeaders ("header_" +:+ k)
    (callSteemAPI upstream "getBlockHeader" (VArr [n])) (λ result, mret result).
Proof. intros H. unfold getBlockHeader. rewrite H. reflexivity. Qed.

Lemma getBlock_cached_read upstream n k :
  toStr n = Ok k →
  getBlock upstream n =
  cached_read LBlocks ("block_" +:+ k)
    (callSteemAPI upstream "getBlock" (VArr [n]))
    (λ result,
       transactions ← lift (readProp result "transactions");
       len ← lift (optLength transactions);
       _ ← lift (toStr (js_or len (VNum 0)));
       mret result).
Proof. intros H. unfold getBlock. rewrite H. reflexivity. Qed.

Lemma getOpsInBlock_cached_read upstream n onlyVirtual k v :
  toStr n = Ok k → toStr onlyVirtual = Ok v →
  getOpsInBlock upstream n onlyVirtual =
  cached_read LOperations ("ops_" +:+ k +:+ "_" +:+ v)
    (callSteemAPI upstream "getOpsInBlock" (VArr [n; onlyVirtual]))
    (λ result,
       len ← lift (getLength result);
       _ ← lift (toStr len);
       mret result).
Proof. intros H1 H2. unfold getOpsInBlock. rewrite H1, H2. reflexivity. Qed.

(** A block number, or a flag, that cannot be printed: the key is not
    built, and the reader throws without looking at the cache. *)
Lemma getBlockHeader_unprintable upstream n e s :
  toStr n = Throw e → getBlockHeader upstream n s = (Throw e, s).
Proof. intros H. unfold getBlockHeader. munfold. rewrite H. reflexivity. Qed.

Lemma getBlock_unprintable upstream n e s :
  toStr n = Throw e → getBlock upstream n s = (Throw e, s).
Proof. intros H. unfold getBlock. munfold. rewrite H. reflexivity. Qed.

Lemma getOpsInBlock_unprintable upstream n onlyVirtual s :
  (∃ e, toStr n = Throw e) ∨ (∃ e, toStr onlyVirtual = Throw e) →
  ∃ e, getOpsInBlock upstream n onlyVirtual s = (Throw e, s).
Proof.
  unfold getOpsInBlock. munfold. intros [[e H]|[e H]].
  - rewrite H. eexists. reflexivity.
  - rewrite H. destruct (toStr n); eexists; reflexivity.
Qed.

Lemma log_line_header : log_line (λ result, mret result).
Proof. intros result s o s' [= <- <-]. split; [reflexivity|]. now intros v [= <-]. Qed.

Lemma log_line_block :
  log_line (λ result,
       transactions ← lift (readProp result "transactions");
       len ← lift (optLength transactions);
       _ ← lift (toStr (js_or len (VNum 0)));
       mret result).
Proof.
  intros result s o s'. munfold.
  destruct (readProp result "transactions") as [tr|]; [|now intros [= <- <-]].
  destruct (optLength tr) as [len|]; [|now intros [= <- <-]].
  destruct (toStr (js_or len (VNum 0))); intros [= <- <-];
    (split; [reflexivity|]); try discriminate. now intros v [= <-].
Qed.

Lemma log_line_ops :
  log_line (λ result,
       len ← lift (getLength result);
       _ ← lift (toStr len);
       mret result).
Proof.
  intros result s o s'. munfold.
  destruct (getLength result) as [len|]; [|now intros [= <- <-]].
  destruct (toStr len); intros [= <- <-];
    (split; [reflexivity|]); try discriminate. now intros v [= <-].
Qed.

Lemma setCacheItem_ok l key v s : setCacheItem l key v s = (Ok tt, exec (setCacheItem l key v) s).
Proof.
  unfold exec, setCacheItem. munfold. cbn.
  destruct (maxCacheSize <=? map_size (layer l (cache s))); reflexivity.
Qed.

Lemma setCacheItem_clock l key v s : clock (exec (setCacheItem l key v) s) = clock s.
Proof.
  unfold setCacheItem. munfold. cbn.
  destruct (maxCacheSize <=? map_size (layer l (cache s))); reflexivity.
Qed.

(** After a read that returned a truthy value, the value sits in the map
    under the key, not older than the TTL. *)
Lemma cached_read_stored l key fetch logged s v s1 :
  log_line logged →
  cached_read l key fetch logged s = (Ok v, s1) →
  truthy v = true →
  ∃ ts,
    map_get key (layer l (cache s1)) = Some (mkItem v ts)
    ∧ clock s1 - ts ≤ blockTTL.
Proof.
  unfold cached_read, try_catch, mbind, M_bind. rewrite getCacheItem_eq.
  intros Hlog Hrun Hv.
  destruct (map_get key (layer l (cache s))) as [[cached ts]|] eqn:Eget.
  - cbn [item_timestamp item_value] in Hrun.
    destruct (blockTTL <? clock s - ts) eqn:Ettl.
    + (* expired: fetched again *)
      cbn [truthy] in Hrun.
      match type of Hrun with context [fetch ?x] => destruct (fetch x) as [[r|e] sA] end;
        [|discriminate Hrun].
      rewrite setCacheItem_ok in Hrun.
      destruct (logged r _) as [[v'|e] s'] eqn:El; [|discriminate Hrun].
      destruct (Hlog _ _ _ _ El) as [-> Hv']. specialize (Hv' _ eq_refl). subst v'.
      injection Hrun as <- <-.
      exists (clock sA). rewrite setCacheItem_layer, map_get_set, setCacheItem_clock.
      split; [reflexivity|]. unfold blockTTL. lia.
    + destruct (truthy cached) eqn:Et.
      * unfold mret, M_ret in Hrun. injection Hrun as <- <-.
        exists ts. cbn [cache set_errorStats clock]. rewrite Eget.
        split; [reflexivity|]. apply Z.ltb_ge in Ettl. exact Ettl.
      * match type of Hrun with context [fetch ?x] => destruct (fetch x) as [[r|e] sA] end;
          [|discriminate Hrun].
        rewrite setCacheItem_ok in Hrun.
        destruct (logged r _) as [[v'|e] s'] eqn:El; [|discriminate Hrun].
        destruct (Hlog _ _ _ _ El) as [-> Hv']. specialize (Hv' _ eq_refl). subst v'.
        injection Hrun as <- <-.
        exists (clock sA). rewrite setCacheItem_layer, map_get_set, setCacheItem_clock.
        split; [reflexivity|]. unfold blockTTL. lia.
  - cbn [truthy] in Hrun.
    match type of Hrun with context [fetch ?x] => destruct (fetch x) as [[r|e] sA] end;
      [|discriminate Hrun].
    rewrite setCacheItem_ok in Hrun.
    destruct (logged r _) as [[v'|e] s'] eqn:El; [|discriminate Hrun].
    destruct (Hlog _ _ _ _ El) as [-> Hv']. specialize (Hv' _ eq_refl). subst v'.
    injection Hrun as <- <-.
    exists (clock sA). rewrite setCacheItem_layer, map_get_set, setCacheItem_clock.
    split; [reflexivity|]. unfold blockTTL. lia.
Qed.

(** A read that finds a truthy value within the TTL returns it and only
    counts a hit. *)
Lemma cached_read_hit l key fetch logged s v ts :
  map_get key (layer l (cache s)) = Some (mkItem v ts) →
  clock s - ts ≤ blockTTL →
  truthy v = true →
  cached_read l key fetch logged s
  = (Ok v, set_errorStats (incr_cacheHits (errorStats s)) s).
Proof.
  intros Hget Hts Hv. unfold cached_read, try_catch, mbind, M_bind.
  rewrite getCacheItem_eq, Hget. cbn [item_timestamp item_value].
  apply Z.ltb_ge in Hts. rewrite Hts, Hv. reflexivity.
Qed.

Lemma cached_read_again l key fetch logged s v s1 :
  log_line logged →
  cached_read l key fetch logged s = (Ok v, s1) →
  truthy v = true →
  ∃ ts,
    clock s1 - ts ≤ blockTTL
    ∧ ∀ t, t - ts ≤ blockTTL →
        cached_read l key fetch logged (set_clock t s1)
        = (Ok v, set_errorStats (incr_cacheHits (errorStats s1)) (set_clock t s1)).
Proof.
  intros Hlog Hrun Hv.
  destruct (cached_read_stored l key fetch logged s v s1 Hlog Hrun Hv)
    as (ts & Hget & Hts).
  exists ts. split; [exact Hts|]. intros t Ht.
  now apply (cached_read_hit l key fetch logged (set_clock t s1) v ts).
Qed.

(** X3.  A per-block read that returned a truthy payload is served from
    the cache when repeated: as long as the entry is within the block TTL,
    the same call returns the same payload, counts one cache hit and does
    nothing else; in particular it makes no upstream call.  The entry is
    within the TTL when the first read returns. *)
Theorem repeated_block_read_hits upstream :
  (∀ n s v s1,
     getBlockHeader upstream n s = (Ok v, s1) → truthy v = true →
     ∃ ts,
       clock s1 - ts ≤ blockTTL
       ∧ ∀ t, t - ts ≤ blockTTL →
           getBlockHeader upstream n (set_clock t s1)
           = (Ok v, set_errorStats (incr_cacheHits (errorStats s1)) (set_clock t s1)))
  ∧ (∀ n s v s1,
       getBlock upstream n s = (Ok v, s1) → truthy v = true →
       ∃ ts,
         clock s1 - ts ≤ blockTTL
         ∧ ∀ t, t - ts ≤ blockTTL →
             getBlock upstream n (set_clock t s1)
             = (Ok v, set_errorStats (incr_cacheHits (errorStats s1)) (set_clock t s1)))
  ∧ (∀ n onlyVirtual s v s1,
       getOpsInBlock upstream n onlyVirtual s = (Ok v, s1) → truthy v = true →
       ∃ ts,
         clock s1 - ts ≤ blockTTL
         ∧ ∀ t, t - ts ≤ blockTTL →
             getOpsInBlock upstream n onlyVirtual (set_clock t s1)
             = (Ok v, set_errorStats (incr_cacheHits (errorStats s1)) (set_clock t s1))).
Proof.
  repeat apply conj.
  - intros n s v s1. destruct (toStr n) as [k|e] eqn:E.
    + rewrite (getBlockHeader_cached_read upstream n k E).
      apply cached_read_again, log_line_header.
    + rewrite (getBlockHeader_unprintable upstream n e s E). discriminate.
  - intros n s v s1. destruct (toStr n) as [k|e] eqn:E.
    + rewrite (getBlock_cached_read upstream n k E).
      apply cached_read_again, log_line_block.
    + rewrite (getBlock_unprintable upstream n e s E). discriminate.
  - intros n onlyVirtual s v s1.
    destruct (toStr n) as [k|e] eqn:E1; [destruct (toStr onlyVirtual) as [k'|e] eqn:E2|].
    + rewrite (getOpsInBlock_cached_read upstream n onlyVirtual k k' E1 E2).
      apply cached_read_again, log_line_ops.
    + destruct (getOpsInBlock_unprintable upstream n onlyVirtual s) as [e' ->];
        [right; now exists e|discriminate].
    + destruct (getOpsInBlock_unprintable upstream n onlyVirtual s) as [e' ->];
        [left; now exists e|discriminate].
Qed.

(** ** Invariants of the running server *)

(** The client points at the endpoint of [currentNodeIndex], and that index
    has a health record. *)
Definition pool_ok (s : Server) : Prop :=
  steemClient s = currentNodeIndex s
  ∧ (currentNodeIndex s < length steemNodes)%nat
  ∧ length (nodeHealth s) = length steemNodes.

Definition stats_ok (s : Server) : Prop :=
  totalErrors (errorStats s) = nodeErrors (errorStats s).

Definition queue_ok (s : Server) : Prop :=
  Z.of_nat (length (requestQueue s)) ≤ maxQueueSize.

Definition sound (s : Server) : Prop :=
  pool_ok s ∧ stats_ok s ∧ queue_ok s ∧ cache_bounded (cache s).

Definition keeps (P : Server → Prop) : relation Server := λ s s', P s → P s'.

#[global] Instance keeps_preorder P : PreOrder (keeps P).
Proof.
  split.
  - intros s H. exact H.
  - intros s1 s2 s3 H1 H2 H. exact (H2 (H1 H)).
Qed.

(** What everything behind the work queue respects: the queue and its
    flag are left alone, and the invariants are kept. *)
Definition backend : relation Server := λ s s',
  requestQueue s' = requestQueue s
  ∧ isProcessingQueue s' = isProcessingQueue s
  ∧ (sound s → sound s').

#[global] Instance backend_preorder : PreOrder backend.
Proof.
  split.
  - intros s. split; [reflexivity|]. split; [reflexivity|]. intros H. exact H.
  - intros s1 s2 s3 (H1 & H2 & H3) (H4 & H5 & H6).
    split; [congruence|]. split; [congruence|]. intros H. exact (H6 (H3 H)).
Qed.

Lemma backend_keeps s s' : backend s s' → keeps sound s s'.
Proof. intros (_ & _ & H). exact H. Qed.

Ltac backend_leaf :=
  lazymatch goal with
  | |- respects backend (modify _) =>
      apply respects_modify; intros ?;
      split; [reflexivity|split; [reflexivity|]];
      let Hc := fresh "Hc" in
      intros ((? & ? & ?) & ? & ? & Hc);
      pose proof (Hc LBlockHeaders); pose proof (Hc LBlocks);
      pose proof (Hc LOperations);
      unfold sound, pool_ok, stats_ok, queue_ok, cache_bounded;
      split_and!; cbn; rewrite ?length_alter; try assumption;
      intros []; assumption
  end.

Create HintDb backend.

Ltac backend_auto :=
  repeat first
    [ solve [auto with backend]
    | respects_step
    | progress (unfold update_cache, update_errorStats, update_health, update_feed,
                  update_socket, now, log, sleep, timestamp)
    | backend_leaf ].

Lemma send_backend ws fs : respects backend (send ws fs).
Proof.
  intros s. unfold send, modify. cbn [snd].
  destruct (is_open _); [|reflexivity].
  split; [reflexivity|]. split; [reflexivity|]. intros H. exact H.
Qed.
#[global] Hint Resolve send_backend : backend.

Lemma clearCache_backend : respects backend clearCache.
Proof.
  intros s. split; [reflexivity|]. split; [reflexivity|].
  intros (Hp & Hs & Hq & Hc). unfold sound. split_and!; try assumption.
  intros l. pose proof (clearCache_cache s) as E. unfold exec in E. rewrite E.
  destruct l; vm_compute; discriminate.
Qed.
#[global] Hint Resolve clearCache_backend : backend.

Lemma setCacheItem_backend l key v : respects backend (setCacheItem l key v).
Proof.
  intros s. pose proof (cache_op_bounded (Store l key v) s) as Hb.
  cbn [cache_op] in Hb. revert Hb.
  unfold setCacheItem. munfold. cbn.
  destruct (maxCacheSize <=? map_size (layer l (cache s))); cbn; intros Hb;
    (split; [reflexivity|]); (split; [reflexivity|]);
    intros (Hp & Hs & Hq & Hc); split_and!; try assumption; apply Hb, Hc.
Qed.
#[global] Hint Resolve setCacheItem_backend : backend.

Lemma getCacheItem_backend l key ttl : respects backend (getCacheItem l key ttl).
Proof.
  intros s. pose proof (cache_op_bounded (Lookup l key ttl) s) as Hb.
  cbn [cache_op] in Hb. revert Hb.
  unfold getCacheItem. munfold. cbn.
  destruct (map_get key (layer l (cache s))) as [item|]; cbn;
    [destruct (ttl <? clock s - item_timestamp item); cbn|]; intros Hb;
    (split; [reflexivity|]); (split; [reflexivity|]);
    intros (Hp & Hs & Hq & Hc); split_and!; try assumption; apply Hb, Hc.
Qed.
#[global] Hint Resolve getCacheItem_backend : backend.

(** The endpoint chosen by a failover has a health record. *)
Lemma healthyNodes_index t hs bestNode rest :
  healthyNodes t hs = bestNode :: rest → (bestNode.1 < length hs)%nat.
Proof.
  intros H. assert (In bestNode (healthyNodes t hs)) as Hin by (rewrite H; now left).
  unfold healthyNodes in Hin. apply js_sort_In in Hin.
  apply List.filter_In in Hin as [Hin _]. destruct bestNode as [i h].
  apply with_index_In in Hin. apply lookup_lt_Some in Hin. exact Hin.
Qed.

Lemma switchToHealthyNode_backend : respects backend switchToHealthyNode.
Proof.
  intros s. unfold switchToHealthyNode, clearCache. munfold. simpl.
  destruct (healthyNodes _ _) as [|bestNode rest] eqn:E; cbn;
    (split; [reflexivity|]); (split; [reflexivity|]);
    intros ((Hp1 & Hp2 & Hp3) & Hs & Hq & Hc).
  - unfold sound, pool_ok. cbn. rewrite length_alter. split_and!; assumption.
  - apply healthyNodes_index in E. rewrite length_alter in E.
    unfold sound, pool_ok. cbn. rewrite length_alter.
    split_and!; try assumption; try reflexivity.
    + rewrite Hp3 in E. exact E.
    + intros []; vm_compute; discriminate.
Qed.
#[global] Hint Resolve switchToHealthyNode_backend : backend.

Lemma switchNode_backend : respects backend switchNode.
Proof.
  intros s. unfold switchNode. munfold. cbn -[Nat.modulo length steemNodes].
  split; [reflexivity|]. split; [reflexivity|].
  intros ((Hp1 & Hp2 & Hp3) & Hs & Hq & Hc).
  unfold sound, pool_ok. cbn [steemClient currentNodeIndex nodeHealth set_cache
    set_steemClient set_currentNodeIndex].
  split_and!; try assumption; try reflexivity.
  apply Nat.mod_upper_bound. discriminate.
Qed.
#[global] Hint Resolve switchNode_backend : backend.

Lemma call_upstream_backend upstream c : respects backend (call_upstream upstream c).
Proof.
  intros s. unfold call_upstream. destruct (upstream _ _ _).
  split; [reflexivity|]. split; [reflexivity|]. intros H. exact H.
Qed.
#[global] Hint Resolve call_upstream_backend : backend.

Lemma route_backend upstream method params :
  respects backend (route upstream method params).
Proof. unfold route. backend_auto. Qed.
#[global] Hint Resolve route_backend : backend.

(** The two counters of a failed call go up together. *)
Lemma count_error_backend {A} (error : JsError) :
  respects backend
    (update_errorStats incr_totalErrors;;
     update_errorStats incr_nodeErrors;;
     @throw A error).
Proof.
  intros s. munfold. cbn.
  split; [reflexivity|]. split; [reflexivity|].
  intros (Hp & Hs & Hq & Hc). unfold sound, stats_ok in *. cbn.
  split_and!; try assumption. lia.
Qed.
#[global] Hint Resolve count_error_backend : backend.

Lemma callSteemAPI_from_backend upstream remaining attempt method params maxRetries :
  respects backend
    (callSteemAPI_from upstream remaining attempt method params maxRetries).
Proof.
  revert attempt. induction remaining as [|n IH]; intros attempt; simpl.
  - backend_auto.
  - backend_auto.
Qed.

Lemma callSteemAPI_backend upstream method params :
  respects backend (callSteemAPI upstream method params).
Proof. apply callSteemAPI_from_backend. Qed.
#[global] Hint Resolve callSteemAPI_backend : backend.

Lemma broadcast_pass_backend members message :
  respects backend (broadcast_pass members message).
Proof. induction members as [|client rest IH]; simpl; backend_auto. Qed.
#[global] Hint Resolve broadcast_pass_backend : backend.

Lemma broadcastToSubscribers_backend f message :
  respects backend (broadcastToSubscribers f message).
Proof. unfold broadcastToSubscribers. backend_auto. Qed.
#[global] Hint Resolve broadcastToSubscribers_backend : backend.

Lemma getDynamicGlobalProperties_backend upstream :
  respects backend (getDynamicGlobalProperties upstream).
Proof. unfold getDynamicGlobalProperties. backend_auto. Qed.
#[global] Hint Resolve getDynamicGlobalProperties_backend : backend.

Lemma getBlockHeader_backend upstream n : respects backend (getBlockHeader upstream n).
Proof. unfold getBlockHeader. backend_auto. Qed.
#[global] Hint Resolve getBlockHeader_backend : backend.

Lemma getBlock_backend upstream n : respects backend (getBlock upstream n).
Proof. unfold getBlock. backend_auto. Qed.
#[global] Hint Resolve getBlock_backend : backend.

Lemma getOpsInBlock_backend upstream n v : respects backend (getOpsInBlock upstream n v).
Proof. unfold getOpsInBlock. backend_auto. Qed.
#[global] Hint Resolve getOpsInBlock_backend : backend.

Lemma getActiveWitnesses_backend upstream : respects backend (getActiveWitnesses upstream).
Proof. unfold getActiveWitnesses. backend_auto. Qed.
#[global] Hint Resolve getActiveWitnesses_backend : backend.

Lemma dispatch_backend upstream ws id method params :
  respects backend (dispatch upstream ws id method params).
Proof.
  unfold dispatch, subscribe, unsubscribe, getTransaction, getTicker, getOrderBook,
    getRecentTrades, getAccounts, getMarketHistory, getAccountHistory,
    getWitnessesByVote, getVestingDelegations.
  backend_auto.
Qed.
#[global] Hint Resolve dispatch_backend : backend.

Lemma handleMessage_backend upstream ws data :
  respects backend (handleMessage upstream ws data).
Proof. unfold handleMessage, handleMessage_catch. backend_auto. Qed.
#[global] Hint Resolve handleMessage_backend : backend.

Lemma processNewBlockForSubscriptions_backend upstream blockNumber :
  respects backend (processNewBlockForSubscriptions upstream blockNumber).
Proof. unfold processNewBlockForSubscriptions. backend_auto. Qed.
#[global] Hint Resolve processNewBlockForSubscriptions_backend : backend.

Lemma periodicUpdate_backend upstream : respects backend (periodicUpdate upstream).
Proof.
  unfold periodicUpdate, broadcastNewBlock, broadcastNewBlock_subscribers,
    broadcastNewBlock_legacy, legacyBroadcast.
  backend_auto.
Qed.

Lemma healthCheck_backend upstream : respects backend (healthCheck upstream).
Proof. unfold healthCheck. backend_auto. Qed.

Lemma onConnection_backend ws : respects backend (onConnection ws).
Proof. unfold onConnection. backend_auto. Qed.

(** *** The front end keeps the invariants *)

Create HintDb keeps.

Ltac keeps_leaf :=
  lazymatch goal with
  | |- respects (keeps sound) (modify _) =>
      let H := fresh in apply respects_modify; intros ? H; exact H
  end.

Ltac keeps_auto :=
  repeat first
    [ solve [auto with keeps]
    | solve [apply (respects_impl backend); [apply backend_keeps|backend_auto]]
    | respects_step
    | progress (unfold update_socket, update_feed, now)
    | keeps_leaf ].

Lemma processQueue_pass_idle upstream s :
  requestQueue s = [] → processQueue_pass upstream s = (Ok tt, s).
Proof.
  intros Hq. unfold processQueue_pass, mbind, M_bind, gets. cbv beta iota.
  rewrite Hq. reflexivity.
Qed.

Lemma processQueue_pass_eq upstream s ws data rest :
  requestQueue s = (ws, data) :: rest →
  processQueue_pass upstream s
  = when (is_open (readyState (sockets s ws)))
      (try_catch (handleMessage upstream ws data) (λ error, mret tt))
      (set_requestQueue rest s).
Proof.
  intros Hq. unfold processQueue_pass, mbind, M_bind, gets, modify. cbv beta iota.
  rewrite Hq. reflexivity.
Qed.

(** One pass of the queue loop takes the first request off the queue and
    leaves the rest of the queue as it is. *)
Lemma processQueue_pass_pops upstream s ws data rest :
  requestQueue s = (ws, data) :: rest →
  requestQueue (exec (processQueue_pass upstream) s) = rest
  ∧ isProcessingQueue (exec (processQueue_pass upstream) s) = isProcessingQueue s
  ∧ (sound s → sound (exec (processQueue_pass upstream) s)).
Proof.
  intros Hq. unfold exec. rewrite (processQueue_pass_eq upstream s ws data rest Hq).
  assert (respects backend
            (when (is_open (readyState (sockets s ws)))
               (try_catch (handleMessage upstream ws data) (λ error, mret tt))))
    as Hb by backend_auto.
  destruct (Hb (set_requestQueue rest s)) as (H1 & H2 & H3).
  split; [exact H1|]. split; [exact H2|].
  intros (Hp & Hs & Hqo & Hc). apply H3. split_and!; try assumption.
  unfold queue_ok in *. cbn. rewrite Hq in Hqo. cbn [length] in Hqo. lia.
Qed.

Lemma processQueue_pass_sound upstream :
  respects (keeps sound) (processQueue_pass upstream).
Proof.
  intros s Hs. destruct (requestQueue s) as [|[ws data] rest] eqn:Hq.
  - rewrite processQueue_pass_idle by exact Hq. exact Hs.
  - now apply (processQueue_pass_pops upstream s ws data rest Hq).
Qed.
#[global] Hint Resolve processQueue_pass_sound : keeps.

Lemma processQueue_sound upstream : respects (keeps sound) (processQueue upstream).
Proof. unfold processQueue. keeps_auto. Qed.
#[global] Hint Resolve processQueue_sound : keeps.

Lemma processQueue_resume_sound upstream :
  respects (keeps sound) (processQueue_resume upstream).
Proof. unfold processQueue_resume. keeps_auto. Qed.

Lemma enqueue_sound upstream ws message :
  respects (keeps sound) (enqueue upstream ws message).
Proof.
  unfold enqueue.
  apply respects_try_catch; [typeclasses eauto| |intros error; keeps_auto].
  apply respects_bind; [typeclasses eauto|keeps_auto|intros data].
  intros s Hs. unfold mbind at 1, M_bind at 1, gets. cbv beta iota.
  destruct (Z.of_nat (length (requestQueue s)) <? maxQueueSize) eqn:E.
  - unfold mbind, M_bind, modify. cbv beta iota.
    apply processQueue_sound.
    destruct Hs as (Hp & Hst & Hq & Hc). split_and!; try assumption.
    unfold queue_ok. cbn. rewrite List.length_app. cbn [length].
    apply Z.ltb_lt in E. lia.
  - clear E. revert s Hs. change (respects (keeps sound) (send ws queue_full_frame)).
    keeps_auto.
Qed.
#[global] Hint Resolve enqueue_sound : keeps.

Lemma onMessage_sound upstream ws message :
  respects (keeps sound) (onMessage upstream ws message).
Proof. unfold onMessage. keeps_auto. Qed.

Lemma onClose_sound ws : respects (keeps sound) (onClose ws).
Proof.
  unfold onClose. keeps_auto.
  apply respects_modify. intros s (Hp & Hs & Hq & Hc). split_and!; try assumption.
  unfold queue_ok in *. cbn.
  pose proof (List.filter_length_le (λ req : nat * value, negb (Nat.eqb req.1 ws))
                (requestQueue s)).
  lia.
Qed.

Lemma handler_sound upstream i : respects (keeps sound) (handler upstream i).
Proof.
  destruct i; cbn [handler].
  - apply (respects_impl backend); [apply backend_keeps|apply onConnection_backend].
  - apply onMessage_sound.
  - apply onClose_sound.
  - apply processQueue_resume_sound.
  - apply (respects_impl backend); [apply backend_keeps|apply periodicUpdate_backend].
  - apply (respects_impl backend); [apply backend_keeps|apply healthCheck_backend].
Qed.

Lemma initial_sound t : sound (initial t).
Proof.
  split_and!; try reflexivity.
  - vm_compute. lia.
  - vm_compute. discriminate.
  - intros []; vm_compute; discriminate.
Qed.

Lemma run_sound upstream inputs s : sound s → sound (run upstream s inputs).
Proof.
  revert s. induction inputs as [|ti inputs IH]; intros s Hs; simpl; [exact Hs|].
  apply IH. unfold step. apply handler_sound. exact Hs.
Qed.

(** X4.  Whatever arrives and whatever the endpoints answer,
    [this.currentNodeIndex] stays an index of [steemNodes] with a health
    record behind it, and the client is the one built for that index: the
    reads and writes of [this.nodeHealth[this.currentNodeIndex]] never meet
    [undefined]. *)
Theorem current_node_always_valid upstream t inputs :
  let s := run upstream (initial t) inputs in
  steemClient s = currentNodeIndex s
  ∧ is_Some (steemNodes !! currentNodeIndex s)
  ∧ is_Some (nodeHealth s !! currentNodeIndex s).
Proof.
  intros s.
  destruct (run_sound upstream inputs (initial t) (initial_sound t))
    as ((H1 & H2 & H3) & _).
  fold s in H1, H2, H3. split; [exact H1|]. split.
  - apply lookup_lt_is_Some. exact H2.
  - apply lookup_lt_is_Some. rewrite H3. exact H2.
Qed.

(** X5.  The memory the server holds for requests and replies stays
    bounded along every run: the work queue never holds more than
    [maxQueueSize] = 1000 requests, and none of the three per-block maps
    holds more than [maxCacheSize] = 1000 entries. *)
Theorem queue_and_cache_stay_bounded upstream t inputs :
  let s := run upstream (initial t) inputs in
  Z.of_nat (length (requestQueue s)) ≤ 1000
  ∧ map_size (blockHeaders (cache s)) ≤ 1000
  ∧ map_size (blocks (cache s)) ≤ 1000
  ∧ map_size (operations (cache s)) ≤ 1000.
Proof.
  intros s.
  destruct (run_sound upstream inputs (initial t) (initial_sound t))
    as (_ & _ & Hq & Hc).
  fold s in Hq, Hc. split; [exact Hq|].
  split; [exact (Hc LBlockHeaders)|]. split; [exact (Hc LBlocks)|exact (Hc LOperations)].
Qed.

(** X6.  [totalErrors] and [nodeErrors] are the same number at all times:
    the only place that counts an error is the last failed attempt of
    [callSteemAPI], which counts it in both. *)
Theorem totalErrors_counts_node_errors_only upstream t inputs :
  let s := run upstream (initial t) inputs in
  totalErrors (errorStats s) = nodeErrors (errorStats s).
Proof.
  intros s.
  destruct (run_sound upstream inputs (initial t) (initial_sound t))
    as (_ & Hs & _).
  exact Hs.
Qed.

(** ** The queue loop *)

(** Firings of the 10 ms timer of [processQueue], at the given times. *)
Definition timers (ts : list Z) : list (Z * Input) := (λ t, (t, QueueTimer)) <$> ts.

Lemma queue_timer_busy upstream s t :
  isProcessingQueue s = true →
  match requestQueue s with
  | [] =>
      requestQueue (step upstream s (t, QueueTimer)) = []
      ∧ isProcessingQueue (step upstream s (t, QueueTimer)) = false
  | _ :: rest =>
      requestQueue (step upstream s (t, QueueTimer)) = rest
      ∧ isProcessingQueue (step upstream s (t, QueueTimer)) = true
  end.
Proof.
  intros Hbusy. unfold step. cbn [snd fst handler].
  set (s0 := set_clock (Z.max (clock s) t) s).
  assert (Hb0 : isProcessingQueue s0 = true) by exact Hbusy.
  destruct (requestQueue s) as [|[ws data] rest] eqn:Hq.
  - assert (Hq0 : requestQueue s0 = []) by exact Hq.
    unfold exec, processQueue_resume, mbind, M_bind, gets. cbv beta iota.
    rewrite Hb0, Hq0. cbn. split; [exact Hq|reflexivity].
  - assert (Hq0 : requestQueue s0 = (ws, data) :: rest) by exact Hq.
    destruct (processQueue_pass_pops upstream s0 ws data rest Hq0) as (H1 & H2 & _).
    unfold exec in *. unfold processQueue_resume, mbind, M_bind, gets. cbv beta iota.
    rewrite Hb0, Hq0. cbn [length Nat.ltb Nat.leb].
    split; [exact H1|]. rewrite H2. exact Hb0.
Qed.

Lemma queue_timer_idle upstream s t :
  isProcessingQueue s = false →
  requestQueue (step upstream s (t, QueueTimer)) = requestQueue s
  ∧ isProcessingQueue (step upstream s (t, QueueTimer)) = false.
Proof.
  intros Hidle. unfold step. cbn [snd fst handler].
  set (s0 := set_clock (Z.max (clock s) t) s).
  assert (Hb0 : isProcessingQueue s0 = false) by exact Hidle.
  unfold exec, processQueue_resume, mbind, M_bind, gets. cbv beta iota.
  rewrite Hb0. cbn. split; [reflexivity|exact Hidle].
Qed.

Lemma timers_idle upstream ts s :
  isProcessingQueue s = false →
  requestQueue (run upstream s (timers ts)) = requestQueue s
  ∧ isProcessingQueue (run upstream s (timers ts)) = false.
Proof.
  revert s. induction ts as [|t ts IH]; intros s Hidle.
  - split; [reflexivity|exact Hidle].
  - change (run upstream s (timers (t :: ts)))
      with (run upstream (step upstream s (t, QueueTimer)) (timers ts)).
    destruct (queue_timer_idle upstream s t Hidle) as (H1 & H2).
    destruct (IH _ H2) as (H3 & H4). split; [congruence|exact H4].
Qed.

(** X7.  A running queue loop hands the requests to [handleMessage] one per
    timer firing, first come first served: a firing takes the first request
    off the queue, processes it if its socket is still open, and swallows
    what it throws.  With nothing else arriving, after [k] firings the first
    [k] requests are gone and the others wait in their order; the firing
    that finds the queue empty ends the loop. *)
Theorem queue_drains_in_order upstream s :
  isProcessingQueue s = true →
  (∀ t ws data rest,
     requestQueue s = (ws, data) :: rest →
     step upstream s (t, QueueTimer)
     = exec (when (is_open (readyState (sockets s ws)))
               (try_catch (handleMessage upstream ws data) (λ error, mret tt)))
         (set_requestQueue rest (set_clock (Z.max (clock s) t) s)))
  ∧ (∀ ts,
       requestQueue (run upstream s (timers ts))
       = drop (length ts) (requestQueue s)
       ∧ isProcessingQueue (run upstream s (timers ts))
         = (length ts <=? length (requestQueue s))%nat).
Proof.
  intros Hbusy. split.
  - intros t ws data rest Hq. unfold step. cbn [snd fst handler].
    set (s0 := set_clock (Z.max (clock s) t) s).
    assert (Hb0 : isProcessingQueue s0 = true) by exact Hbusy.
    assert (Hq0 : requestQueue s0 = (ws, data) :: rest) by exact Hq.
    unfold exec, processQueue_resume, mbind, M_bind, gets. cbv beta iota.
    rewrite Hb0, Hq0. cbn [length Nat.ltb Nat.leb].
    rewrite (processQueue_pass_eq upstream s0 ws data rest Hq0). reflexivity.
  - intros ts. revert s Hbusy. induction ts as [|t ts IH]; intros s Hbusy.
    + cbn. split; [reflexivity|exact Hbusy].
    + change (run upstream s (timers (t :: ts)))
        with (run upstream (step upstream s (t, QueueTimer)) (timers ts)).
      cbn [length].
      pose proof (queue_timer_busy upstream s t Hbusy) as Hstep.
      destruct (requestQueue s) as [|x rest] eqn:Hq.
      * destruct Hstep as (H1 & H2).
        destruct (timers_idle upstream ts _ H2) as (H3 & H4).
        rewrite H3, H4, H1. split; reflexivity.
      * destruct Hstep as (H1 & H2).
        destruct (IH _ H2) as (H3 & H4).
        rewrite H3, H4, H1. split; reflexivity.
Qed.

(** A loop in progress over two requests of socket 1. *)
Definition two_queued : Server :=
  set_isProcessingQueue true
    (set_requestQueue
       [ (1%nat, request (VNum 1) "get_block" (VArr [VNum 7]));
         (1%nat, request (VNum 2) "get_ticker" (VArr [])) ]
       one_client).

Lemma queue_drains_in_order_witness :
  requestQueue (run upstream_up two_queued (timers [10; 20]))
  = []
  ∧ isProcessingQueue (run upstream_up two_queued (timers [10; 20; 30])) = false.
Proof.
  destruct (queue_drains_in_order upstream_up two_queued eq_refl) as [_ H].
  split.
  - exact (proj1 (H [10; 20])).
  - exact (proj2 (H [10; 20; 30])).
Defined.

(** ** Sessions: closing and the subscription registry *)

Lemma set_has_add ws c l :
  set_has ws (set_add c l) = set_has ws l || Nat.eqb c ws.
Proof.
  unfold set_add. destruct (set_has c l) eqn:E.
  - destruct (Nat.eqb_spec c ws) as [->|Hne].
    + now rewrite E.
    + now rewrite orb_false_r.
  - unfold set_has. rewrite existsb_app. cbn. rewrite orb_false_r.
    now rewrite (Nat.eqb_sym ws c).
Qed.

Lemma set_add_member ws l : set_has ws l = true → set_add ws l = l.
Proof. intros H. unfold set_add. now rewrite H. Qed.

Lemma set_delete_absent ws l : set_has ws l = false → set_delete ws l = l.
Proof.
  unfold set_has, set_delete. induction l as [|x l IH]; simpl; [reflexivity|].
  intros H. apply orb_false_iff in H as [Hx Hl]. rewrite Hx. simpl.
  now rewrite IH.
Qed.

Definition feed_eqb (f f' : Feed) : bool :=
  match f, f' with
  | FGlobalProperties, FGlobalProperties | FBlocks, FBlocks
  | FBlockHeaders, FBlockHeaders | FOperations, FOperations
  | FWitnesses, FWitnesses => true
  | _, _ => false
  end.

Lemma feed_set_feed_other f f' x b :
  feed_eqb f f' = false → feed f' (set_feed f x b) = feed f' b.
Proof. destruct f, f'; (discriminate || reflexivity). Qed.

Lemma feed_eqb_eq f f' : feed_eqb f f' = true → f = f'.
Proof. destruct f, f'; (discriminate || reflexivity). Qed.

(** The state the ["close"] handler leaves. *)
Lemma onClose_state ws s :
  exec (onClose ws) s
  = set_subscribers
      (mkSubs (set_delete ws (sub_globalProperties (subscribers s)))
         (set_delete ws (sub_blocks (subscribers s)))
         (set_delete ws (sub_blockHeaders (subscribers s)))
         (set_delete ws (sub_operations (subscribers s)))
         (set_delete ws (sub_witnesses (subscribers s))))
      (set_requestQueue
         (List.filter (λ req, negb (Nat.eqb req.1 ws)) (requestQueue s))
         (set_clients (set_delete ws (clients s))
            (set_sockets (<[ws := set_readyState CLOSED (sockets s ws)]> (sockets s)) s))).
Proof. reflexivity. Qed.

(** X8.  When a socket closes, the server forgets it: the socket is in
    none of the five subscriber sets any more and none of its requests is
    left in the work queue.  The other sockets keep their subscriptions,
    their queued requests, in their order, and what they were sent. *)
Theorem close_forgets_the_client ws s :
  (∀ f, set_has ws (feed f (subscribers (exec (onClose ws) s))) = false)
  ∧ Forall (λ req : nat * value, req.1 ≠ ws) (requestQueue (exec (onClose ws) s))
  ∧ (∀ ws', ws' ≠ ws →
       (∀ f, set_has ws' (feed f (subscribers (exec (onClose ws) s)))
             = set_has ws' (feed f (subscribers s)))
       ∧ List.filter (λ req : nat * value, Nat.eqb req.1 ws')
           (requestQueue (exec (onClose ws) s))
         = List.filter (λ req : nat * value, Nat.eqb req.1 ws') (requestQueue s)
       ∧ sockets (exec (onClose ws) s) ws' = sockets s ws').
Proof.
  rewrite onClose_state. cbn [subscribers requestQueue sockets set_subscribers
    set_requestQueue set_clients set_sockets].
  split_and!.
  - intros []; cbn -[set_has set_delete]; rewrite set_has_delete, Nat.eqb_refl;
      apply andb_false_r.
  - apply List.Forall_forall. intros req Hin. apply List.filter_In in Hin as [_ Hne].
    apply negb_true_iff, Nat.eqb_neq in Hne. exact Hne.
  - intros ws' Hne. split_and!.
    + assert (Nat.eqb ws ws' = false) as E by (apply Nat.eqb_neq; congruence).
      intros []; cbn -[set_has set_delete]; rewrite set_has_delete, E; apply andb_true_r.
    + induction (requestQueue s) as [|[w d] q IH]; [reflexivity|].
      cbn [List.filter fst negb].
      destruct (Nat.eqb_spec w ws) as [->|Hw]; cbn [negb List.filter fst].
      * assert (Nat.eqb ws ws' = false) as E by (apply Nat.eqb_neq; congruence).
        rewrite E. exact IH.
      * destruct (Nat.eqb w ws'); [now rewrite IH|exact IH].
    + now rewrite fn_lookup_insert_ne by congruence.
Qed.

(** The five feeds, by the name they have in the method names. *)
Definition feeds : list (string * Feed) :=
  [ ("global_properties", FGlobalProperties); ("blocks", FBlocks);
    ("block_headers", FBlockHeaders); ("operations", FOperations);
    ("witnesses", FWitnesses) ].

Ltac split_ifs :=
  repeat match goal with
  | |- context [if ?b then _ else _] => destruct b
  | |- context [match truthy ?v with _ => _ end] => destruct (truthy v)
  end.

Lemma subscribe_request_registry upstream ws id params s name f :
  In (name, f) feeds →
  subscribers
    (exec (handleMessage upstream ws (request id ("subscribe_" +:+ name) params)) s)
  = set_feed f (set_add ws (feed f (subscribers s))) (subscribers s).
Proof.
  intros Hin. unfold feeds in Hin. simpl in Hin.
  repeat (destruct Hin as [[= <- <-]|Hin];
    [unfold exec, handleMessage, request, dispatch, subscribe, update_feed, send;
     cbn -[is_method JSON_stringify]; decide_method; munfold;
     cbn -[JSON_stringify set_add]; split_ifs; reflexivity|]).
  destruct Hin.
Qed.

Lemma unsubscribe_request_registry upstream ws id params s name f :
  In (name, f) feeds →
  subscribers
    (exec (handleMessage upstream ws (request id ("unsubscribe_" +:+ name) params)) s)
  = set_feed f (set_delete ws (feed f (subscribers s))) (subscribers s).
Proof.
  intros Hin. unfold feeds in Hin. simpl in Hin.
  repeat (destruct Hin as [[= <- <-]|Hin];
    [unfold exec, handleMessage, request, dispatch, unsubscribe, update_feed, send;
     cbn -[is_method JSON_stringify]; decide_method; munfold;
     cbn -[JSON_stringify set_delete]; split_ifs; reflexivity|]).
  destruct Hin.
Qed.

Lemma set_feed_same f b : set_feed f (feed f b) b = b.
Proof. destruct f, b; reflexivity. Qed.

(** X9.  A [subscribe_<feed>] request puts the requesting socket into that
    feed's set and an [unsubscribe_<feed>] request takes it out; nothing
    else in the registry changes: the other sockets and the other feeds
    keep their membership.  Subscribing again while subscribed and
    unsubscribing while not subscribed leave the registry as it is, so a
    socket is never in a set twice. *)
Theorem subscription_requests_update_registry upstream ws id params s name f :
  In (name, f) feeds →
  let sub :=
    exec (handleMessage upstream ws (request id ("subscribe_" +:+ name) params)) s in
  let unsub :=
    exec (handleMessage upstream ws (request id ("unsubscribe_" +:+ name) params)) s in
  (∀ f' ws',
     set_has ws' (feed f' (subscribers sub))
     = set_has ws' (feed f' (subscribers s)) || (feed_eqb f f' && Nat.eqb ws ws'))
  ∧ (∀ f' ws',
       set_has ws' (feed f' (subscribers unsub))
       = set_has ws' (feed f' (subscribers s)) && negb (feed_eqb f f' && Nat.eqb ws ws'))
  ∧ (set_has ws (feed f (subscribers s)) = true → subscribers sub = subscribers s)
  ∧ (set_has ws (feed f (subscribers s)) = false → subscribers unsub = subscribers s).
Proof.
  intros Hin sub unsub. subst sub unsub.
  rewrite (subscribe_request_registry upstream ws id params s name f Hin).
  rewrite (unsubscribe_request_registry upstream ws id params s name f Hin).
  split_and!.
  - intros f' ws'. destruct (feed_eqb f f') eqn:E.
    + apply feed_eqb_eq in E as <-. rewrite feed_set_feed, set_has_add. reflexivity.
    + rewrite feed_set_feed_other by exact E. now rewrite orb_false_r.
  - intros f' ws'. destruct (feed_eqb f f') eqn:E.
    + apply feed_eqb_eq in E as <-. rewrite feed_set_feed, set_has_delete. reflexivity.
    + rewrite feed_set_feed_other by exact E. now rewrite andb_true_r.
  - intros H. rewrite set_add_member by exact H. apply set_feed_same.
  - intros H. rewrite set_delete_absent by exact H. apply set_feed_same.
Qed.

Lemma subscription_requests_update_registry_witness :
  set_has 1%nat
    (feed FBlocks
       (subscribers
          (exec (handleMessage upstream_up 1%nat
                   (request (VNum 7) ("subscribe_" +:+ "blocks") (VArr [])))
             one_client)))
  = true.
Proof.
  assert (Hin : In ("blocks", FBlocks) feeds) by (right; left; reflexivity).
  destruct (subscription_requests_update_registry upstream_up 1%nat (VNum 7) (VArr [])
              one_client "blocks" FBlocks Hin) as (H & _).
  rewrite (H FBlocks 1%nat). apply orb_true_r.
Defined.

(** ** The endpoint pool *)

(** [switchNode] steps to the next endpoint whatever the health records
    say. *)
Lemma switchNode_index s :
  currentNodeIndex (exec switchNode s)
  = ((currentNodeIndex s + 1) mod length steemNodes)%nat
  ∧ steemClient (exec switchNode s) = currentNodeIndex (exec switchNode s)
  ∧ nodeHealth (exec switchNode s) = nodeHealth s.
Proof. repeat split. Qed.

(** X10.  [switchNode] is a blind round robin: [k] calls move the server
    from endpoint [i] to endpoint [(i + k) mod 10], with the client rebuilt
    for it, so ten calls visit every endpoint once and come back to the
    first.  The health records are neither read nor changed: an endpoint
    marked unhealthy is taken like any other. *)
Theorem switchNode_round_robin s k :
  (currentNodeIndex s < length steemNodes)%nat →
  let s' := Nat.iter k (exec switchNode) s in
  currentNodeIndex s' = ((currentNodeIndex s + k) mod length steemNodes)%nat
  ∧ ((0 < k)%nat → steemClient s' = currentNodeIndex s')
  ∧ nodeHealth s' = nodeHealth s
  ∧ currentNodeIndex (Nat.iter (length steemNodes) (exec switchNode) s)
    = currentNodeIndex s.
Proof.
  intros Hi.
  assert (Hk : ∀ k,
    currentNodeIndex (Nat.iter k (exec switchNode) s)
    = ((currentNodeIndex s + k) mod length steemNodes)%nat
    ∧ nodeHealth (Nat.iter k (exec switchNode) s) = nodeHealth s).
  { intros n. induction n as [|n [IH1 IH2]].
    - change (Nat.iter 0 (exec switchNode) s) with s.
      rewrite Nat.add_0_r, Nat.mod_small by exact Hi. split; reflexivity.
    - change (Nat.iter (S n) (exec switchNode) s)
        with (exec switchNode (Nat.iter n (exec switchNode) s)).
      destruct (switchNode_index (Nat.iter n (exec switchNode) s)) as (H1 & _ & H3).
      rewrite H1, H3, IH1, IH2. split; [|reflexivity].
      rewrite Nat.Div0.add_mod_idemp_l. f_equal. lia. }
  cbv zeta. split; [apply Hk|]. split; [|split; [apply Hk|]].
  - intros Hpos. destruct k as [|k]; [lia|].
    change (Nat.iter (S k) (exec switchNode) s)
      with (exec switchNode (Nat.iter k (exec switchNode) s)).
    apply (switchNode_index (Nat.iter k (exec switchNode) s)).
  - rewrite (proj1 (Hk (length steemNodes))).
    rewrite <- (Nat.mul_1_l (length steemNodes)) at 1.
    rewrite Nat.Div0.mod_add. apply Nat.mod_small. exact Hi.
Qed.

Lemma switchNode_round_robin_witness :
  currentNodeIndex (Nat.iter 13 (exec switchNode) (initial 0)) = 3%nat.
Proof.
  assert (H : (currentNodeIndex (initial 0) < length steemNodes)%nat)
    by (vm_compute; lia).
  exact (proj1 (switchNode_round_robin (initial 0) 13 H)).
Defined.

(** What a call to an endpoint leaves alone. *)
Definition same_pool : relation Server := λ s s',
  nodeHealth s' = nodeHealth s
  ∧ currentNodeIndex s' = currentNodeIndex s
  ∧ errorStats s' = errorStats s.

#[global] Instance same_pool_preorder : PreOrder same_pool.
Proof.
  split.
  - intros s. repeat split.
  - intros s1 s2 s3 (H1 & H2 & H3) (H4 & H5 & H6). repeat split; congruence.
Qed.

Lemma route_pool upstream method params :
  respects same_pool (route upstream method params).
Proof.
  assert (H : ∀ c, respects same_pool (call_upstream upstream c)).
  { intros c s. unfold call_upstream. destruct (upstream _ _ _). repeat split. }
  unfold route. repeat first [solve [auto] | respects_step].
Qed.

(** [Math.round] of a quotient that lies between two integers lies between
    them. *)
Lemma round_div_between a b x n :
  0 < n → a * n ≤ x → x ≤ b * n → a ≤ round_div x n ∧ round_div x n ≤ b.
Proof.
  intros Hn Ha Hb. unfold round_div. split.
  - apply Z.div_le_lower_bound; lia.
  - apply Z.lt_succ_r. apply Z.div_lt_upper_bound; lia.
Qed.

Lemma record_success_average t responseTime h :
  0 ≤ totalRequests h →
  Z.min (avgResponseTime h) responseTime
    ≤ avgResponseTime (record_success t responseTime h)
  ∧ avgResponseTime (record_success t responseTime h)
    ≤ Z.max (avgResponseTime h) responseTime.
Proof.
  intros Hk. unfold record_success. cbn [avgResponseTime].
  apply round_div_between; [lia| |].
  - replace (totalRequests h + 1 - 1) with (totalRequests h) by lia.
    destruct (Z.min_spec (avgResponseTime h) responseTime) as [[? ->]|[? ->]]; nia.
  - replace (totalRequests h + 1 - 1) with (totalRequests h) by lia.
    destruct (Z.max_spec (avgResponseTime h) responseTime) as [[? ->]|[? ->]]; nia.
Qed.

Lemma round_div_exact x : round_div x 1 = x.
Proof. unfold round_div. replace (2 * x + 1) with (1 + x * (2 * 1)) by lia.
  rewrite Z.div_add by lia. reflexivity. Qed.

(** X11.  A call answered at the first attempt updates the record of the
    endpoint that answered: the request count goes up by one and the
    average response time becomes the rounded running mean, which is the
    measured time itself for the first request and otherwise lies between
    the old average and the measured time.  The endpoint is marked healthy,
    but its error count is not reset. *)
Theorem answered_call_updates_average upstream method params s h v s1 :
  nodeHealth s !! currentNodeIndex s = Some h →
  0 ≤ totalRequests h →
  route upstream method params s = (Ok v, s1) →
  ∃ s' h',
    callSteemAPI upstream method params s = (Ok v, s')
    ∧ nodeHealth s' !! currentNodeIndex s = Some h'
    ∧ totalRequests h' = totalRequests h + 1
    ∧ Z.min (avgResponseTime h) (clock s1 - clock s) ≤ avgResponseTime h'
    ∧ avgResponseTime h' ≤ Z.max (avgResponseTime h) (clock s1 - clock s)
    ∧ (totalRequests h = 0 → avgResponseTime h' = clock s1 - clock s)
    ∧ healthy h' = true
    ∧ errorCount h' = errorCount h
    ∧ lastSuccess h' = clock s1.
Proof.
  intros Hh Hk Hroute.
  destruct (route_pool upstream method params s) as (Hp1 & Hp2 & _).
  rewrite Hroute in Hp1, Hp2. cbn [snd] in Hp1, Hp2.
  unfold callSteemAPI. change (Z.to_nat 3) with 3%nat.
  rewrite callSteemAPI_from_unfold, Hroute. cbv zeta iota.
  eexists. exists (record_success (clock s1) (clock s1 - clock s) h).
  split; [reflexivity|].
  split.
  { cbn. rewrite list_lookup_alter_eq, Hp1, Hh. reflexivity. }
  pose proof (record_success_average (clock s1) (clock s1 - clock s) h Hk) as [Hlo Hhi].
  split_and!; try reflexivity; try assumption.
  intros H0. unfold record_success. cbn [avgResponseTime]. rewrite H0.
  change (0 + 1) with 1. rewrite round_div_exact. lia.
Qed.

(** Endpoint 0 answers its first request in 40 ms. *)
Lemma answered_call_updates_average_witness :
  ∃ s' h',
    callSteemAPI upstream_up "getTicker" (VArr []) (initial 0) = (Ok (VObj []), s')
    ∧ nodeHealth s' !! 0%nat = Some h'
    ∧ avgResponseTime h' = 40.
Proof.
  destruct (answered_call_updates_average upstream_up "getTicker" (VArr []) (initial 0)
              (mkHealth "https://api.steemit.com/" true None 0 0 0 0) (VObj [])
              (set_ncalls 1 (set_clock 40 (initial 0))))
    as (s' & h' & H1 & H2 & _ & _ & _ & H6 & _).
  - vm_compute. reflexivity.
  - cbn. lia.
  - vm_compute. reflexivity.
  - exists s', h'. split; [exact H1|]. split; [exact H2|]. apply H6. reflexivity.
Defined.

(** The sum of the error counts of the endpoints. *)
Definition errorCount_total (s : Server) : Z :=
  foldr (λ h acc, errorCount h + acc) 0 (nodeHealth s).

Lemma errorCount_alter f i l h :
  l !! i = Some h →
  foldr (λ h acc, errorCount h + acc) 0 (alter f i l)
  = foldr (λ h acc, errorCount h + acc) 0 l + (errorCount (f h) - errorCount h).
Proof.
  revert i. induction l as [|x l IH]; intros i Hl; [discriminate|].
  destruct i as [|i]; cbn in *.
  - injection Hl as ->. lia.
  - rewrite (IH i Hl). lia.
Qed.

Lemma switchToHealthyNode_health s :
  nodeHealth (exec switchToHealthyNode s)
  = alter (mark_unhealthy (clock s)) (currentNodeIndex s) (nodeHealth s)
  ∧ nodeErrors (errorStats (exec switchToHealthyNode s)) = nodeErrors (errorStats s).
Proof.
  unfold switchToHealthyNode, clearCache. munfold. simpl.
  destruct (healthyNodes _ _); split; reflexivity.
Qed.

Lemma switchToHealthyNode_valid s :
  (currentNodeIndex s < length (nodeHealth s))%nat →
  (currentNodeIndex (exec switchToHealthyNode s)
   < length (nodeHealth (exec switchToHealthyNode s)))%nat.
Proof.
  intros Hi. rewrite (proj1 (switchToHealthyNode_health s)), switchToHealthyNode_index.
  rewrite length_alter.
  destruct (healthyNodes _ _) as [|bestNode rest] eqn:E; [exact Hi|].
  apply healthyNodes_index in E. now rewrite length_alter in E.
Qed.

(** An attempt that succeeds counts no error. *)
Lemma attempt_succeeds upstream n attempt method params maxRetries s v s1 :
  (currentNodeIndex s < length (nodeHealth s))%nat →
  route upstream method params s = (Ok v, s1) →
  ∃ s',
    callSteemAPI_from upstream (S n) attempt method params maxRetries s = (Ok v, s')
    ∧ errorCount_total s' = errorCount_total s
    ∧ nodeErrors (errorStats s') = nodeErrors (errorStats s).
Proof.
  intros Hi Hroute.
  destruct (route_pool upstream method params s) as (Hp1 & Hp2 & Hp3).
  rewrite Hroute in Hp1, Hp2, Hp3. cbn [snd] in Hp1, Hp2, Hp3.
  rewrite callSteemAPI_from_unfold, Hroute. cbv zeta iota.
  eexists. split; [reflexivity|].
  destruct (lookup_lt_is_Some_2 _ _ Hi) as [h Hh].
  unfold errorCount_total. cbn. rewrite Hp1, Hp3.
  rewrite (errorCount_alter _ _ _ h Hh). cbn. split; [lia|reflexivity].
Qed.

(** An attempt that fails counts one error on the endpoint, and a second
    one when the failover follows. *)
Lemma attempt_fails upstream n attempt method params maxRetries s e s1 :
  (currentNodeIndex s < length (nodeHealth s))%nat →
  route upstream method params s = (Throw e, s1) →
  if attempt <? maxRetries then
    ∃ s4,
      callSteemAPI_from upstream (S n) attempt method params maxRetries s
      = callSteemAPI_from upstream n (attempt + 1) method params maxRetries s4
      ∧ (currentNodeIndex s4 < length (nodeHealth s4))%nat
      ∧ errorCount_total s4 = errorCount_total s + 2
      ∧ nodeErrors (errorStats s4) = nodeErrors (errorStats s)
  else
    ∃ s',
      callSteemAPI_from upstream (S n) attempt method params maxRetries s = (Throw e, s')
      ∧ errorCount_total s' = errorCount_total s + 1
      ∧ nodeErrors (errorStats s') = nodeErrors (errorStats s) + 1.
Proof.
  intros Hi Hroute.
  destruct (route_pool upstream method params s) as (Hp1 & Hp2 & Hp3).
  rewrite Hroute in Hp1, Hp2, Hp3. cbn [snd] in Hp1, Hp2, Hp3.
  rewrite callSteemAPI_from_unfold, Hroute. cbv zeta iota.
  destruct (lookup_lt_is_Some_2 _ _ Hi) as [h Hh].
  set (s3 := exec (update_health (currentNodeIndex s) (record_failure _)) _).
  assert (H3 : nodeHealth s3
               = alter (record_failure (clock s1)) (currentNodeIndex s) (nodeHealth s)).
  { subst s3. cbn. now rewrite Hp1. }
  assert (H3i : currentNodeIndex s3 = currentNodeIndex s) by (subst s3; exact Hp2).
  assert (H3e : errorStats s3 = errorStats s) by (subst s3; exact Hp3).
  assert (H3t : errorCount_total s3 = errorCount_total s + 1).
  { unfold errorCount_total. rewrite H3, (errorCount_alter _ _ _ h Hh). cbn. lia. }
  destruct (attempt <? maxRetries).
  - eexists. split; [reflexivity|].
    assert (Hv3 : (currentNodeIndex s3 < length (nodeHealth s3))%nat).
    { rewrite H3i, H3, length_alter. exact Hi. }
    pose proof (switchToHealthyNode_valid s3 Hv3) as Hv4.
    destruct (switchToHealthyNode_health s3) as [H4 H4e].
    split; [exact Hv4|].
    destruct (lookup_lt_is_Some_2 _ _ Hv3) as [h3 Hh3].
    split.
    + unfold errorCount_total in *.
      change (nodeHealth (exec (sleep (1000 * attempt)) (exec switchToHealthyNode s3)))
        with (nodeHealth (exec switchToHealthyNode s3)).
      rewrite H4, (errorCount_alter _ _ _ h3 Hh3), H3t. cbn. lia.
    + change (errorStats (exec (sleep (1000 * attempt)) (exec switchToHealthyNode s3)))
        with (errorStats (exec switchToHealthyNode s3)).
      rewrite H4e, H3e. reflexivity.
  - eexists. split; [reflexivity|]. split.
    + exact H3t.
    + cbn. rewrite Hp3. reflexivity.
Qed.

(** X12.  Error accounting of one [callSteemAPI]: an attempt that fails and
    is retried adds two to the error counts of the endpoints, one in the
    [catch] block and one in the failover that follows, and the last
    failed attempt adds one.  A call that gives up has therefore added five,
    while [nodeErrors] went up by one; a call that is answered has added
    zero, two or four and leaves [nodeErrors] alone. *)
Theorem failed_attempts_are_counted_twice upstream method params s o s' :
  (currentNodeIndex s < length (nodeHealth s))%nat →
  callSteemAPI upstream method params s = (o, s') →
  match o with
  | Ok _ =>
      (errorCount_total s' = errorCount_total s
       ∨ errorCount_total s' = errorCount_total s + 2
       ∨ errorCount_total s' = errorCount_total s + 4)
      ∧ nodeErrors (errorStats s') = nodeErrors (errorStats s)
  | Throw _ =>
      errorCount_total s' = errorCount_total s + 5
      ∧ nodeErrors (errorStats s') = nodeErrors (errorStats s) + 1
  end.
Proof.
  intros Hi. unfold callSteemAPI. change (Z.to_nat 3) with 3%nat.
  destruct (route upstream method params s) as [[v1|e1] s1] eqn:E1.
  { destruct (attempt_succeeds upstream 2 1 method params 3 s v1 s1 Hi E1)
      as (sa & -> & Ht & He).
    intros [= <- <-]. split; [left; exact Ht|exact He]. }
  pose proof (attempt_fails upstream 2 1 method params 3 s e1 s1 Hi E1) as H1.
  change (1 <? 3) with true in H1. cbv iota in H1.
  destruct H1 as (s2 & -> & Hi2 & Ht2 & He2). change (1 + 1) with 2.
  destruct (route upstream method params s2) as [[v2|e2] s2'] eqn:E2.
  { destruct (attempt_succeeds upstream 1 2 method params 3 s2 v2 s2' Hi2 E2)
      as (sa & -> & Ht & He).
    intros [= <- <-]. split; [right; left; lia|congruence]. }
  pose proof (attempt_fails upstream 1 2 method params 3 s2 e2 s2' Hi2 E2) as H2.
  change (2 <? 3) with true in H2. cbv iota in H2.
  destruct H2 as (s3 & -> & Hi3 & Ht3 & He3). change (2 + 1) with 3.
  destruct (route upstream method params s3) as [[v3|e3] s3'] eqn:E3.
  { destruct (attempt_succeeds upstream 0 3 method params 3 s3 v3 s3' Hi3 E3)
      as (sa & -> & Ht & He).
    intros [= <- <-]. split; [right; right; lia|congruence]. }
  pose proof (attempt_fails upstream 0 3 method params 3 s3 e3 s3' Hi3 E3) as H3.
  change (3 <? 3) with false in H3. cbv iota in H3.
  destruct H3 as (sa & -> & Ht & He).
  intros [= <- <-]. split; lia.
Qed.

Lemma failed_attempts_are_counted_twice_witness :
  errorCount_total
    (callSteemAPI upstream_down "getTicker" (VArr []) (initial 0)).2
  = 5.
Proof.
  assert (Hi : (currentNodeIndex (initial 0) < length (nodeHealth (initial 0)))%nat)
    by (vm_compute; lia).
  pose proof (failed_attempts_are_counted_twice upstream_down "getTicker" (VArr [])
                (initial 0)
                (callSteemAPI upstream_down "getTicker" (VArr []) (initial 0)).1
                (callSteemAPI upstream_down "getTicker" (VArr []) (initial 0)).2
                Hi) as H.
  assert (Hrun : callSteemAPI upstream_down "getTicker" (VArr []) (initial 0)
                 = ((callSteemAPI upstream_down "getTicker" (VArr []) (initial 0)).1,
                    (callSteemAPI upstream_down "getTicker" (VArr []) (initial 0)).2))
    by apply surjective_pairing.
  specialize (H Hrun).
  assert (Hthrow : (callSteemAPI upstream_down "getTicker" (VArr []) (initial 0)).1
                   = Throw connection_refused) by (vm_compute; reflexivity).
  rewrite Hthrow in H. destruct H as [H _]. rewrite H. reflexivity.
Defined.

(** ** Every request is answered *)

Definition any_frame : frame → Prop := λ _, True.

Create HintDb grows.

Lemma send_any ws fs : respects (grows any_frame) (send ws fs).
Proof. apply send_grows. exact I. Qed.
#[global] Hint Resolve send_any : grows.

Lemma update_feed_grows f g : respects (grows any_frame) (update_feed f g).
Proof. intros s. now apply grows_same_sockets. Qed.
#[global] Hint Resolve update_feed_grows : grows.

Lemma same_sessions_grows s s' : same_sessions s s' → grows any_frame s s'.
Proof. intros (H & _). now apply grows_same_sockets. Qed.

Ltac grows_auto :=
  repeat first
    [ solve [auto with grows]
    | solve [apply (respects_impl same_sessions);
             [apply same_sessions_grows|unfold timestamp; same_sessions_auto]]
    | respects_step ].

Lemma broadcast_pass_grows members message :
  respects (grows any_frame) (broadcast_pass members message).
Proof. induction members as [|client rest IH]; simpl; grows_auto. Qed.
#[global] Hint Resolve broadcast_pass_grows : grows.

Lemma broadcastToSubscribers_grows f message :
  respects (grows any_frame) (broadcastToSubscribers f message).
Proof. unfold broadcastToSubscribers. grows_auto. Qed.
#[global] Hint Resolve broadcastToSubscribers_grows : grows.

Lemma getActiveWitnesses_grows upstream :
  respects (grows any_frame) (getActiveWitnesses upstream).
Proof. unfold getActiveWitnesses. grows_auto. Qed.
#[global] Hint Resolve getActiveWitnesses_grows : grows.

Lemma dispatch_grows upstream ws id method params :
  respects (grows any_frame) (dispatch upstream ws id method params).
Proof.
  unfold dispatch, subscribe, unsubscribe, getTransaction, getTicker, getOrderBook,
    getRecentTrades, getAccounts, getMarketHistory, getAccountHistory,
    getWitnessesByVote, getVestingDelegations.
  grows_auto.
Qed.

(** What [handleMessage] does with the [id], [method] and [params] it has
    taken out of the request. *)
Definition answer (upstream : Oracle) (ws : nat) (id method params : value) : M unit :=
  if negb (truthy method) then
    send ws [ ("id", id); ("error", VStr "Method is required"); ("type", VStr "error") ]
  else
    _ ← lift (toStr method);
    try_catch
      (r ← dispatch upstream ws id method params;
       match r with
       | Some result =>
           send ws (response id result);;
           _ ← lift (toStr method);
           mret tt
       | None => mret tt
       end)
      (handleMessage_catch ws id method).

Lemma handleMessage_answer upstream ws data :
  data ≠ VUndef → data ≠ VNull →
  handleMessage upstream ws data
  = answer upstream ws (getProp data "id") (getProp data "method")
      match getProp data "params" with
      | VUndef => VArr []
      | p => p
      end.
Proof. intros H1 H2. destruct data; try congruence; reflexivity. Qed.

Lemma send_open ws fs s :
  readyState (sockets s ws) = OPEN →
  sent (sockets (exec (send ws fs) s) ws) = sent (sockets s ws) ++ [JSON_stringify fs]
  ∧ readyState (sockets (exec (send ws fs) s) ws) = OPEN.
Proof.
  intros Hopen. unfold exec, send, modify. cbn [snd]. rewrite Hopen. cbn [is_open].
  cbn [sockets set_sockets]. rewrite fn_lookup_insert. cbn. split; [reflexivity|exact Hopen].
Qed.

Lemma response_is_response id result :
  is_response (JSON_stringify (response id result)) = true.
Proof. destruct id, result; reflexivity. Qed.

Lemma subscription_ack_is_response id flag type :
  is_response (JSON_stringify (subscription_ack id flag type)) = true.
Proof. destruct id; reflexivity. Qed.

Lemma error_frame_is_error id msg method :
  is_error (JSON_stringify (error_frame id msg method)) = true.
Proof. destruct id, method; reflexivity. Qed.

Definition is_reply (f : frame) : bool := is_response f || is_error f.

(** A frame written to an open socket, followed by anything that only
    appends. *)
Lemma send_then {A} ws fs (k : M A) s :
  readyState (sockets s ws) = OPEN →
  is_reply (JSON_stringify fs) = true →
  respects (appends_on ws) k →
  ∃ new,
    sent (sockets ((send ws fs;; k) s).2 ws) = sent (sockets s ws) ++ new
    ∧ Exists (λ f, is_reply f = true) new.
Proof.
  intros Hopen Hr Hk.
  change ((send ws fs;; k) s) with (k (exec (send ws fs) s)).
  destruct (Hk (exec (send ws fs) s)) as [l Hl].
  destruct (send_open ws fs s Hopen) as [Hs _].
  exists (JSON_stringify fs :: l). split.
  - rewrite Hl, Hs, <- app_assoc. reflexivity.
  - left. exact Hr.
Qed.

Lemma subscribe_then {A} ws id f type (k : unit → M A) s :
  readyState (sockets s ws) = OPEN →
  respects (appends_on ws) (k tt) →
  ∃ new,
    sent (sockets ((subscribe ws id f type ≫= k) s).2 ws) = sent (sockets s ws) ++ new
    ∧ Exists (λ f, is_reply f = true) new.
Proof.
  intros Hopen Hk.
  change ((subscribe ws id f type ≫= k) s)
    with ((send ws (subscription_ack id "subscribed" type);; k tt)
            (exec (update_feed f (set_add ws)) s)).
  apply (send_then ws _ (k tt) (exec (update_feed f (set_add ws)) s)).
  - exact Hopen.
  - unfold is_reply. now rewrite subscription_ack_is_response.
  - exact Hk.
Qed.

Lemma unsubscribe_then {A} ws id f type (k : unit → M A) s :
  readyState (sockets s ws) = OPEN →
  respects (appends_on ws) (k tt) →
  ∃ new,
    sent (sockets ((unsubscribe ws id f type ≫= k) s).2 ws) = sent (sockets s ws) ++ new
    ∧ Exists (λ f, is_reply f = true) new.
Proof.
  intros Hopen Hk.
  change ((unsubscribe ws id f type ≫= k) s)
    with ((send ws (subscription_ack id "unsubscribed" type);; k tt)
            (exec (update_feed f (set_delete ws)) s)).
  apply (send_then ws _ (k tt) (exec (update_feed f (set_delete ws)) s)).
  - exact Hopen.
  - unfold is_reply. now rewrite subscription_ack_is_response.
  - exact Hk.
Qed.

Ltac never_none H :=
  unfold mbind, M_bind, lift, throw, mret, M_ret in H;
  repeat match type of H with
         | context [match ?x with _ => _ end] => destruct x
         end;
  discriminate H.

(** The cases of the dispatcher that end in [return] have written their
    acknowledgement. *)
Lemma dispatch_None upstream ws id method params s s1 :
  readyState (sockets s ws) = OPEN →
  dispatch upstream ws id method params s = (Ok None, s1) →
  ∃ new,
    sent (sockets s1 ws) = sent (sockets s ws) ++ new
    ∧ Exists (λ f, is_reply f = true) new.
Proof.
  intros Hopen. unfold dispatch. cbv zeta.
  destruct method as [| | | |m| |];
    [intros H; never_none H|intros H; never_none H|intros H; never_none H
    |intros H; never_none H| |intros H; never_none H|intros H; never_none H].
  repeat lazymatch goal with
         | |- (if is_method ?a ?b ?c then _ else _) _ = _ → _ =>
             destruct (is_method a b c);
             [solve [let H := fresh in intros H; never_none H]|]
         end.
  repeat lazymatch goal with
         | |- (if String.eqb m ?a then _ else _) _ = _ → _ =>
             destruct (String.eqb m a);
             [let H := fresh in
              intros H;
              match type of H with
              | ?t = _ => replace s1 with (snd t) by (now rewrite H)
              end;
              lazymatch goal with
              | |- context [mbind _ (subscribe _ _ _ _)] => apply subscribe_then
              | |- context [mbind _ (unsubscribe _ _ _ _)] => apply unsubscribe_then
              end;
              [exact Hopen|appends_auto]|]
         end.
  intros H; never_none H.
Qed.

Lemma handleMessage_catch_run ws id method error s :
  printable (js_or method (VStr "unknown_method")) = true →
  printable (js_or id (VStr "unknown")) = true →
  handleMessage_catch ws id method error s
  = (Ok tt,
     exec (send ws (error_frame (js_or id (VStr "unknown")) (errorMessage_of error)
                      (js_or method (VStr "unknown_method"))))
       (exec (when (includes "network" (errorMessage_of error)
                    || includes "timeout" (errorMessage_of error)) switchNode) s)).
Proof.
  unfold handleMessage_catch, printable. intros Hpm Hpi.
  unfold mbind at 1 2. unfold M_bind at 1 2. unfold lift.
  destruct (toStr (js_or method _)); [|discriminate Hpm].
  destruct (toStr (js_or id _)); [|discriminate Hpi].
  destruct (includes "network" (errorMessage_of error)
            || includes "timeout" (errorMessage_of error)); reflexivity.
Qed.

Lemma when_switchNode_sockets b s : sockets (exec (when b switchNode) s) = sockets s.
Proof. destruct b; reflexivity. Qed.

(** X13.  A request taken off the queue for an open socket is answered on
    that socket when the log lines can print its method and its id, that
    is, unless one of them is an object or an array with a [toString] key
    of its own: [handleMessage] does not throw, and among the frames it
    writes to the socket there is one of type ["response"] or ["error"].
    The exceptions are silent.  A frame whose JSON text is [null] cannot be
    taken apart; a method that cannot be printed makes the log line before
    the [try] block throw; in both cases the queue loop swallows the error
    and the client is sent nothing.  An id that cannot be printed makes the
    log line of the [catch] block throw, so an error of the dispatch is not
    reported. *)
Theorem every_request_is_answered upstream ws s :
  readyState (sockets s ws) = OPEN →
  (∀ data,
     data ≠ VUndef → data ≠ VNull →
     printable (getProp data "method") = true →
     printable (js_or (getProp data "id") (VStr "unknown")) = true →
     ∃ s' new,
       handleMessage upstream ws data s = (Ok tt, s')
       ∧ sent (sockets s' ws) = sent (sockets s ws) ++ new
       ∧ Exists (λ f, is_reply f = true) new)
  ∧ (∀ rest,
       requestQueue s = (ws, VNull) :: rest →
       processQueue_pass upstream s = (Ok tt, set_requestQueue rest s))
  ∧ (∀ data rest e,
       truthy (getProp data "method") = true →
       toStr (getProp data "method") = Throw e →
       requestQueue s = (ws, data) :: rest →
       processQueue_pass upstream s = (Ok tt, set_requestQueue rest s))
  ∧ (∀ data error s1 e,
       let id := getProp data "id" in
       let method := getProp data "method" in
       let params := match getProp data "params" with VUndef => VArr [] | p => p end in
       truthy method = true →
       printable method = true →
       dispatch upstream ws id method params s = (Throw error, s1) →
       toStr (js_or id (VStr "unknown")) = Throw e →
       handleMessage upstream ws data s = (Throw e, s1)).
Proof.
  intros Hopen. split_and!.
  - intros data Hu Hn Hpm Hpi.
    rewrite (handleMessage_answer upstream ws data Hu Hn).
    revert Hpm Hpi.
    set (id := getProp data "id"). set (method := getProp data "method").
    set (params := match getProp data "params" with VUndef => VArr [] | p => p end).
    clearbody id method params. intros Hpm Hpi. unfold answer.
    destruct (truthy method) eqn:Hm; cbn [negb].
    + assert (Hem : js_or method (VStr "unknown_method") = method)
        by (unfold js_or; now rewrite Hm).
      pose proof Hpm as Hpm'. unfold printable in Hpm'.
      destruct (toStr method) as [name|] eqn:Et; [clear Hpm'|discriminate Hpm'].
      unfold mbind at 1. unfold M_bind at 1. unfold lift at 1.
      unfold try_catch, mbind, M_bind.
      pose proof (dispatch_grows upstream ws id method params s ws) as Hg.
      pose proof (dispatch_None upstream ws id method params s) as Hnone.
      destruct (dispatch upstream ws id method params s) as [[[result|]|error] s1].
      * cbn [snd] in Hg. destruct Hg as (Hr & l & Hl & _).
        assert (Hopen1 : readyState (sockets s1 ws) = OPEN) by congruence.
        destruct (send_open ws (response id result) s1 Hopen1) as [Hs _].
        exists (exec (send ws (response id result)) s1),
          (l ++ [JSON_stringify (response id result)]).
        split; [reflexivity|]. split.
        -- rewrite Hs, Hl, <- app_assoc. reflexivity.
        -- apply Exists_app. right. left. unfold is_reply.
           now rewrite response_is_response.
      * destruct (Hnone s1 Hopen eq_refl) as (new & Hnew & Hex).
        exists s1, new. split; [reflexivity|]. split; assumption.
      * cbn [snd] in Hg. destruct Hg as (Hr & l & Hl & _).
        rewrite handleMessage_catch_run by (rewrite ?Hem; assumption).
        set (s2 := exec (when _ switchNode) s1).
        assert (Hs2 : sockets s2 = sockets s1) by apply when_switchNode_sockets.
        assert (Hopen2 : readyState (sockets s2 ws) = OPEN) by (rewrite Hs2; congruence).
        destruct (send_open ws
                    (error_frame (js_or id (VStr "unknown")) (errorMessage_of error)
                       (js_or method (VStr "unknown_method"))) s2 Hopen2) as [Hs _].
        eexists. eexists. split; [reflexivity|]. split.
        -- rewrite Hs, Hs2, Hl, <- app_assoc. reflexivity.
        -- apply Exists_app. right. left. unfold is_reply.
           rewrite error_frame_is_error. apply orb_true_r.
    + destruct (send_open ws
                  [ ("id", id); ("error", VStr "Method is required");
                    ("type", VStr "error") ] s Hopen) as [Hs _].
      eexists. eexists. split; [reflexivity|]. split; [exact Hs|].
      left. destruct id; reflexivity.
  - intros rest Hq. rewrite (processQueue_pass_eq upstream s ws VNull rest Hq).
    rewrite Hopen. reflexivity.
  - intros data rest e Hm He Hq.
    rewrite (processQueue_pass_eq upstream s ws data rest Hq).
    cbn [sockets set_requestQueue]. rewrite Hopen. cbn [is_open when].
    unfold try_catch.
    rewrite (handleMessage_unprintable_method upstream ws data _ e Hm He).
    reflexivity.
  - intros data error s1 e id method params Hm Hpm Hd He.
    now apply (handleMessage_unprintable_id upstream ws data s error s1 e).
Qed.

Lemma every_request_is_answered_witness :
  ∃ s' new,
    handleMessage upstream_up 1%nat (request (VNum 7) "get_ticker" (VArr [])) one_client
    = (Ok tt, s')
    ∧ sent (sockets s' 1%nat) = sent (sockets one_client 1%nat) ++ new
    ∧ Exists (λ f, is_reply f = true) new.
Proof.
  assert (Hopen : readyState (sockets one_client 1%nat) = OPEN) by reflexivity.
  apply (proj1 (every_request_is_answered upstream_up 1%nat one_client Hopen)).
  - discriminate.
  - discriminate.
  - vm_compute. reflexivity.
  - vm_compute. reflexivity.
Defined.

(** ** Broadcasting *)

(** The feeds other than [f] are left alone. *)
Definition same_other_feeds (f : Feed) : relation Server := λ s s',
  ∀ f', f' ≠ f → feed f' (subscribers s') = feed f' (subscribers s).

#[global] Instance same_other_feeds_preorder f : PreOrder (same_other_feeds f).
Proof.
  split.
  - intros s f' _. reflexivity.
  - intros s1 s2 s3 H1 H2 f' Hne. rewrite H2, H1 by exact Hne. reflexivity.
Qed.

Lemma send_other_feeds f ws fs : respects (same_other_feeds f) (send ws fs).
Proof.
  intros s f' _. unfold send, modify. cbn [snd]. destruct (is_open _); reflexivity.
Qed.

Lemma update_feed_other_feeds f g : respects (same_other_feeds f) (update_feed f g).
Proof.
  intros s f' Hne. unfold update_feed, modify. cbn.
  destruct f, f'; (congruence || reflexivity).
Qed.

Lemma broadcast_pass_other_feeds f members message :
  respects (same_other_feeds f) (broadcast_pass members message).
Proof.
  pose proof (send_other_feeds f) as Hs.
  induction members as [|client rest IH]; simpl;
    repeat first [solve [auto] | respects_step].
Qed.

Lemma broadcastToSubscribers_other_feeds f message :
  respects (same_other_feeds f) (broadcastToSubscribers f message).
Proof.
  pose proof (broadcast_pass_other_feeds f) as Hb.
  pose proof (update_feed_other_feeds f) as Hu.
  unfold broadcastToSubscribers. repeat first [solve [auto] | respects_step].
Qed.

(** X14.  [broadcastToSubscribers] writes the frame once to every member
    of the set whose socket is open and takes the members whose socket is
    not open out of the set.  Sockets outside the set are written nothing,
    no socket changes state, and the other four sets are left as they
    are. *)
Theorem broadcast_delivers_and_prunes f message s :
  List.NoDup (feed f (subscribers s)) →
  ∃ s',
    broadcastToSubscribers f message s = (Ok tt, s')
    ∧ (∀ ws,
         set_has ws (feed f (subscribers s'))
         = set_has ws (feed f (subscribers s)) && is_open (readyState (sockets s ws)))
    ∧ (∀ f', f' ≠ f → feed f' (subscribers s') = feed f' (subscribers s))
    ∧ (∀ ws,
         readyState (sockets s' ws) = readyState (sockets s ws)
         ∧ sent (sockets s' ws)
           = sent (sockets s ws)
               ++ (if set_has ws (feed f (subscribers s))
                      && is_open (readyState (sockets s ws))
                   then [JSON_stringify message]
                   else [])).
Proof.
  intros Hnd.
  destruct (broadcastToSubscribers_sockets f message s)
    as (s' & Hrun & _ & _ & _ & Hmem & Hsock).
  exists s'. split; [exact Hrun|]. split; [exact Hmem|]. split.
  - pose proof (broadcastToSubscribers_other_feeds f message s) as Ho.
    rewrite Hrun in Ho. exact Ho.
  - intros ws. destruct (Hsock ws) as [Hr Hs]. split; [exact Hr|].
    rewrite Hs. f_equal.
    destruct (set_has ws (feed f (subscribers s))) eqn:E.
    + apply set_has_In in E. rewrite (count_NoDup _ _ Hnd E).
      destruct (is_open _); reflexivity.
    + assert (¬ In ws (feed f (subscribers s))) as Hnot.
      { intros Hin. apply set_has_In in Hin. congruence. }
      rewrite (count_notin _ _ Hnot). destruct (is_open _); reflexivity.
Qed.

(** Socket 1 connected and subscribed to the block feed. *)
Definition block_subscriber : Server :=
  exec (handleMessage upstream_up 1%nat (request (VNum 1) "subscribe_blocks" (VArr [])))
    one_client.

Lemma broadcast_delivers_and_prunes_witness :
  ∃ s',
    broadcastToSubscribers FBlocks [("type", VStr "subscription_update")]
      block_subscriber = (Ok tt, s')
    ∧ sent (sockets s' 1%nat)
      = sent (sockets block_subscriber 1%nat)
          ++ [JSON_stringify [("type", VStr "subscription_update")]].
Proof.
  assert (Hnd : List.NoDup (feed FBlocks (subscribers block_subscriber))).
  { vm_compute. constructor; [intros []|constructor]. }
  destruct (broadcast_delivers_and_prunes FBlocks [("type", VStr "subscription_update")]
              block_subscriber Hnd) as (s' & Hrun & _ & _ & Hs).
  exists s'. split; [exact Hrun|]. exact (proj2 (Hs 1%nat)).
Defined.

(** ** No handler throws *)

(** [safe m]: [m] returns, it does not throw. *)
Definition safe {A : Type} (m : M A) : Prop := ∀ s, ∃ a s', m s = (Ok a, s').

Lemma safe_ret {A} (a : A) : safe (mret a).
Proof. intros s. now exists a, s. Qed.

Lemma safe_gets {A} (f : Server → A) : safe (gets f).
Proof. intros s. now exists (f s), s. Qed.

Lemma safe_modify f : safe (modify f).
Proof. intros s. now exists tt, (f s). Qed.

Lemma safe_bind {A B} (m : M A) (k : A → M B) :
  safe m → (∀ a, safe (k a)) → safe (m ≫= k).
Proof.
  intros Hm Hk s. destruct (Hm s) as (a & s1 & E).
  destruct (Hk a s1) as (b & s2 & E2). exists b, s2.
  unfold mbind, M_bind. now rewrite E.
Qed.

(** A [try] block whose [catch] block does not throw. *)
Lemma safe_try_catch {A} (m : M A) (h : JsError → M A) :
  (∀ e, safe (h e)) → safe (try_catch m h).
Proof.
  intros Hh s. unfold try_catch. destruct (m s) as [[a|e] s1].
  - now exists a, s1.
  - apply Hh.
Qed.

Lemma safe_when b (m : M unit) : safe m → safe (when b m).
Proof. intros Hm. destruct b; [exact Hm|apply safe_ret]. Qed.

Lemma safe_forEach l (body : nat → M unit) : (∀ x, safe (body x)) → safe (forEach l body).
Proof.
  intros Hb. induction l as [|x l IH]; simpl.
  - apply safe_ret.
  - apply safe_bind; [apply Hb|intros _; exact IH].
Qed.

Lemma safe_send ws fs : safe (send ws fs).
Proof. apply safe_modify. Qed.

Lemma safe_switchNode : safe switchNode.
Proof. intros s. now exists tt, (exec switchNode s). Qed.

Lemma safe_switchToHealthyNode : safe switchToHealthyNode.
Proof. intros s. exists tt, (exec switchToHealthyNode s). apply switchToHealthyNode_ok. Qed.

Create HintDb safe.
#[global] Hint Resolve safe_ret safe_gets safe_modify safe_send safe_switchNode
  safe_switchToHealthyNode : safe.

Ltac safe_step :=
  lazymatch goal with
  | |- safe (mbind _ _) => apply safe_bind; [|intros ?]
  | |- safe (try_catch _ _) => apply safe_try_catch; intros ?
  | |- safe (when _ _) => apply safe_when
  | |- safe (forEach _ _) => apply safe_forEach; intros ?
  | |- safe (if ?b then _ else _) => destruct b
  | |- safe (match ?x with _ => _ end) => destruct x
  end.

Ltac safe_auto :=
  repeat first
    [ solve [auto with safe]
    | safe_step
    | progress (unfold update_socket, update_feed, update_cache, update_errorStats,
                  update_health, now, log, sleep, timestamp) ].

Lemma safe_broadcast_pass members message : safe (broadcast_pass members message).
Proof. induction members as [|client rest IH]; simpl; safe_auto. Qed.
#[global] Hint Resolve safe_broadcast_pass : safe.

Lemma safe_broadcastToSubscribers f message : safe (broadcastToSubscribers f message).
Proof. unfold broadcastToSubscribers. safe_auto. Qed.
#[global] Hint Resolve safe_broadcastToSubscribers : safe.

Lemma safe_processNewBlockForSubscriptions upstream blockNumber :
  safe (processNewBlockForSubscriptions upstream blockNumber).
Proof. unfold processNewBlockForSubscriptions. safe_auto. Qed.

Lemma safe_periodicUpdate upstream : safe (periodicUpdate upstream).
Proof. unfold periodicUpdate. safe_auto. Qed.

Lemma safe_healthCheck upstream : safe (healthCheck upstream).
Proof. unfold healthCheck. safe_auto. Qed.

Lemma safe_processQueue_pass upstream : safe (processQueue_pass upstream).
Proof. unfold processQueue_pass. safe_auto. Qed.
#[global] Hint Resolve safe_processQueue_pass : safe.

Lemma safe_processQueue upstream : safe (processQueue upstream).
Proof. unfold processQueue. safe_auto. Qed.
#[global] Hint Resolve safe_processQueue : safe.

Lemma safe_processQueue_resume upstream : safe (processQueue_resume upstream).
Proof. unfold processQueue_resume. safe_auto. Qed.

Lemma safe_onMessage upstream ws message : safe (onMessage upstream ws message).
Proof. unfold onMessage, enqueue. safe_auto. Qed.

Lemma safe_onConnection ws : safe (onConnection ws).
Proof. unfold onConnection. safe_auto. Qed.

Lemma safe_onClose ws : safe (onClose ws).
Proof. unfold onClose. safe_auto. Qed.

(** X15.  No handler lets an exception escape.  At every turn of a run,
    whatever the clients have sent and whatever the endpoints answer or
    throw, the handler that runs (connection, message, close, the queue
    timer, the two interval callbacks) runs to its end: what the request
    handlers and the upstream calls throw is caught on the way, by the
    queue loop, by the [catch] blocks of the callbacks, by the handler of
    the frame that did not parse.  The queue loop, which the message
    handler starts without awaiting it, does not throw either. *)
Theorem handlers_never_throw upstream t inputs :
  let s := run upstream (initial t) inputs in
  (∀ t' i, (handler upstream i (set_clock (Z.max (clock s) t') s)).1 = Ok tt)
  ∧ (processQueue upstream s).1 = Ok tt.
Proof.
  intros s. split.
  - intros t' i.
    assert (H : safe (handler upstream i)).
    { destruct i; cbn [handler].
      - apply safe_onConnection.
      - apply safe_onMessage.
      - apply safe_onClose.
      - apply safe_processQueue_resume.
      - apply safe_periodicUpdate.
      - apply safe_healthCheck. }
    destruct (H (set_clock (Z.max (clock s) t') s)) as ([] & s' & E). now rewrite E.
  - destruct (safe_processQueue upstream s) as ([] & s' & E). now rewrite E.
Qed.

(** ** The poll and the stale fallback *)

(** X16.  A poll that brings no new head block is silent: when the refresh
    fails, or leaves the slot empty, or leaves the head block number it
    had, the callback writes to no socket and changes neither
    [wss.clients] nor any subscriber set.  The head block number is
    compared as [!==] does, by [head_changed]: a number, string or boolean
    by its value; an array or object is the one it was only when the
    refresh has stored no new reply in the slot.  The callback is taken as
    one turn. *)
Theorem poll_without_new_head_is_silent upstream s :
  head_changed upstream s = false →
  sockets (exec (periodicUpdate upstream) s) = sockets s
  ∧ clients (exec (periodicUpdate upstream) s) = clients s
  ∧ subscribers (exec (periodicUpdate upstream) s) = subscribers s.
Proof.
  intros Hch. unfold head_changed in Hch.
  pose proof (getDynamicGlobalProperties_sessions upstream s) as Hs.
  assert (E : same_sessions s (exec (periodicUpdate upstream) s)).
  { unfold periodicUpdate, exec, try_catch, mbind, M_bind, gets. cbv beta iota.
    destruct (getDynamicGlobalProperties upstream s) as [[v|e] s1];
      cbv beta iota; [rewrite Hch|]; exact Hs. }
  destruct E as (H1 & H2 & H3). split; [exact H1|]. split; [exact H2|exact H3].
Qed.

Lemma poll_without_new_head_is_silent_witness :
  sockets (exec (periodicUpdate upstream_up) (set_clock 1000 polled))
  = sockets (set_clock 1000 polled).
Proof.
  assert (H : head_changed upstream_up (set_clock 1000 polled) = false)
    by (vm_compute; reflexivity).
  exact (proj1 (poll_without_new_head_is_silent upstream_up (set_clock 1000 polled) H)).
Defined.

(** From [s] to [s'] the cache is untouched or has been cleared. *)
Definition kept_or_cleared : relation Server := λ s s',
  cache s' = cache s ∨ cache s' = mkCache VNull VNull [] [] [] 0 0.

#[global] Instance kept_or_cleared_preorder : PreOrder kept_or_cleared.
Proof.
  split.
  - intros s. now left.
  - intros s1 s2 s3 [H1|H1] [H2|H2]; unfold kept_or_cleared;
      rewrite ?H2, ?H1; auto.
Qed.

Lemma switchToHealthyNode_kept_or_cleared : respects kept_or_cleared switchToHealthyNode.
Proof.
  intros s. unfold switchToHealthyNode, clearCache. munfold. simpl.
  destruct (healthyNodes _ _); [now left|now right].
Qed.

Lemma route_kept_or_cleared upstream method params :
  respects kept_or_cleared (route upstream method params).
Proof.
  assert (H : ∀ c, respects kept_or_cleared (call_upstream upstream c)).
  { intros c s. unfold call_upstream. destruct (upstream _ _ _). now left. }
  unfold route. repeat first [solve [auto] | respects_step].
Qed.

Lemma callSteemAPI_kept_or_cleared upstream method params :
  respects kept_or_cleared (callSteemAPI upstream method params).
Proof.
  pose proof switchToHealthyNode_kept_or_cleared as Hsw.
  pose proof (route_kept_or_cleared upstream method params) as Hr.
  unfold callSteemAPI. generalize 1. generalize (Z.to_nat 3).
  intros n. induction n as [|n IH]; intros attempt; simpl;
    repeat first
      [ solve [auto]
      | respects_step
      | progress (unfold update_errorStats, update_health, now, log, sleep)
      | apply respects_modify; intros ?; now left ].
Qed.

(** X17.  What a refresh of the head state that fails on all attempts
    returns.  The retries leave the cache either untouched or cleared, the
    latter as soon as one of the failovers between them found an endpoint to
    move to.  The prior value is returned, counted as a hit, when it is
    still in the slot; otherwise the upstream error is thrown as it is. *)
Theorem failed_refresh_outcome upstream s e s1 :
  callSteemAPI upstream "getDynamicGlobalProperties" (VArr []) s = (Throw e, s1) →
  truthy (globalProperties (cache s))
    && (clock s - lastGlobalUpdate (cache s) <? globalTTL) = false →
  (cache s1 = cache s ∨ cache s1 = mkCache VNull VNull [] [] [] 0 0)
  ∧ getDynamicGlobalProperties upstream s
    = if truthy (globalProperties (cache s1))
      then (Ok (globalProperties (cache s)),
            set_errorStats (incr_cacheHits (errorStats s1)) s1)
      else (Throw e, s1).
Proof.
  intros Hcall Hexp.
  pose proof (callSteemAPI_kept_or_cleared upstream "getDynamicGlobalProperties"
                (VArr []) s) as Hk.
  rewrite Hcall in Hk. cbn [snd] in Hk. split; [exact Hk|].
  unfold getDynamicGlobalProperties.
  unfold mbind at 1 2. unfold M_bind at 1 2. unfold now, gets. cbv beta iota.
  rewrite Hexp. unfold try_catch. unfold mbind at 1. unfold M_bind at 1.
  rewrite Hcall. cbv beta iota. unfold mbind, M_bind, gets. cbv beta iota.
  destruct Hk as [Hk|Hk]; rewrite Hk.
  - destruct (truthy (globalProperties (cache s))); reflexivity.
  - reflexivity.
Qed.

(** Every endpoint has just failed: no failover finds one to move to. *)
Definition nowhere_to_go : Server :=
  set_nodeHealth
    ((λ node, mkHealth node false (Some 400000) 1 0 0 0) <$> steemNodes)
    stale_server.

Lemma failed_refresh_outcome_witness :
  getDynamicGlobalProperties upstream_down nowhere_to_go
  = (Ok (head 100),
     set_errorStats
       (incr_cacheHits
          (errorStats
             (callSteemAPI upstream_down "getDynamicGlobalProperties" (VArr [])
                nowhere_to_go).2))
       (callSteemAPI upstream_down "getDynamicGlobalProperties" (VArr [])
          nowhere_to_go).2).
Proof.
  assert (Hcall :
    callSteemAPI upstream_down "getDynamicGlobalProperties" (VArr []) nowhere_to_go
    = (Throw connection_refused,
       (callSteemAPI upstream_down "getDynamicGlobalProperties" (VArr [])
          nowhere_to_go).2)) by (vm_compute; reflexivity).
  assert (Hexp :
    truthy (globalProperties (cache nowhere_to_go))
      && (clock nowhere_to_go - lastGlobalUpdate (cache nowhere_to_go) <? globalTTL)
    = false) by (vm_compute; reflexivity).
  destruct (failed_refresh_outcome upstream_down nowhere_to_go connection_refused _
              Hcall Hexp) as [_ H].
  rewrite H. vm_compute. reflexivity.
Defined.

(** ** The rate limit over a sliding minute *)

(** The rate-limit check run over the frames that arrive at [times]: for
    each frame its arrival time, the start of the window it is counted in,
    and whether it passes. *)
Fixpoint arrivals (w : Socket) (times : list Z) : list (Z * Z * bool) :=
  match times with
  | [] => []
  | t :: rest =>
      let '(w', pass) := rate_check t w in
      (t, lastReset w', pass) :: arrivals w' rest
  end.

(** The frame passes and arrives within the minute that starts at [a]. *)
Definition passes_in_span (a : Z) (e : Z * Z * bool) : bool :=
  e.2 && (a <=? e.1.1) && (e.1.1 <=? a + 60000).

Definition passes_in_window (r : Z) (e : Z * Z * bool) : bool :=
  (e.1.2 =? r) && e.2.

Lemma arrivals_admissions w times :
  (λ e : Z * Z * bool, (e.1.2, e.2)) <$> arrivals w times = admissions w times.
Proof.
  revert w. induction times as [|t rest IH]; intros w; [reflexivity|].
  cbn [arrivals admissions]. destruct (rate_check t w) as [w' pass].
  cbn [fmap list_fmap fst snd]. f_equal. apply IH.
Qed.

(** A window starts more than a minute after the one before it. *)
Lemma arrivals_window w times e :
  In e (arrivals w times) →
  e.1.2 = lastReset w ∨ lastReset w + 60000 < e.1.2.
Proof.
  revert w. induction times as [|t rest IH]; intros w Hin; [destruct Hin|].
  cbn [arrivals] in Hin. destruct (rate_check t w) as [w' pass] eqn:E.
  pose proof (rate_check_lastReset t w) as HL. rewrite E in HL. cbn [fst] in HL.
  destruct Hin as [<-|Hin].
  - cbn [fst snd]. rewrite HL. destruct (Z.ltb_spec 60000 (t - lastReset w)); lia.
  - apply IH in Hin. rewrite HL in Hin.
    destruct (Z.ltb_spec 60000 (t - lastReset w)); lia.
Qed.

Lemma arrivals_windows_apart w times e e' :
  In e (arrivals w times) → In e' (arrivals w times) →
  e.1.2 = e'.1.2 ∨ 60000 < e'.1.2 - e.1.2 ∨ 60000 < e.1.2 - e'.1.2.
Proof.
  revert w. induction times as [|t rest IH]; intros w Hin Hin'; [destruct Hin|].
  cbn [arrivals] in Hin, Hin'. destruct (rate_check t w) as [w' pass] eqn:E.
  destruct Hin as [<-|Hin], Hin' as [<-|Hin'].
  - now left.
  - apply arrivals_window in Hin'. cbn [fst snd]. lia.
  - apply arrivals_window in Hin. cbn [fst snd]. lia.
  - now apply (IH w').
Qed.

(** A frame is counted in a window that started at most a minute before
    it arrived. *)
Lemma arrivals_recent w times e :
  Sorted Z.le (lastReset w :: times) →
  In e (arrivals w times) →
  e.1.2 ≤ e.1.1 ∧ e.1.1 ≤ e.1.2 + 60000.
Proof.
  revert w. induction times as [|t rest IH]; intros w Hs Hin; [destruct Hin|].
  cbn [arrivals] in Hin. destruct (rate_check t w) as [w' pass] eqn:E.
  pose proof (rate_check_lastReset t w) as HL. rewrite E in HL. cbn [fst] in HL.
  apply Sorted_inv in Hs as [Hs Hhd]. apply HdRel_inv in Hhd.
  destruct Hin as [<-|Hin].
  - cbn [fst snd]. rewrite HL. destruct (Z.ltb_spec 60000 (t - lastReset w)); lia.
  - apply (IH w'); [|exact Hin].
    apply Sorted_inv in Hs as [Hs Hhd']. constructor; [exact Hs|].
    destruct Hhd' as [|t' rest' Ht']; constructor.
    rewrite HL. destruct (Z.ltb_spec 60000 (t - lastReset w)); lia.
Qed.

Lemma filter_length_mono {A} (f g : A → bool) l :
  (∀ x, In x l → f x = true → g x = true) →
  (length (List.filter f l) ≤ length (List.filter g l))%nat.
Proof.
  induction l as [|x l IH]; intros H; [reflexivity|].
  cbn [List.filter].
  assert (IH' : (length (List.filter f l) ≤ length (List.filter g l))%nat).
  { apply IH. intros y Hy. apply H. now right. }
  destruct (f x) eqn:Ef.
  - rewrite (H x (or_introl eq_refl) Ef). cbn [length]. lia.
  - destruct (g x); cbn [length]; lia.
Qed.

Lemma filter_length_fmap {A B} (g : A → B) (f : B → bool) l :
  length (List.filter (λ x, f (g x)) l) = length (List.filter f (g <$> l)).
Proof.
  induction l as [|x l IH]; [reflexivity|].
  cbn [List.filter fmap list_fmap]. destruct (f (g x)); cbn [length]; now rewrite IH.
Qed.

(** The frames that pass and are counted in the window that starts at [r]
    are at most 2000. *)
Lemma arrivals_window_budget t0 state log times r :
  (length (List.filter (passes_in_window r)
             (arrivals (mkSocket 0 t0 2000 state log) times)) ≤ 2000)%nat.
Proof.
  unfold passes_in_window.
  rewrite (filter_length_fmap (λ e : Z * Z * bool, (e.1.2, e.2))
             (λ e : Z * bool, (e.1 =? r) && e.2)).
  rewrite arrivals_admissions.
  pose proof (admissions_within_budget times (mkSocket 0 t0 2000 state log) r) as H.
  unfold admitted_in_window, window_budget in H. cbn in H.
  destruct (r <? t0), (r =? t0); lia.
Qed.

(** Frames that pass and are all counted in one window are at most
    2000. *)
Lemma one_window_budget t0 state log times (c : Z * Z * bool → bool) :
  (∀ e e', In e (arrivals (mkSocket 0 t0 2000 state log) times) →
           In e' (arrivals (mkSocket 0 t0 2000 state log) times) →
           c e = true → c e' = true → e.1.2 = e'.1.2) →
  (length (List.filter (λ e, c e && e.2)
             (arrivals (mkSocket 0 t0 2000 state log) times)) ≤ 2000)%nat.
Proof.
  intros Hone.
  destruct (List.filter (λ e, c e && e.2)
              (arrivals (mkSocket 0 t0 2000 state log) times)) as [|e0 l0] eqn:E.
  - cbn. lia.
  - assert (Hin0 : In e0 (List.filter (λ e, c e && e.2)
                            (arrivals (mkSocket 0 t0 2000 state log) times)))
      by (rewrite E; now left).
    apply List.filter_In in Hin0 as [Hin0 Hc0]. apply andb_true_iff in Hc0 as [Hc0 _].
    rewrite <- E.
    etransitivity; [|apply (arrivals_window_budget t0 state log times e0.1.2)].
    apply filter_length_mono. intros e Hin He. unfold passes_in_window.
    apply andb_true_iff in He as [Hc Hp]. rewrite Hp, andb_true_r.
    apply Z.eqb_eq. now apply (Hone e e0).
Qed.

Lemma filter_length_split {A} (f h : A → bool) l :
  length (List.filter f l)
  = (length (List.filter (λ x, (f x && h x)) l)
     + length (List.filter (λ x, (f x && negb (h x))) l))%nat.
Proof.
  induction l as [|x l IH]; [reflexivity|].
  cbn [List.filter]. destruct (f x), (h x); cbn [andb negb length]; lia.
Qed.

(** X18.  Over a sliding minute at most two windows' worth of frames
    pass: of the frames a socket sends in time order after it has
    connected, at most 4000 pass the rate-limit check within any span of
    60000 ms. *)
Theorem at_most_4000_in_any_minute t0 state log times a :
  Sorted Z.le (t0 :: times) →
  (length (List.filter (passes_in_span a)
             (arrivals (mkSocket 0 t0 2000 state log) times)) ≤ 4000)%nat.
Proof.
  intros Hs.
  set (w0 := mkSocket 0 t0 2000 state log).
  set (inspan := λ e : Z * Z * bool, (a <=? e.1.1) && (e.1.1 <=? a + 60000)).
  assert (Hrecent : ∀ e, In e (arrivals w0 times) →
            e.1.2 ≤ e.1.1 ∧ e.1.1 ≤ e.1.2 + 60000).
  { intros e. apply arrivals_recent. exact Hs. }
  pose proof (arrivals_windows_apart w0 times) as Hapart.
  rewrite (filter_length_split _ (λ e : Z * Z * bool, e.1.2 <=? a)).
  assert (H1 : (length (List.filter
                  (λ e : Z * Z * bool,
                     (inspan e && (e.1.2 <=? a)%Z) && e.2) (arrivals w0 times))
                ≤ 2000)%nat).
  { apply one_window_budget. intros e e' He He' Hc Hc'.
    unfold inspan in Hc, Hc'.
    apply andb_true_iff in Hc as [Hc Hr]. apply andb_true_iff in Hc as [Hc1 Hc2].
    apply andb_true_iff in Hc' as [Hc' Hr']. apply andb_true_iff in Hc' as [Hc1' Hc2'].
    apply Z.leb_le in Hc1, Hc2, Hr, Hc1', Hc2', Hr'.
    destruct (Hrecent e He), (Hrecent e' He').
    destruct (Hapart e e' He He') as [?|[?|?]]; lia. }
  assert (H2 : (length (List.filter
                  (λ e : Z * Z * bool,
                     (inspan e && negb (e.1.2 <=? a)%Z) && e.2) (arrivals w0 times))
                ≤ 2000)%nat).
  { apply one_window_budget. intros e e' He He' Hc Hc'.
    unfold inspan in Hc, Hc'.
    apply andb_true_iff in Hc as [Hc Hr]. apply andb_true_iff in Hc as [Hc1 Hc2].
    apply andb_true_iff in Hc' as [Hc' Hr']. apply andb_true_iff in Hc' as [Hc1' Hc2'].
    apply negb_true_iff, Z.leb_gt in Hr, Hr'.
    apply Z.leb_le in Hc1, Hc2, Hc1', Hc2'.
    destruct (Hrecent e He), (Hrecent e' He').
    destruct (Hapart e e' He He') as [?|[?|?]]; lia. }
  etransitivity; [|exact (Nat.add_le_mono _ _ _ _ H1 H2)].
  apply Nat.add_le_mono; apply filter_length_mono; intros e _ He;
    unfold inspan; unfold passes_in_span in He;
    destruct (e.2), (a <=? e.1.1), (e.1.1 <=? a + 60000), (e.1.2 <=? a);
    cbn in *; congruence.
Qed.

Lemma at_most_4000_in_any_minute_witness :
  (length (List.filter (passes_in_span 0%Z)
             (arrivals (mkSocket 0%Z 0%Z 2000%Z OPEN []) [10; 20; 70000]%Z))
   ≤ 4000)%nat.
Proof.
  apply (at_most_4000_in_any_minute 0 OPEN [] [10; 20; 70000] 0).
  repeat constructor; lia.
Defined.

(** ** The two slots *)

Lemma getDynamicGlobalProperties_hit upstream s :
  truthy (globalProperties (cache s)) = true →
  clock s - lastGlobalUpdate (cache s) < globalTTL →
  getDynamicGlobalProperties upstream s
  = (Ok (globalProperties (cache s)),
     set_errorStats (incr_cacheHits (errorStats s)) s).
Proof.
  intros Hv Ht. unfold getDynamicGlobalProperties.
  unfold mbind at 1 2. unfold M_bind at 1 2. unfold now, gets. cbv beta iota.
  apply Z.ltb_lt in Ht. rewrite Hv, Ht. reflexivity.
Qed.

Lemma getActiveWitnesses_hit upstream s :
  truthy (activeWitnesses (cache s)) = true →
  clock s - lastWitnessUpdate (cache s) < witnessTTL →
  getActiveWitnesses upstream s
  = (Ok (activeWitnesses (cache s)),
     set_errorStats (incr_cacheHits (errorStats s)) s).
Proof.
  intros Hv Ht. unfold getActiveWitnesses.
  unfold mbind at 1 2. unfold M_bind at 1 2. unfold now, gets. cbv beta iota.
  apply Z.ltb_lt in Ht. rewrite Hv, Ht. reflexivity.
Qed.

(** What a call of [getDynamicGlobalProperties] that returns has left in
    the slot. *)
Lemma getDynamicGlobalProperties_slot upstream s v s1 :
  getDynamicGlobalProperties upstream s = (Ok v, s1) →
  truthy v = true →
  globalProperties (cache s1) = v
  ∧ ((callSteemAPI upstream "getDynamicGlobalProperties" (VArr []) s).1 = Ok v →
     truthy (globalProperties (cache s))
       && (clock s - lastGlobalUpdate (cache s) <? globalTTL) = false →
     lastGlobalUpdate (cache s1) = clock s).
Proof.
  unfold getDynamicGlobalProperties.
  unfold mbind at 1 2. unfold M_bind at 1 2. unfold now, gets. cbv beta iota.
  destruct (truthy (globalProperties (cache s))
            && (clock s - lastGlobalUpdate (cache s) <? globalTTL)) eqn:Ec.
  - intros [= <- <-] Hv. split; [reflexivity|]. intros _ H. discriminate H.
  - unfold try_catch. unfold mbind at 1. unfold M_bind at 1.
    destruct (callSteemAPI upstream "getDynamicGlobalProperties" (VArr []) s)
      as [[r|e] sa].
    + unfold update_cache, update_errorStats, modify, lift, mbind, M_bind, gets.
      cbv beta iota.
      destruct (readProp r "head_block_number") as [hd|e1];
        [destruct (toStr hd) as [x|e2]|]; cbn -[truthy];
        try (destruct (truthy r) eqn:Etr; cbn -[truthy]);
        intros [= <- <-] Hv; try congruence;
        (split; [reflexivity|intros _ _; reflexivity]).
    + cbv beta iota. unfold update_errorStats, modify, mbind, M_bind, gets.
      cbv beta iota.
      destruct (truthy (globalProperties (cache sa))); [|intros H; discriminate H].
      intros [= <- <-] Hv. split; [reflexivity|]. intros H. discriminate H.
Qed.

Lemma witness_broadcast_cache b (message : value → list (string * value)) s :
  ∃ s',
    when b (ts ← timestamp; broadcastToSubscribers FWitnesses (message ts)) s
    = (Ok tt, s')
    ∧ cache s' = cache s.
Proof.
  destruct b; [|now exists s].
  unfold when, timestamp, now. unfold mbind, M_bind, gets. cbv beta iota.
  destruct (broadcastToSubscribers_sockets FWitnesses
              (message (VStr (toISOString (clock s)))) s)
    as (s' & Hrun & _ & Hc & _).
  exists s'. split; [exact Hrun|exact Hc].
Qed.

Lemma getActiveWitnesses_slot upstream s v s1 :
  getActiveWitnesses upstream s = (Ok v, s1) →
  truthy v = true →
  activeWitnesses (cache s1) = v
  ∧ ((callSteemAPI upstream "getActiveWitnesses" (VArr []) s).1 = Ok v →
     truthy (activeWitnesses (cache s))
       && (clock s - lastWitnessUpdate (cache s) <? witnessTTL) = false →
     lastWitnessUpdate (cache s1) = clock s).
Proof.
  unfold getActiveWitnesses.
  unfold mbind at 1 2. unfold M_bind at 1 2. unfold now, gets. cbv beta iota.
  destruct (truthy (activeWitnesses (cache s))
            && (clock s - lastWitnessUpdate (cache s) <? witnessTTL)) eqn:Ec.
  - intros [= <- <-] Hv. split; [reflexivity|]. intros _ H. discriminate H.
  - unfold try_catch. unfold mbind at 1. unfold M_bind at 1.
    destruct (callSteemAPI upstream "getActiveWitnesses" (VArr []) s)
      as [[r|e] sa].
    + unfold mbind at 1 2 3 4 5. unfold M_bind at 1 2 3 4 5.
      unfold update_cache, update_errorStats, modify, gets. cbv beta iota.
      unfold mbind at 1. unfold M_bind at 1.
      match goal with
      | |- context [when ?b (timestamp ≫= ?k) ?st] =>
          destruct (witness_broadcast_cache b
                      (λ ts, subscription_update "witnesses" r ts) st)
            as (sc & Hb & Hc);
          change (when b (timestamp ≫= k) st)
            with (when b (ts ← timestamp;
                          broadcastToSubscribers FWitnesses
                            (subscription_update "witnesses" r ts)) st);
          rewrite Hb
      end.
      cbv beta iota. unfold mbind, M_bind, lift, gets, update_errorStats, modify.
      destruct (getLength r) as [len|e1]; [destruct (toStr len) as [x|e2]|];
        cbn -[truthy]; rewrite ?Hc; cbn -[truthy];
        try (destruct (truthy r) eqn:Etr; cbn -[truthy]);
        intros [= <- <-] Hv; try congruence;
        cbn -[truthy]; rewrite ?Hc; cbn -[truthy];
        (split; [reflexivity|intros _ _; reflexivity]).
    + cbv beta iota. unfold update_errorStats, modify, mbind, M_bind, gets.
      cbv beta iota.
      destruct (truthy (activeWitnesses (cache sa))); [|intros H; discriminate H].
      intros [= <- <-] Hv. split; [reflexivity|]. intros H. discriminate H.
Qed.

(** X19.  Once [getDynamicGlobalProperties] has returned a truthy head
    state, the same call returns it again from the slot, counting a hit
    and doing nothing else, for as long as less than 3000 ms have passed
    since [lastGlobalUpdate].  After a refresh from upstream that time is
    the time at which the refresh started, not the time at which the answer
    came: the wait for the endpoint counts against the TTL.  The same holds
    for [getActiveWitnesses] and its 300000 ms. *)
Theorem head_state_served_from_slot upstream s v s1 :
  truthy v = true →
  (getDynamicGlobalProperties upstream s = (Ok v, s1) →
   (∀ t,
      t - lastGlobalUpdate (cache s1) < globalTTL →
      getDynamicGlobalProperties upstream (set_clock t s1)
      = (Ok v, set_errorStats (incr_cacheHits (errorStats s1)) (set_clock t s1)))
   ∧ ((callSteemAPI upstream "getDynamicGlobalProperties" (VArr []) s).1 = Ok v →
      truthy (globalProperties (cache s))
        && (clock s - lastGlobalUpdate (cache s) <? globalTTL) = false →
      lastGlobalUpdate (cache s1) = clock s))
  ∧ (getActiveWitnesses upstream s = (Ok v, s1) →
     (∀ t,
        t - lastWitnessUpdate (cache s1) < witnessTTL →
        getActiveWitnesses upstream (set_clock t s1)
        = (Ok v, set_errorStats (incr_cacheHits (errorStats s1)) (set_clock t s1)))
     ∧ ((callSteemAPI upstream "getActiveWitnesses" (VArr []) s).1 = Ok v →
        truthy (activeWitnesses (cache s))
          && (clock s - lastWitnessUpdate (cache s) <? witnessTTL) = false →
        lastWitnessUpdate (cache s1) = clock s)).
Proof.
  intros Hv. split; intros Hrun.
  - destruct (getDynamicGlobalProperties_slot upstream s v s1 Hrun Hv) as [Hslot Hlast].
    split; [|exact Hlast].
    intros t Ht.
    rewrite (getDynamicGlobalProperties_hit upstream (set_clock t s1)).
    + cbn [cache set_clock]. rewrite Hslot. reflexivity.
    + cbn [cache set_clock]. rewrite Hslot. exact Hv.
    + exact Ht.
  - destruct (getActiveWitnesses_slot upstream s v s1 Hrun Hv) as [Hslot Hlast].
    split; [|exact Hlast].
    intros t Ht.
    rewrite (getActiveWitnesses_hit upstream (set_clock t s1)).
    + cbn [cache set_clock]. rewrite Hslot. reflexivity.
    + cbn [cache set_clock]. rewrite Hslot. exact Hv.
    + exact Ht.
Qed.

(** A first poll at time 100 whose answer takes 40 ms: the slot is good
    until 3100, not 3140. *)
Lemma head_state_served_from_slot_witness :
  lastGlobalUpdate
    (cache (getDynamicGlobalProperties upstream_up (set_clock 100 one_client)).2)
  = 100.
Proof.
  assert (Hrun :
    getDynamicGlobalProperties upstream_up (set_clock 100 one_client)
    = (Ok (head 100),
       (getDynamicGlobalProperties upstream_up (set_clock 100 one_client)).2))
    by (vm_compute; reflexivity).
  destruct (head_state_served_from_slot upstream_up (set_clock 100 one_client)
              (head 100)
              (getDynamicGlobalProperties upstream_up (set_clock 100 one_client)).2
              eq_refl) as [H _].
  apply (H Hrun); vm_compute; reflexivity.
Defined.

(** The update frame for a refreshed witness list. *)
Definition witness_update (r : value) (t : Z) : frame :=
  JSON_stringify (subscription_update "witnesses" r (VStr (toISOString t))).

(** X20.  A refresh of the witness list is announced only when the list
    has changed.  When the answer of the endpoint serialises as the value
    in the slot does, nothing is written to any socket; otherwise every
    open subscriber of the witness feed is written the update frame once,
    and nobody else anything.  The slot is read after the call: when a
    failover has cleared it in between, any answer counts as changed. *)
Theorem witness_refresh_announces_changes upstream s r sa :
  truthy (activeWitnesses (cache s))
    && (clock s - lastWitnessUpdate (cache s) <? witnessTTL) = false →
  callSteemAPI upstream "getActiveWitnesses" (VArr []) s = (Ok r, sa) →
  isArray r = true →
  List.NoDup (sub_witnesses (subscribers s)) →
  ∃ s1,
    getActiveWitnesses upstream s = (Ok r, s1)
    ∧ ∀ ws,
        sent (sockets s1 ws)
        = sent (sockets s ws)
            ++ (if negb (value_eqb (wire (activeWitnesses (cache sa))) (wire r))
                   && set_has ws (sub_witnesses (subscribers s))
                   && is_open (readyState (sockets s ws))
                then [witness_update r (clock sa)]
                else []).
Proof.
  intros Hexp Hcall Harr Hnd.
  pose proof (callSteemAPI_sessions upstream "getActiveWitnesses" (VArr []) s)
    as (Hsock & _ & Hsubs).
  rewrite Hcall in Hsock, Hsubs. cbn [snd] in Hsock, Hsubs.
  destruct r as [| | | | |xs|]; try discriminate Harr.
  unfold getActiveWitnesses.
  unfold mbind at 1 2. unfold M_bind at 1 2. unfold now, gets. cbv beta iota.
  rewrite Hexp. unfold try_catch. unfold mbind at 1. unfold M_bind at 1.
  rewrite Hcall. cbv beta iota.
  unfold mbind at 1 2 3 4 5. unfold M_bind at 1 2 3 4 5.
  unfold update_cache, update_errorStats, modify, gets. cbv beta iota.
  unfold mbind at 1. unfold M_bind at 1.
  match goal with
  | |- context [when ?b ?m ?st] => set (cond := b); set (s2 := st)
  end.
  assert (Hs2 : sockets s2 = sockets s) by exact Hsock.
  assert (Hb2 : subscribers s2 = subscribers s) by exact Hsubs.
  assert (Hc2 : clock s2 = clock sa) by reflexivity.
  destruct cond eqn:Econd; subst cond.
  - unfold when, timestamp, now. unfold mbind at 1 2. unfold M_bind at 1 2.
    unfold gets. cbv beta iota.
    destruct (broadcastToSubscribers_sockets FWitnesses
                (subscription_update "witnesses" (VArr xs)
                   (VStr (toISOString (clock s2)))) s2)
      as (s3 & Hrun & _ & _ & _ & _ & Hsent).
    unfold mret, M_ret at 1. rewrite Hrun. cbv beta iota.
    eexists. split; [reflexivity|]. intros ws.
    destruct (Hsent ws) as [_ Hs]. rewrite Hs2 in Hs.
    change (feed FWitnesses (subscribers s2)) with (sub_witnesses (subscribers s2)) in Hs.
    rewrite Hb2, Hc2 in Hs. rewrite Hs. f_equal.
    apply andb_true_iff in Econd as [_ Hne]. rewrite Hne. cbn [andb].
    unfold witness_update.
    destruct (set_has ws (sub_witnesses (subscribers s))) eqn:E.
    + apply set_has_In in E. rewrite (count_NoDup _ _ Hnd E).
      destruct (is_open (readyState (sockets s ws))); reflexivity.
    + assert (¬ In ws (sub_witnesses (subscribers s))) as Hnot.
      { intros Hin. apply set_has_In in Hin. congruence. }
      rewrite (count_notin _ _ Hnot).
      destruct (is_open (readyState (sockets s ws))); reflexivity.
  - unfold when. cbv beta iota. eexists. split; [reflexivity|]. intros ws.
    rewrite Hs2.
    destruct (negb (value_eqb (wire (activeWitnesses (cache sa))) (wire (VArr xs))))
      eqn:Hne; [|now rewrite app_nil_r].
    rewrite andb_true_r in Econd. apply Z.ltb_ge in Econd.
    first [rewrite Hb2 in Econd
          |cbn [subscribers set_errorStats set_cache] in Econd; rewrite Hsubs in Econd].
    destruct (sub_witnesses (subscribers s)) as [|x l] eqn:El.
    + cbn. now rewrite app_nil_r.
    + unfold set_size in Econd. cbn [length] in Econd. lia.
Qed.

(** Socket 1 connected and subscribed to the witness feed, the slot still
    empty. *)
Definition witness_subscriber : Server :=
  exec (handleMessage upstream_up 1%nat
          (request (VNum 1) "subscribe_witnesses" (VArr [])))
    one_client.

Lemma witness_refresh_announces_changes_witness :
  ∃ s1,
    getActiveWitnesses upstream_up witness_subscriber
    = (Ok (VArr [VStr "alice"; VStr "bob"]), s1)
    ∧ sent (sockets s1 1%nat)
      = sent (sockets witness_subscriber 1%nat)
          ++ [witness_update (VArr [VStr "alice"; VStr "bob"]) 40].
Proof.
  assert (Hexp :
    truthy (activeWitnesses (cache witness_subscriber))
      && (clock witness_subscriber - lastWitnessUpdate (cache witness_subscriber)
          <? witnessTTL) = false) by reflexivity.
  assert (Hcall :
    callSteemAPI upstream_up "getActiveWitnesses" (VArr []) witness_subscriber
    = (Ok (VArr [VStr "alice"; VStr "bob"]),
       (callSteemAPI upstream_up "getActiveWitnesses" (VArr []) witness_subscriber).2))
    by (vm_compute; reflexivity).
  assert (Hnd : List.NoDup (sub_witnesses (subscribers witness_subscriber))).
  { vm_compute. constructor; [intros []|constructor]. }
  destruct (witness_refresh_announces_changes upstream_up witness_subscriber
              (VArr [VStr "alice"; VStr "bob"]) _ Hexp Hcall eq_refl Hnd)
    as (s1 & Hrun & Hs).
  exists s1. split; [exact Hrun|]. rewrite (Hs 1%nat). vm_compute. reflexivity.
Defined.
